(** * auto-store: browser session pool, parallel batch utility and
      RabbitMQ client service

    A shallow embedding of
      - [src/playwright.service.ts]   (class [PlaywrightService]),
      - the sibling class [PlaywrightManager] and
      - the class [RabbitMQService],
    together with the properties stated about them.

    JavaScript values are modelled as follows.  Array lengths, loop
    counters and chunk counts are [nat]; arrays are [list]; a [Map] is an
    insertion-ordered association list; objects handed out by Playwright
    or by the broker library (browsers, contexts, pages, clients) are
    handles into an explicit store, so that object identity ([===]) is
    equality of handles; a promise that rejects and a [throw] are the
    [Throw] result of a state-and-exception monad. *)

From Stdlib Require Import Lia.
From stdpp Require Import base tactics option list strings pretty.

Local Open Scope nat_scope.

(** ** Array helpers *)

(** [items.slice(i, j)] for indices [0 <= i], [0 <= j]. *)
Definition slice {A} (items : list A) (i j : nat) : list A :=
  take (j - i) (drop i items).

(** [Math.ceil(n / k)] for array lengths [n] and a positive integer [k].
    On such operands the floating-point quotient rounds to the exact
    quotient or stays strictly between the two neighbouring integers, so
    that [Math.ceil] yields the integer ceiling. *)
Definition ceilDiv (n k : nat) : nat :=
  n / k + (if n mod k =? 0 then 0 else 1).

(** ** [splitIntoChunks] *)

Module Chunks.
Section Chunks.
Context {T : Type}.

(** The [for (let i = 0; i < items.length; i += chunkSize)] loop, entered
    with index [i].  One unit of [fuel] is spent per iteration; [None]
    stands for a loop that has not finished within the fuel. *)
Fixpoint chunkLoop (fuel : nat) (items : list T) (chunkSize i : nat)
  : option (list (list T)) :=
  if i <? length items then
    match fuel with
    | 0 => None
    | S fuel' =>
        cons (slice items i (i + chunkSize))
          <$> chunkLoop fuel' items chunkSize (i + chunkSize)
    end
  else Some [].

(** [splitIntoChunks(items, chunkCount)].
    For [chunkCount = 0] the quotient is [NaN] on the empty array (the
    loop is not entered) and [Infinity] otherwise (one iteration, whose
    slice is the whole array, ends the loop).  Otherwise the chunk size
    is an integer and [items.length] iterations are enough. *)
Definition splitIntoChunks (items : list T) (chunkCount : nat)
  : option (list (list T)) :=
  match chunkCount with
  | 0 => Some (match items with [] => [] | _ => [items] end)
  | S _ =>
      let chunkSize := ceilDiv (length items) chunkCount in
      chunkLoop (length items) items chunkSize 0
  end.
End Chunks.
End Chunks.
Export Chunks.

(** ** Errors and results *)

(** The errors that can be thrown.  [ExternalError] is an error this code
    base did not construct: a rejection coming from Playwright, from the
    broker client or from a callback supplied by the caller.  The other
    constructors are the [new Error(...)] sites of the manager classes. *)
Inductive JsError : Type :=
| ExternalError (msg : string)
| TypeError (msg : string)
| ContextError (contextId : string)
| OnchLoginError (cause : string)
| CoupangLoginError (cause : string).

(** [error.message] *)
Definition message (e : JsError) : string :=
  match e with
  | ExternalError msg => msg
  | TypeError msg => msg
  | ContextError contextId =>
      "Failed to create or get context with ID: " +:+ contextId
  | OnchLoginError cause => "온채널 로그인 중 오류 발생: " +:+ cause
  | CoupangLoginError cause => "쿠팡 로그인 중 오류 발생: " +:+ cause
  end.

(** How an awaited call settles. *)
Inductive Res (A : Type) : Type :=
| Ok (a : A)
| Throw (e : JsError).
Arguments Ok {A} a.
Arguments Throw {A} e.

Definition is_ok {A} (r : Res A) : bool :=
  match r with Ok _ => true | Throw _ => false end.

Definition is_throw {A} (r : Res A) : bool :=
  match r with Ok _ => false | Throw _ => true end.

(** The values of the calls that succeeded, in order. *)
Fixpoint oks {A} (rs : list (Res A)) : list A :=
  match rs with
  | [] => []
  | Ok a :: rs' => a :: oks rs'
  | Throw _ :: rs' => oks rs'
  end.

(** Number of calls that succeeded, resp. threw. *)
Definition count_ok {A} (rs : list (Res A)) : nat := length (filter is_ok rs).
Definition count_throw {A} (rs : list (Res A)) : nat := length (filter is_throw rs).
Global Arguments count_ok : simpl never.
Global Arguments count_throw : simpl never.

(** Object handles.  Two handles denote the same JavaScript object exactly
    when they are equal. *)
Abbreviation Browser := nat (only parsing).
Abbreviation BrowserContext := nat (only parsing).
Abbreviation Page := nat (only parsing).

(** ** [processItemsInParallel] *)

(** The chunks are processed by one [async] function each, all started by
    [chunks.map] and joined by [Promise.all].  Each such task runs without
    interruption from one [await] to the next; which suspended task the
    event loop resumes next is up to the order in which the awaited
    promises settle.  That order is the [schedule], a list of task
    indices.

    The callbacks belong to the caller.  They are taken as functions of
    their arguments telling how the call settles. *)

Module Parallel.

(** Invocations of the two optional callbacks, as they happen. *)
Inductive CallbackCall (R : Type) : Type :=
| BatchCall (pageIndex : nat) (batchResults : list R)
| ProgressCall (completed total : nat).
Arguments BatchCall {R} pageIndex batchResults.
Arguments ProgressCall {R} completed total.

(** The variables closed over by every task. *)
Record Shared (R : Type) : Type := mkShared {
  successCount : nat;
  failCount : nat;
  allResults : list R;
  callbackLog : list (CallbackCall R)
}.
Arguments mkShared {R}.
Arguments successCount {R}.
Arguments failCount {R}.
Arguments allResults {R}.
Arguments callbackLog {R}.

(** Where a task is suspended. *)
Inductive Pc (T : Type) : Type :=
| AwaitItem (item : T) (rest : list T)
    (* at [await processItemFn(page, item)]; [rest] is still to be iterated *)
| AwaitBatch (settled : Res unit) (rest : list T)
    (* at [await onBatchComplete([...localBatch])] inside the [try] *)
| AwaitFinal (settled : Res unit)
    (* at [await onBatchComplete([...localBatch])] after the loop *)
| Finished
| Rejected (e : JsError).
Arguments AwaitItem {T} item rest.
Arguments AwaitBatch {T} settled rest.
Arguments AwaitFinal {T} settled.
Arguments Finished {T}.
Arguments Rejected {T} e.

(** One invocation of the [chunks.map] callback. *)
Record Task (T R : Type) : Type := mkTask {
  page : option Page;         (* [pages[pageIndex]], [None] for [undefined] *)
  pageIndex : nat;
  localBatch : list R;
  pc : Pc T
}.
Arguments mkTask {T R}.
Arguments page {T R}.
Arguments pageIndex {T R}.
Arguments localBatch {T R}.
Arguments pc {T R}.

(** The value the function resolves with. *)
Record Summary (R : Type) : Type := mkSummary {
  sum_successCount : nat;
  sum_failCount : nat;
  sum_results : list R
}.
Arguments mkSummary {R}.
Arguments sum_successCount {R}.
Arguments sum_failCount {R}.
Arguments sum_results {R}.

Section Parallel.
Context {T R : Type}.
Variable pages : list Page.
Variable processItemFn : option Page -> T -> Res R.
Variable batchSize : nat.
Variable onBatchComplete : option (list R -> Res unit).
Variable onProgress : option (nat -> nat -> Res unit).
Variable totalItems : nat.

Definition setPc (t : Task T R) (p : Pc T) : Task T R :=
  mkTask (page t) (pageIndex t) (localBatch t) p.

Definition setBatch (t : Task T R) (b : list R) : Task T R :=
  mkTask (page t) (pageIndex t) b (pc t).

(** [if (onProgress) onProgress(successCount + failCount, totalItems)] *)
Definition reportProgress (sh : Shared R) : Res unit * Shared R :=
  match onProgress with
  | Some f =>
      let completed := successCount sh + failCount sh in
      (f completed totalItems,
       mkShared (successCount sh) (failCount sh) (allResults sh)
         (callbackLog sh ++ [ProgressCall completed totalItems]))
  | None => (Ok tt, sh)
  end.

(** The head of [for (const item of chunk)] with [rest] left to iterate:
    the next [processItemFn] is called and awaited, or the loop is left
    and the remaining batch is handed over. *)
Definition enterLoop (rest : list T) (t : Task T R) (sh : Shared R)
  : Task T R * Shared R :=
  match rest with
  | item :: rest' => (setPc t (AwaitItem item rest'), sh)
  | [] =>
      match onBatchComplete with
      | Some g =>
          if 0 <? length (localBatch t) then
            (setPc t (AwaitFinal (g (localBatch t))),
             mkShared (successCount sh) (failCount sh) (allResults sh)
               (callbackLog sh ++ [BatchCall (pageIndex t) (localBatch t)]))
          else (setPc t Finished, sh)
      | None => (setPc t Finished, sh)
      end
  end.

(** The [catch] block.  An error thrown by [onProgress] here leaves the
    [async] function. *)
Definition catchBlock (rest : list T) (t : Task T R) (sh : Shared R)
  : Task T R * Shared R :=
  let sh1 := mkShared (successCount sh) (S (failCount sh)) (allResults sh)
               (callbackLog sh) in
  match reportProgress sh1 with
  | (Ok _, sh2) => enterLoop rest t sh2
  | (Throw e, sh2) => (setPc t (Rejected e), sh2)
  end.

(** [successCount++] and the progress report that end the [try] block. *)
Definition countSuccess (rest : list T) (t : Task T R) (sh : Shared R)
  : Task T R * Shared R :=
  let sh1 := mkShared (S (successCount sh)) (failCount sh) (allResults sh)
               (callbackLog sh) in
  match reportProgress sh1 with
  | (Ok _, sh2) => enterLoop rest t sh2
  | (Throw _, sh2) => catchBlock rest t sh2
  end.

(** A suspended task is resumed and runs up to its next [await]. *)
Definition resume (t : Task T R) (sh : Shared R) : Task T R * Shared R :=
  match pc t with
  | AwaitItem item rest =>
      match processItemFn (page t) item with
      | Ok result =>
          let t1 := setBatch t (localBatch t ++ [result]) in
          let sh1 := mkShared (successCount sh) (failCount sh)
                       (allResults sh ++ [result]) (callbackLog sh) in
          match onBatchComplete with
          | Some g =>
              if batchSize <=? length (localBatch t1) then
                (setPc t1 (AwaitBatch (g (localBatch t1)) rest),
                 mkShared (successCount sh1) (failCount sh1) (allResults sh1)
                   (callbackLog sh1
                      ++ [BatchCall (pageIndex t1) (localBatch t1)]))
              else countSuccess rest t1 sh1
          | None => countSuccess rest t1 sh1
          end
      | Throw _ => catchBlock rest t sh
      end
  | AwaitBatch (Ok _) rest => countSuccess rest (setBatch t []) sh
  | AwaitBatch (Throw _) rest => catchBlock rest t sh
  | AwaitFinal (Ok _) => (setPc t Finished, sh)
  | AwaitFinal (Throw e) => (setPc t (Rejected e), sh)
  | Finished | Rejected _ => (t, sh)
  end.

(** The tasks, the shared variables, and the first rejection seen by
    [Promise.all]. *)
Record Run : Type := mkRun {
  shared : Shared R;
  tasks : list (Task T R);
  rejection : option JsError
}.

Definition taskRejection (t : Task T R) : option JsError :=
  match pc t with Rejected e => Some e | _ => None end.

(** [chunks.map(async (chunk, pageIndex) => ...)] starts the tasks one
    after the other; each one runs up to its first [await]. *)
Fixpoint startTasks (pageIndex : nat) (chunks : list (list T)) (r : Run) : Run :=
  match chunks with
  | [] => r
  | chunk :: chunks' =>
      let t0 := mkTask (pages !! pageIndex) pageIndex [] Finished in
      let '(t, sh) := enterLoop chunk t0 (shared r) in
      startTasks (S pageIndex) chunks'
        (mkRun sh (tasks r ++ [t])
           (match rejection r with Some e => Some e | None => taskRejection t end))
  end.

(** The event loop resumes task number [c]. *)
Definition step (r : Run) (c : nat) : Run :=
  match tasks r !! c with
  | None => r
  | Some t =>
      let '(t', sh) := resume t (shared r) in
      mkRun sh (<[c := t']> (tasks r))
        (match rejection r with Some e => Some e | None => taskRejection t' end)
  end.

Definition isFinished (t : Task T R) : bool :=
  match pc t with Finished => true | _ => false end.

(** What [await Promise.all(...)] followed by the [return] gives once the
    schedule has been played: the first rejection if there is one, the
    summary if every task has finished, and [None] if tasks are still
    suspended. *)
Definition settle (r : Run) : option (Res (Summary R)) :=
  match rejection r with
  | Some e => Some (Throw e)
  | None =>
      if forallb isFinished (tasks r) then
        Some (Ok (mkSummary (successCount (shared r)) (failCount (shared r))
                    (allResults (shared r))))
      else None
  end.

End Parallel.

Section Entry.
Context {T R : Type}.

(** The state of the call after the tasks were started and resumed along
    [schedule]. *)
Definition parallelRun (pages : list Page) (items : list T)
    (processItemFn : option Page -> T -> Res R) (batchSize : nat)
    (onBatchComplete : option (list R -> Res unit))
    (onProgress : option (nat -> nat -> Res unit))
    (schedule : list nat) : option (Run (T := T) (R := R)) :=
  chunks ← splitIntoChunks items (length pages);
  let totalItems := length items in
  let r0 := mkRun (mkShared 0 0 [] []) [] None in
  Some (foldl (step processItemFn batchSize onBatchComplete onProgress totalItems)
          (startTasks pages onBatchComplete 0 chunks r0) schedule).

(** [processItemsInParallel(pages, items, processItemFn, batchSize,
    onBatchComplete, onProgress)] *)
Definition processItemsInParallel (pages : list Page) (items : list T)
    (processItemFn : option Page -> T -> Res R) (batchSize : nat)
    (onBatchComplete : option (list R -> Res unit))
    (onProgress : option (nat -> nat -> Res unit))
    (schedule : list nat) : option (Res (Summary R)) :=
  parallelRun pages items processItemFn batchSize onBatchComplete onProgress
    schedule ≫= settle.

End Entry.

(** *** Vocabulary for the statements about [processItemsInParallel] *)

Section Vocabulary.
Context {T R : Type}.

(** The callbacks, where supplied, settle normally on every argument. *)
Definition batchCallbackReturns (onBatchComplete : option (list R -> Res unit)) : Prop :=
  forall g batch, onBatchComplete = Some g -> g batch = Ok tt.

Definition progressCallbackReturns (onProgress : option (nat -> nat -> Res unit)) : Prop :=
  forall h completed total, onProgress = Some h -> h completed total = Ok tt.

(** How the [processItemFn] calls settle, chunk after chunk, when chunk
    number [pageIndex + j] is processed on page [pages[pageIndex + j]]. *)
Fixpoint chunkOutcomes (pages : list Page) (processItemFn : option Page -> T -> Res R)
    (pageIndex : nat) (chunks : list (list T)) : list (Res R) :=
  match chunks with
  | [] => []
  | chunk :: chunks' =>
      (processItemFn (pages !! pageIndex) <$> chunk)
        ++ chunkOutcomes pages processItemFn (S pageIndex) chunks'
  end.

(** Number of times the schedule resumes task [c]. *)
Definition resumptions (c : nat) (schedule : list nat) : nat :=
  length (filter (fun c' => c' = c) schedule).

(** A schedule that resumes every task until it has finished: a task
    awaits at most twice per item and once after its loop. *)
Definition resumesAll (chunks : list (list T)) (schedule : list nat) : Prop :=
  forall c chunk, chunks !! c = Some chunk ->
    2 * length chunk + 1 <= resumptions c schedule.

(** The batches handed to [onBatchComplete] by task [c], in order. *)
Fixpoint batchesOf (c : nat) (log : list (CallbackCall R)) : list (list R) :=
  match log with
  | [] => []
  | BatchCall c' batch :: log' =>
      if decide (c' = c) then batch :: batchesOf c log' else batchesOf c log'
  | ProgressCall _ _ :: log' => batchesOf c log'
  end.


(** *** Quantities used in the proofs *)

(** The items a task has not yet seen settle. *)
Definition pendingItems (t : Task T R) : list T :=
  match pc t with
  | AwaitItem item rest => item :: rest
  | AwaitBatch _ rest => rest
  | _ => []
  end.

Definition pendingOutcomes (processItemFn : option Page -> T -> Res R)
    (t : Task T R) : list (Res R) :=
  processItemFn (page t) <$> pendingItems t.

(** A result that is already in [allResults] while its [successCount++]
    is still ahead. *)
Definition uncounted (t : Task T R) : nat :=
  match pc t with AwaitBatch _ _ => 1 | _ => 0 end.

(** Bound on the number of resumptions a task still needs. *)
Definition stepsLeft (t : Task T R) : nat :=
  match pc t with
  | AwaitItem _ rest => 2 * length rest + 3
  | AwaitBatch _ rest => 2 * length rest + 2
  | AwaitFinal _ => 1
  | Finished | Rejected _ => 0
  end.

(** The callback promise a task waits for fulfils, and the task has not
    been rejected. *)
Definition wellSettled (t : Task T R) : Prop :=
  match pc t with
  | AwaitBatch s _ | AwaitFinal s => s = Ok tt
  | Rejected _ => False
  | _ => True
  end.

(** The batches issued when results [rs] arrive one by one on top of the
    accumulated batch [acc]. *)
Fixpoint flushes (b : nat) (acc : list R) (rs : list R) : list (list R) :=
  match rs with
  | [] => match acc with [] => [] | _ => [acc] end
  | r :: rs' =>
      if b <=? length (acc ++ [r]) then (acc ++ [r]) :: flushes b [] rs'
      else flushes b (acc ++ [r]) rs'
  end.

(** The batches a task is still going to hand over. *)
Definition futureBatches (processItemFn : option Page -> T -> Res R) (b : nat)
    (t : Task T R) : list (list R) :=
  match pc t with
  | AwaitItem _ _ => flushes b (localBatch t) (oks (pendingOutcomes processItemFn t))
  | AwaitBatch _ _ => flushes b [] (oks (pendingOutcomes processItemFn t))
  | _ => []
  end.

(** Conserved along a run: what is counted plus what is still to come. *)
Definition successPotential (processItemFn : option Page -> T -> Res R)
    (r : Run (T := T) (R := R)) : nat :=
  successCount (shared r)
  + sum_list_with (fun t => uncounted t + count_ok (pendingOutcomes processItemFn t))
      (tasks r).

Definition failPotential (processItemFn : option Page -> T -> Res R)
    (r : Run (T := T) (R := R)) : nat :=
  failCount (shared r)
  + sum_list_with (fun t => count_throw (pendingOutcomes processItemFn t)) (tasks r).

Definition resultPotential (processItemFn : option Page -> T -> Res R)
    (r : Run (T := T) (R := R)) : list R :=
  allResults (shared r)
  ++ concat ((fun t => oks (pendingOutcomes processItemFn t)) <$> tasks r).

Definition batchPotential (processItemFn : option Page -> T -> Res R) (b c : nat)
    (r : Run (T := T) (R := R)) : list (list R) :=
  batchesOf c (callbackLog (shared r))
  ++ from_option (futureBatches processItemFn b) [] (tasks r !! c).

End Vocabulary.

(** *** Invariants used in the proofs *)

Section Invariants.
Context {T R : Type}.
Variable processItemFn : option Page -> T -> Res R.
Variable batchSize : nat.
Variable onBatchComplete : option (list R -> Res unit).

Local Abbreviation Task := (Task T R).
Local Abbreviation Run := (Run (T := T) (R := R)).
Local Abbreviation pendingOutcomes := (pendingOutcomes processItemFn).
Local Abbreviation futureBatches := (futureBatches processItemFn batchSize).

(** What one uninterrupted stretch of a task changes: the task and the
    shared variables before and after. *)
Record Stretch (outcomes : list (Res R)) (extra : nat) (acc : list R)
    (rest : list T) (t : Task) (sh : Shared R) (t' : Task) (sh' : Shared R) : Prop := {
  st_page : page t' = page t;
  st_index : pageIndex t' = pageIndex t;
  st_success :
    successCount sh' + uncounted t' + count_ok (pendingOutcomes t')
    = successCount sh + extra + count_ok outcomes;
  st_fail :
    failCount sh' + count_throw (pendingOutcomes t')
    = failCount sh + count_throw outcomes;
  st_results :
    allResults sh' ++ oks (pendingOutcomes t') = allResults sh ++ oks outcomes;
  st_settled : wellSettled t';
  st_steps : stepsLeft t' <= 2 * length rest + 1;
  st_other : forall c, c <> pageIndex t ->
    batchesOf c (callbackLog sh') = batchesOf c (callbackLog sh);
  st_batches : forall g, onBatchComplete = Some g ->
    batchesOf (pageIndex t) (callbackLog sh') ++ futureBatches t'
    = batchesOf (pageIndex t) (callbackLog sh) ++ flushes batchSize acc (oks outcomes)
}.

(** What holds of the tasks throughout a run with callbacks that return. *)
Record Sound (r : Run) : Prop := {
  snd_settled : Forall wellSettled (tasks r);
  snd_indexed : forall c t, tasks r !! c = Some t -> pageIndex t = c;
  snd_rejection : rejection r = None
}.

End Invariants.

End Parallel.

(** ** State and exceptions *)

(** A computation over a state [S]: it ends with a value or with a thrown
    error, and in both cases leaves a state behind (JavaScript does not
    roll back assignments made before a [throw]). *)
Definition M (S A : Type) : Type := S -> Res A * S.

Definition ret {S A} (a : A) : M S A := fun s => (Ok a, s).

Definition throw {S A} (e : JsError) : M S A := fun s => (Throw e, s).

Definition bind {S A B} (m : M S A) (k : A -> M S B) : M S B :=
  fun s =>
    match m s with
    | (Ok a, s') => k a s'
    | (Throw e, s') => (Throw e, s')
    end.

(** [try { m } catch (error) { handler(error) }] *)
Definition tryCatch {S A} (m : M S A) (handler : JsError -> M S A) : M S A :=
  fun s =>
    match m s with
    | (Ok a, s') => (Ok a, s')
    | (Throw e, s') => handler e s'
    end.

Definition gets {S A} (f : S -> A) : M S A := fun s => (Ok (f s), s).

Definition modify {S} (f : S -> S) : M S unit := fun s => (Ok tt, f s).

Notation "x <- m ;; k" := (bind m (fun x => k))
  (at level 100, m at next level, right associativity).
Notation "m ;; k" := (bind m (fun _ => k))
  (at level 100, right associativity).

(** [for (const x of xs) { body(x) }] over the elements [xs]. *)
Fixpoint forEach {S A} (xs : list A) (body : A -> M S unit) : M S unit :=
  match xs with
  | [] => ret tt
  | x :: xs' => body x ;; forEach xs' body
  end.

(** [console.log] and [console.error] have no effect on the state. *)
Definition consoleLog {S} (line : string) : M S unit := ret tt.

(** ** JavaScript [Map] with string keys *)

(** A [Map] keeps its entries in insertion order; [set] on a present key
    replaces the value in place, [set] on a new key appends. *)
Module JsMap.

Definition t (V : Type) : Type := list (string * V).

Definition empty {V} : t V := [].

Fixpoint get {V} (k : string) (m : t V) : option V :=
  match m with
  | [] => None
  | (k', v) :: m' => if decide (k' = k) then Some v else get k m'
  end.

Definition has {V} (k : string) (m : t V) : bool :=
  match get k m with Some _ => true | None => false end.

Fixpoint set {V} (k : string) (v : V) (m : t V) : t V :=
  match m with
  | [] => [(k, v)]
  | (k', v') :: m' =>
      if decide (k' = k) then (k, v) :: m' else (k', v') :: set k v m'
  end.

Fixpoint delete {V} (k : string) (m : t V) : t V :=
  match m with
  | [] => []
  | (k', v') :: m' =>
      if decide (k' = k) then delete k m' else (k', v') :: delete k m'
  end.

Definition keys {V} (m : t V) : list string := m.*1.

Definition entries {V} (m : t V) : list (string * V) := m.

End JsMap.

(** ** [RabbitMQService] *)

Module RabbitMQ.

(** A [ClientProxy] object. *)
Abbreviation Client := nat (only parsing).

(** The options given to [ClientProxyFactory.create]. *)
Record RmqOptions : Type := mkRmqOptions {
  urls : list string;
  queue : string;
  durable : bool;
  prefetchCount : nat;
  noAck : bool
}.

Section Service.
(** The type of payloads ([any]). *)
Context {Payload : Type}.

(** The data handed to the client: [{ pattern, payload }]. *)
Record Envelope : Type := mkEnvelope {
  env_pattern : string;
  env_payload : Payload
}.

(** The calls made into the broker library, in order.  The first
    argument of [ClientEmit] and [ClientSend] is the client, the second
    the message pattern of [ClientProxy.emit(pattern, data)] resp.
    [ClientProxy.send(pattern, data)], the third the data. *)
Inductive BrokerCall : Type :=
| FactoryCreate (options : RmqOptions)
| ClientConnect (client : Client)
| ClientEmit (client : Client) (pattern : string) (data : Envelope)
| ClientSend (client : Client) (pattern : string) (data : Envelope)
| ClientClose (client : Client).

(** What the service cannot decide: the configuration, and how the calls
    into the broker library settle given the calls made before. *)
Record Environment : Type := mkEnvironment {
  rabbitmqUrl : option string;
  connectSettles : list BrokerCall -> Client -> Res unit;
  emitSettles : list BrokerCall -> Client -> string -> Envelope -> Res unit;
  sendSettles : list BrokerCall -> Client -> string -> Envelope -> Res Payload;
  closeSettles : list BrokerCall -> Client -> Res unit
}.

(** [interface ClientInfo] *)
Record ClientInfo : Type := mkClientInfo {
  client : Client;
  connected : bool
}.

(** The service object and the broker library it talks to. *)
Record State : Type := mkState {
  clients : JsMap.t ClientInfo;       (* [this.clients] *)
  created : nat;                      (* clients built by the factory so far *)
  calls : list BrokerCall
}.

Variable env : Environment.

Definition record (c : BrokerCall) : M State unit :=
  modify (fun s => mkState (clients s) (created s) (calls s ++ [c])).

Definition setClients (f : JsMap.t ClientInfo -> JsMap.t ClientInfo)
  : M State unit :=
  modify (fun s => mkState (f (clients s)) (created s) (calls s)).

(** [ClientProxyFactory.create(options)]: a new client object. *)
Definition factoryCreate (options : RmqOptions) : M State Client :=
  c <- gets created ;;
  modify (fun s => mkState (clients s) (S (created s))
                     (calls s ++ [FactoryCreate options])) ;;
  ret c.

(** The calls whose outcome is up to the broker. *)
Definition settleWith {A} (c : BrokerCall)
    (outcome : list BrokerCall -> Res A) : M State A :=
  before <- gets calls ;;
  record c ;;
  match outcome before with
  | Ok a => ret a
  | Throw e => throw e
  end.

Definition clientConnect (c : Client) : M State unit :=
  settleWith (ClientConnect c) (fun before => connectSettles env before c).

Definition clientEmit (c : Client) (pattern : string) (data : Envelope)
  : M State unit :=
  settleWith (ClientEmit c pattern data)
    (fun before => emitSettles env before c pattern data).

Definition clientSend (c : Client) (pattern : string) (data : Envelope)
  : M State Payload :=
  settleWith (ClientSend c pattern data)
    (fun before => sendSettles env before c pattern data).

Definition clientClose (c : Client) : M State unit :=
  settleWith (ClientClose c) (fun before => closeSettles env before c).

(** [private async reconnectClient(queue, client)] *)
Definition reconnectClient (queue : string) (c : Client) : M State unit :=
  tryCatch
    (clientConnect c ;;
     setClients (JsMap.set queue (mkClientInfo c true)) ;;
     consoleLog "대기열에 다시 연결되었습니다.")
    (fun error => consoleLog "대기열에 다시 연결하지 못했습니다").

(** [private async createClient(queue)] *)
Definition createClient (queue : string) : M State Client :=
  cached <- gets clients ;;
  if JsMap.has queue cached then
    match JsMap.get queue cached with
    | Some info =>
        (if negb (connected info) then reconnectClient queue (client info)
         else ret tt) ;;
        ret (client info)
    | None => throw (TypeError "undefined is not an object")
    end
  else
    let options :=
      mkRmqOptions
        [match rabbitmqUrl env with
         | Some url => if decide (url = EmptyString) then "amqp://localhost:5672" else url
         | None => "amqp://localhost:5672"
         end]
        queue false 10 true in
    c <- factoryCreate options ;;
    setClients (JsMap.set queue (mkClientInfo c true)) ;;
    ret c.

(** [async emit(queue, pattern, payload)] *)
Definition emit (queue pattern : string) (payload : Payload) : M State unit :=
  tryCatch
    (c <- createClient queue ;;
     clientEmit c queue (mkEnvelope pattern payload))
    (fun error => consoleLog "메시지를 내보내는 중 오류가 발생했습니다" ;; throw error).

(** [async send(queue, pattern, payload)] *)
Definition send (queue pattern : string) (payload : Payload) : M State Payload :=
  tryCatch
    (c <- createClient queue ;;
     clientSend c queue (mkEnvelope pattern payload))
    (fun error => consoleLog "메시지를 보내는 중 오류가 발생했습니다" ;; throw error).

(** [async onApplicationShutdown()] *)
Definition onApplicationShutdown : M State unit :=
  cached <- gets clients ;;
  forEach (JsMap.entries cached) (fun entry =>
    tryCatch
      (clientClose (client entry.2) ;;
       consoleLog "대기열의 클라이언트가 닫혔습니다.")
      (fun error => consoleLog "클라이언트를 닫는 동안 오류가 발생했습니다") ;;
    setClients (JsMap.delete entry.1)) ;;
  consoleLog "모든 RabbitMQ 클라이언트가 종료되었습니다.".

(** *** Vocabulary for the statements *)

(** A request made to the service on some queue. *)
Inductive Request : Type :=
| Emit (pattern : string) (payload : Payload)
| Send (pattern : string) (payload : Payload).

(** The request is served; its own result is dropped, the state kept. *)
Definition serve (queue : string) (req : Request) (s : State) : State :=
  match req with
  | Emit pattern payload => (emit queue pattern payload s).2
  | Send pattern payload => (send queue pattern payload s).2
  end.

(** The service as constructed: [new Map()], nothing sent yet. *)
Definition newService : State := mkState JsMap.empty 0 [].

(** The data of a request. *)
Definition envelopeOf (req : Request) : Envelope :=
  match req with
  | Emit pattern payload | Send pattern payload => mkEnvelope pattern payload
  end.

(** Requests served one after the other, each on its queue. *)
Definition serveAll (requests : list (string * Request)) (s : State) : State :=
  foldl (fun s' qr => serve qr.1 qr.2 s') s requests.

(** The clients constructed for [queue] among [cs]. *)
Definition isCreation (queue' : string) (c : BrokerCall) : bool :=
  match c with
  | FactoryCreate options => bool_decide (queue options = queue')
  | _ => false
  end.

Definition creations (queue' : string) (cs : list BrokerCall) : nat :=
  length (filter (isCreation queue') cs).

(** The reconnect attempts on client [c] among [cs]. *)
Definition isConnect (c : Client) (call : BrokerCall) : bool :=
  match call with
  | ClientConnect c' => bool_decide (c' = c)
  | _ => false
  end.

Definition connects (c : Client) (cs : list BrokerCall) : nat :=
  length (filter (isConnect c) cs).

(** Every queue with a cached client had exactly one client constructed,
    every other queue none. *)
Definition OnePerQueue (s : State) : Prop :=
  forall q, creations q (calls s) = if JsMap.has q (clients s) then 1 else 0.

(** The message dispatched by a call: client, transport-level pattern and
    data. *)
Definition dispatched (c : BrokerCall) : option (Client * string * Envelope) :=
  match c with
  | ClientEmit cl pattern data | ClientSend cl pattern data => Some (cl, pattern, data)
  | _ => None
  end.

End Service.
End RabbitMQ.

(** ** The Playwright library, as far as the managers use it *)

Module Playwright.

(** [type BrowserOption = 'chromium' | 'firefox' | 'webkit'] *)
Inductive BrowserOption : Type := chromium | firefox | webkit.

Global Instance BrowserOption_eq_dec : EqDecision BrowserOption.
Proof. solve_decision. Defined.

(** The string a [BrowserOption] is, which is also what
    [browserType().name()] returns for the engine of that name. *)
Definition engineName (o : BrowserOption) : string :=
  match o with
  | chromium => "chromium"
  | firefox => "firefox"
  | webkit => "webkit"
  end.

(** The objects of the library.  A handle is the position of its object
    in the store, so that objects are never confused and a new object is
    different from all earlier ones. *)
Record BrowserObj : Type := mkBrowserObj {
  b_engine : BrowserOption;
  b_headless : bool;
  b_connected : bool;
  b_instanceId : option string       (* the [_instanceId] property *)
}.

Record ContextObj : Type := mkContextObj {
  c_browser : Browser;
  c_closed : bool
}.

Record PageObj : Type := mkPageObj {
  p_context : BrowserContext;
  p_closed : bool
}.

(** The calls made into the library. *)
Inductive Call : Type :=
| Launch (engine : BrowserOption) (headless : bool) (args : list string)
| BrowserTypeName (b : Browser)
| BrowserContexts (b : Browser)
| BrowserIsConnected (b : Browser)
| BrowserClose (b : Browser)
| NewContext (b : Browser) (viewportWidth viewportHeight : nat) (userAgent : string)
| AddInitScript (c : BrowserContext)
| ContextNewPage (c : BrowserContext)
| ContextClose (c : BrowserContext)
| PageRoute (p : Page) (url : string) (times : nat)
| PageContext (p : Page)
| PageIsClosed (p : Page)
| PageClose (p : Page)
| PageGoto (p : Page) (url : string) (timeout : N) (waitUntil : option string)
| PageEvaluate (p : Page) (selector : string)
    (* [page.evaluate(() => !!document.querySelector(selector))] *)
| PageFill (p : Page) (selector : string) (value : option string)
| PageClick (p : Page) (selector : string)
| KeyboardPress (p : Page) (key : string)
| PageWaitForLoadState (p : Page) (state : string).

(** What a call that did not throw returned. *)
Inductive Value : Type :=
| VUndefined
| VBool (b : bool)
| VNumber (n : nat)
| VString (s : string)
| VObject (handle : nat).

(** A call together with the way it settled. *)
Definition Event : Type := Call * Res Value.

Record World : Type := mkWorld {
  browsers : list BrowserObj;
  contexts : list ContextObj;
  pages : list PageObj;
  trace : list Event
}.

Definition newWorld : World := mkWorld [] [] [] [].

(** What the code cannot decide: whether a call into the library throws
    (and with which message), what the page shows, the clock and the
    configuration.  The first three may depend on everything that
    happened before. *)
Record Environment : Type := mkEnvironment {
  rejects : list Event -> Call -> option string;
  elementPresent : list Event -> Page -> string -> bool;
  now : list Event -> nat;
  config : string -> option string
}.

(** *** Reading the store *)

Definition contextClosed (w : World) (c : BrowserContext) : bool :=
  match contexts w !! c with
  | Some o => c_closed o
  | None => false
  end.

(** [page.isClosed()] *)
Definition pageClosed (w : World) (p : Page) : bool :=
  match pages w !! p with
  | Some o => p_closed o
  | None => false
  end.

(** [browser.isConnected()] *)
Definition browserConnected (w : World) (b : Browser) : bool :=
  match browsers w !! b with
  | Some o => b_connected o
  | None => false
  end.

(** [browser.browserType().name()] *)
Definition browserEngine (w : World) (b : Browser) : option BrowserOption :=
  b_engine <$> browsers w !! b.

(** [browser.contexts().length]: the contexts of [b] that are open. *)
Definition openContexts (w : World) (b : Browser) : nat :=
  length (filter (fun o => c_browser o = b /\ c_closed o = false) (contexts w)).

(** [page.context()] *)
Definition pageContext (w : World) (p : Page) : option BrowserContext :=
  p_context <$> pages w !! p.

(** The browsers that are running. *)
Definition liveBrowsers (w : World) : list Browser :=
  filter (fun b => browserConnected w b = true) (seq 0 (length (browsers w))).

(** *** Changing the store *)

Definition closePageObj (o : PageObj) : PageObj := mkPageObj (p_context o) true.

Definition closeContextObj (o : ContextObj) : ContextObj :=
  mkContextObj (c_browser o) true.

(** [page.close()] *)
Definition closePage (p : Page) (w : World) : World :=
  mkWorld (browsers w) (contexts w) (alter closePageObj p (pages w)) (trace w).

(** [context.close()] closes the context and its pages. *)
Definition closeContext (c : BrowserContext) (w : World) : World :=
  mkWorld (browsers w)
    (alter closeContextObj c (contexts w))
    ((fun o => if decide (p_context o = c) then closePageObj o else o) <$> pages w)
    (trace w).

(** [browser.close()] disconnects the browser and closes its contexts
    and their pages. *)
Definition closeBrowser (b : Browser) (w : World) : World :=
  let closing (c : BrowserContext) : bool :=
    match contexts w !! c with
    | Some o => bool_decide (c_browser o = b)
    | None => false
    end in
  mkWorld
    (alter (fun o => mkBrowserObj (b_engine o) (b_headless o) false (b_instanceId o))
       b (browsers w))
    ((fun o => if decide (c_browser o = b) then closeContextObj o else o)
       <$> contexts w)
    ((fun o => if closing (p_context o) then closePageObj o else o) <$> pages w)
    (trace w).

(** *** Calls *)

(** The state of a manager object [This] and of the library. *)
Record State (This : Type) : Type := mkState {
  this : This;
  world : World
}.
Arguments mkState {This}.
Arguments this {This}.
Arguments world {This}.

Section Calls.
Variable env : Environment.
Context {This : Type}.

Definition logEvent (ev : Event) (w : World) : World :=
  mkWorld (browsers w) (contexts w) (pages w) (trace w ++ [ev]).

(** A call into the library: it throws if the environment says so, and
    otherwise has its effect [run] on the store and returns. *)
Definition perform {A} (call : Call) (run : World -> A * World)
    (value : A -> Value) : M (State This) A :=
  fun s =>
    let w := world s in
    match rejects env (trace w) call with
    | Some msg =>
        (Throw (ExternalError msg),
         mkState (this s) (logEvent (call, Throw (ExternalError msg)) w))
    | None =>
        let '(a, w') := run w in
        (Ok a, mkState (this s) (logEvent (call, Ok (value a)) w'))
    end.

(** A call on an object that must exist ([undefined.f()] is a
    [TypeError]). *)
Definition dereference {A} (o : option A) : M (State This) A :=
  match o with
  | Some a => ret a
  | None => throw (TypeError "Cannot read properties of undefined")
  end.

(** The launch arguments used by the managers. *)
Definition launchArgs : list string :=
  ["--no-sandbox"; "--disable-setuid-sandbox"; "--disable-web-security";
   "--disable-features=IsolateOrigins,site-per-process"].

(** [browserType.launch({ headless, args, timeout: 0 })] *)
Definition launch (engine : BrowserOption) (headless : bool)
  : M (State This) Browser :=
  perform (Launch engine headless launchArgs)
    (fun w => (length (browsers w),
               mkWorld (browsers w ++ [mkBrowserObj engine headless true None])
                 (contexts w) (pages w) (trace w)))
    VObject.

(** [browser.browserType().name()] *)
Definition browserTypeName (b : Browser) : M (State This) string :=
  name <- perform (BrowserTypeName b)
            (fun w => (engineName <$> browserEngine w b, w))
            (fun name => match name with Some n => VString n | None => VUndefined end) ;;
  dereference name.

(** [browser.contexts().length] *)
Definition browserContextsLength (b : Browser) : M (State This) nat :=
  perform (BrowserContexts b) (fun w => (openContexts w b, w)) VNumber.

(** [browser.isConnected()] *)
Definition browserIsConnected (b : Browser) : M (State This) bool :=
  perform (BrowserIsConnected b) (fun w => (browserConnected w b, w)) VBool.

(** [browser.close()] *)
Definition browserClose (b : Browser) : M (State This) unit :=
  perform (BrowserClose b) (fun w => (tt, closeBrowser b w)) (fun _ => VUndefined).

(** [(browser as any)._instanceId = browserId] *)
Definition setInstanceId (b : Browser) (browserId : string) : M (State This) unit :=
  modify (fun s =>
    let w := world s in
    mkState (this s)
      (mkWorld
         (alter (fun o => mkBrowserObj (b_engine o) (b_headless o) (b_connected o)
                            (Some browserId)) b (browsers w))
         (contexts w) (pages w) (trace w))).

(** [Date.now()] *)
Definition dateNow : M (State This) nat :=
  gets (fun s => now env (trace (world s))).

(** [browser.newContext({ viewport: { width, height }, userAgent })] *)
Definition newContext (b : Browser) (width height : nat) (userAgent : string)
  : M (State This) BrowserContext :=
  perform (NewContext b width height userAgent)
    (fun w => (length (contexts w),
               mkWorld (browsers w) (contexts w ++ [mkContextObj b false])
                 (pages w) (trace w)))
    VObject.

(** [context.addInitScript(...)] with the script of the managers. *)
Definition addInitScript (c : BrowserContext) : M (State This) unit :=
  perform (AddInitScript c) (fun w => (tt, w)) (fun _ => VUndefined).

(** [context.newPage()] *)
Definition contextNewPage (c : BrowserContext) : M (State This) Page :=
  perform (ContextNewPage c)
    (fun w => (length (pages w),
               mkWorld (browsers w) (contexts w) (pages w ++ [mkPageObj c false])
                 (trace w)))
    VObject.

(** [context.close()] *)
Definition contextClose (c : BrowserContext) : M (State This) unit :=
  perform (ContextClose c) (fun w => (tt, closeContext c w)) (fun _ => VUndefined).

(** [page.route(url, route => route.continue(), { times })] *)
Definition pageRoute (p : Page) (url : string) (times : nat) : M (State This) unit :=
  perform (PageRoute p url times) (fun w => (tt, w)) (fun _ => VUndefined).

(** [page.context()] *)
Definition pageGetContext (p : Page) : M (State This) BrowserContext :=
  c <- perform (PageContext p) (fun w => (pageContext w p, w))
         (fun c => match c with Some h => VObject h | None => VUndefined end) ;;
  dereference c.

(** [page.isClosed()] *)
Definition pageIsClosed (p : Page) : M (State This) bool :=
  perform (PageIsClosed p) (fun w => (pageClosed w p, w)) VBool.

(** [page.close()] *)
Definition pageClose (p : Page) : M (State This) unit :=
  perform (PageClose p) (fun w => (tt, closePage p w)) (fun _ => VUndefined).

(** [page.goto(url, { timeout, waitUntil })] *)
Definition pageGoto (p : Page) (url : string) (timeout : N)
    (waitUntil : option string) : M (State This) unit :=
  perform (PageGoto p url timeout waitUntil) (fun w => (tt, w)) (fun _ => VUndefined).

(** [page.evaluate(() => !!document.querySelector(selector))] *)
Definition pageHasElement (p : Page) (selector : string) : M (State This) bool :=
  perform (PageEvaluate p selector)
    (fun w => (elementPresent env (trace w) p selector, w)) VBool.

(** [page.fill(selector, value)] *)
Definition pageFill (p : Page) (selector : string) (value : option string)
  : M (State This) unit :=
  perform (PageFill p selector value) (fun w => (tt, w)) (fun _ => VUndefined).

(** [page.click(selector)] *)
Definition pageClick (p : Page) (selector : string) : M (State This) unit :=
  perform (PageClick p selector) (fun w => (tt, w)) (fun _ => VUndefined).

(** [page.keyboard.press(key)] *)
Definition keyboardPress (p : Page) (key : string) : M (State This) unit :=
  perform (KeyboardPress p key) (fun w => (tt, w)) (fun _ => VUndefined).

(** [page.waitForLoadState(state)] *)
Definition pageWaitForLoadState (p : Page) (state : string) : M (State This) unit :=
  perform (PageWaitForLoadState p state) (fun w => (tt, w)) (fun _ => VUndefined).

(** [this.configService.get<string>(key)] *)
Definition configGet (key : string) : M (State This) (option string) :=
  ret (config env key).

(** Reading and assigning the fields of [this]. *)
Definition getThis {A} (f : This -> A) : M (State This) A :=
  gets (fun s => f (this s)).

Definition setThis (f : This -> This) : M (State This) unit :=
  modify (fun s => mkState (f (this s)) (world s)).

End Calls.

(** *** Constants of both managers *)

Definition viewportWidth : nat := 1366.
Definition viewportHeight : nat := 768.
Definition userAgent : string :=
  "Mozilla/5.0 (Windows NT 10.0; Win64; x64) AppleWebKit/537.36 (KHTML, like Gecko) Chrome/100.0.4896.60 Safari/537.36".
Definition onchLoginUrl : string := "https://www.onch3.co.kr/login/login_web.php".
Definition coupangLoginUrl : string :=
  "https://xauth.coupang.com/auth/realms/seller/protocol/openid-connect/auth?response_type=code&client_id=wing&redirect_uri=https%3A%2F%2Fwing.coupang.com%2Fsso%2Flogin?returnUrl%3D%252F&state=ec02db23-2738-48a2-b15e-81d22b32be64&login=true&scope=openid".
Definition coupangLoginForm : string := ".cp-loginpage__bg".

(** The selectors of the Onch login form; [doubleQuote] is the character
    that delimits the attribute values. *)
Definition doubleQuote : string := String (Ascii.ascii_of_nat 34) EmptyString.
Definition onchEmailField : string :=
  "input[placeholder=" +:+ doubleQuote +:+ "온채널 또는 통합계정 아이디" +:+ doubleQuote +:+ "]".
Definition onchPasswordField : string :=
  "input[placeholder=" +:+ doubleQuote +:+ "비밀번호 입력" +:+ doubleQuote +:+ "]".
Definition onchLoginButton : string :=
  "button[name=" +:+ doubleQuote +:+ "login" +:+ doubleQuote +:+ "]".

(** The object returned by [getBrowserInfo]. *)
Inductive BrowserInfo : Type :=
| NotInitialized
    (* [{ status: 'not_initialized' }] *)
| Initialized (browserType : string) (contexts : nat) (isConnected : bool)
    (contextIds pageIds : list string)
    (* [{ status: 'initialized', browserType, contexts, isConnected,
          contextIds, pageIds }] *)
| InfoError (message : string).
    (* [{ status: 'error', message }] *)

End Playwright.

(** ** Vocabulary for the statements about the managers *)

(** [m] changes the state only along [R] and throws only errors in [E]. *)
Definition keeps {S A} (R : S -> S -> Prop) (E : JsError -> Prop) (m : M S A) : Prop :=
  forall s, R s (m s).2 /\ forall e, (m s).1 = Throw e -> E e.


Module Footprint.
Import Playwright.

(** Errors that come out of the library, or out of a call on
    [undefined]. *)
Definition libraryError (e : JsError) : Prop :=
  match e with
  | ExternalError _ | TypeError _ => True
  | _ => False
  end.

(** The calls made when pages and contexts are released. *)
Definition teardownCall (c : Call) : bool :=
  match c with
  | PageClose _ | PageContext _ | ContextClose _ => true
  | _ => false
  end.

(** The calls that type or click into a page. *)
Definition inputCall (c : Call) : bool :=
  match c with
  | PageFill _ _ _ | PageClick _ _ | KeyboardPress _ _ => true
  | _ => false
  end.

(** The calls that prepare a browser, a context and a page, as opposed to
    those that navigate, inspect or drive the page. *)
Definition setupCall (c : Call) : bool :=
  match c with
  | PageGoto _ _ _ _ | PageEvaluate _ _ | PageFill _ _ _ | PageClick _ _
  | KeyboardPress _ _ | PageWaitForLoadState _ _ => false
  | _ => true
  end.

Definition anyCall (c : Call) : bool := true.

(** The calls made between two worlds, with their outcomes. *)
Definition callsBetween (w w' : World) : list Event :=
  drop (length (trace w)) (trace w').

(** The library went from [w] to [w'] through calls in [allowed] only;
    nothing that was closed is open again and no page has gone. *)
Record Evolves (allowed : Call -> bool) (w w' : World) : Prop := {
  ev_trace : exists d, trace w' = trace w ++ d /\
                       Forall (fun ev : Event => allowed ev.1 = true) d;
  ev_closed : forall p, pageClosed w p = true -> pageClosed w' p = true;
  ev_pages : length (pages w) <= length (pages w')
}.

(** The same for releases, which leave the browsers alone. *)
Record Teardown (w w' : World) : Prop := {
  td_evolves : Evolves teardownCall w w';
  td_browsers : browsers w' = browsers w
}.

(** A relation on manager states from one on the fields of [this] and one
    on worlds. *)
Definition lift {This} (F : This -> This -> Prop) (W : World -> World -> Prop)
    (s s' : State This) : Prop :=
  F (this s) (this s') /\ W (world s) (world s').

(** No constraint on the fields. *)
Definition anyThis {This} (t t' : This) : Prop := True.

(** [m'] has no more entries than [m]. *)
Definition submap {V} (m' m : JsMap.t V) : Prop :=
  forall k v, JsMap.get k m' = Some v -> JsMap.get k m = Some v.

(** What the effect of a call on the store may be: the trace is left to
    [perform], closed pages stay closed, no page disappears. *)
Definition Gentle (f : World -> World) : Prop :=
  forall w, trace (f w) = trace w /\
            (forall p, pageClosed w p = true -> pageClosed (f w) p = true) /\
            length (pages w) <= length (pages (f w)).

(** Sets of errors that contain the library's. *)
Class Covers (E : JsError -> Prop) : Prop :=
  covers : forall e, libraryError e -> E e.

End Footprint.

(** ** [class PlaywrightService] ([src/playwright.service.ts]) *)

Module PlaywrightService.
Import Playwright.

(** [interface PageInfo] *)
Record PageInfo : Type := mkPageInfo {
  page : Page;
  contextId : string
}.

(** The fields of the service object. *)
Record This : Type := mkThis {
  browser : option Browser;               (* [undefined] before the first launch *)
  browserType : option BrowserOption;
  isInitialized : bool;
  pagePool : JsMap.t PageInfo;
  contextPool : JsMap.t BrowserContext;
  shouldUseHeadless : bool;
  selectedBrowserOption : BrowserOption
}.

(** The object after its constructor. *)
Definition newThis : This :=
  mkThis None None false JsMap.empty JsMap.empty true chromium.

Definition newState : State This := mkState newThis newWorld.

Definition setBrowser (b : Browser) (t : This) : This :=
  mkThis (Some b) (browserType t) (isInitialized t) (pagePool t) (contextPool t)
    (shouldUseHeadless t) (selectedBrowserOption t).

Definition setBrowserType (o : BrowserOption) (t : This) : This :=
  mkThis (browser t) (Some o) (isInitialized t) (pagePool t) (contextPool t)
    (shouldUseHeadless t) (selectedBrowserOption t).

Definition setIsInitialized (v : bool) (t : This) : This :=
  mkThis (browser t) (browserType t) v (pagePool t) (contextPool t)
    (shouldUseHeadless t) (selectedBrowserOption t).

Definition setPagePool (f : JsMap.t PageInfo -> JsMap.t PageInfo) (t : This) : This :=
  mkThis (browser t) (browserType t) (isInitialized t) (f (pagePool t))
    (contextPool t) (shouldUseHeadless t) (selectedBrowserOption t).

Definition setContextPool (f : JsMap.t BrowserContext -> JsMap.t BrowserContext)
    (t : This) : This :=
  mkThis (browser t) (browserType t) (isInitialized t) (pagePool t)
    (f (contextPool t)) (shouldUseHeadless t) (selectedBrowserOption t).

Section Methods.
Variable env : Environment.

Local Abbreviation M' := (M (State This)).

(** [setConfig(headless = true, browserOption = 'chromium')] *)
Definition setConfig (headless : bool) (browserOption : BrowserOption) : M' unit :=
  setThis (fun t =>
    mkThis (browser t) (browserType t) (isInitialized t) (pagePool t)
      (contextPool t) headless browserOption) ;;
  consoleLog "브라우저 설정 저장".

(** [async releasePage(pageId)] *)
Definition releasePage (pageId : string) : M' unit :=
  pageInfo <- getThis (fun t => JsMap.get pageId (pagePool t)) ;;
  match pageInfo with
  | Some info =>
      tryCatch (pageClose env (page info))
        (fun err => consoleLog "Error closing page") ;;
      setThis (setPagePool (JsMap.delete pageId))
  | None => ret tt
  end.

(** [async releaseContext(contextId)].  The loop runs over the entries
    present when it starts: the only entry removed while it runs is the
    one being visited. *)
Definition releaseContext (contextId : string) : M' unit :=
  context <- getThis (fun t => JsMap.get contextId (contextPool t)) ;;
  match context with
  | Some context =>
      entries <- getThis (fun t => JsMap.entries (pagePool t)) ;;
      forEach entries (fun entry =>
        tryCatch
          (pageContext <- pageGetContext env (page entry.2) ;;
           if decide (pageContext = context) then releasePage entry.1 else ret tt)
          (fun error =>
             consoleLog "Error comparing browser contexts for page" ;;
             releasePage entry.1)) ;;
      tryCatch (contextClose env context)
        (fun err => consoleLog "Error closing context") ;;
      setThis (setContextPool (JsMap.delete contextId))
  | None => ret tt
  end.

(** [async closeAll()] *)
Definition closeAll : M' unit :=
  pageIds <- getThis (fun t => JsMap.keys (pagePool t)) ;;
  forEach pageIds releasePage ;;
  contextIds <- getThis (fun t => JsMap.keys (contextPool t)) ;;
  forEach contextIds releaseContext ;;
  b <- getThis browser ;;
  match b with
  | Some b =>
      browserClose env b ;;
      setThis (setIsInitialized false)
  | None => ret tt
  end.

(** [async initializeBrowser()].  The first block yields the browser to
    return at once, if any. *)
Definition initializeBrowser : M' Browser :=
  initialized <- getThis isInitialized ;;
  reused <-
    (if initialized then
       b <- getThis browser ;;
       b <- dereference b ;;
       currentBrowserName <- browserTypeName env b ;;
       selected <- getThis selectedBrowserOption ;;
       if decide (currentBrowserName <> engineName selected) then
         closeAll ;;
         setThis (setIsInitialized false) ;;
         ret None
       else
         consoleLog "이미 초기화된 브라우저 재사용" ;;
         ret (Some b)
     else ret None) ;;
  match reused with
  | Some b => ret b
  | None =>
      initialized' <- getThis isInitialized ;;
      (if negb initialized' then
         selected <- getThis selectedBrowserOption ;;
         setThis (setBrowserType
                    (match selected with
                     | firefox => firefox
                     | webkit => webkit
                     | chromium => chromium
                     end)) ;;
         engine <- getThis browserType ;;
         engine <- dereference engine ;;
         headless <- getThis shouldUseHeadless ;;
         b <- launch env engine headless ;;
         setThis (setBrowser b) ;;
         browserId <- dateNow env ;;
         consoleLog "브라우저 인스턴스 생성" ;;
         setInstanceId b (pretty browserId)
       else ret tt) ;;
      setThis (setIsInitialized true) ;;
      b <- getThis browser ;;
      dereference b
  end.

(** [async init(headless = true, browserOption = 'chromium')] *)
Definition init (headless : bool) (browserOption : BrowserOption) : M' Browser :=
  setConfig headless browserOption ;;
  initializeBrowser.

(** [async getOrCreateContext(contextId)] *)
Definition getOrCreateContext (contextId : string) : M' BrowserContext :=
  initialized <- getThis isInitialized ;;
  (if negb initialized then initializeBrowser ;; ret tt else ret tt) ;;
  pool <- getThis contextPool ;;
  (if negb (JsMap.has contextId pool) then
     b <- getThis browser ;;
     b <- dereference b ;;
     context <- newContext env b viewportWidth viewportHeight userAgent ;;
     addInitScript env context ;;
     setThis (setContextPool (JsMap.set contextId context))
   else ret tt) ;;
  context <- getThis (fun t => JsMap.get contextId (contextPool t)) ;;
  match context with
  | None => throw (ContextError contextId)
  | Some context => ret context
  end.

(** [async createPage(contextId, pageId)] *)
Definition createPage (contextId pageId : string) : M' Page :=
  context <- getOrCreateContext contextId ;;
  page <- contextNewPage env context ;;
  setThis (setPagePool (JsMap.set pageId (mkPageInfo page contextId))) ;;
  pageRoute env page "**/*" 1 ;;
  ret page.

(** [async getPage(pageId)]: [pageInfo?.page || null] *)
Definition getPage (pageId : string) : M' (option Page) :=
  pageInfo <- getThis (fun t => JsMap.get pageId (pagePool t)) ;;
  ret (page <$> pageInfo).

(** The beginning shared by the two login methods: the browser is
    (re)initialised if needed, then the page is looked up and reused if it
    is there and open, and created otherwise. *)
Definition ensureBrowser (browserOption : BrowserOption) : M' unit :=
  initialized <- getThis isInitialized ;;
  mismatch <-
    (if negb initialized then ret true
     else
       b <- getThis browser ;;
       b <- dereference b ;;
       name <- browserTypeName env b ;;
       ret (bool_decide (name <> engineName browserOption))) ;;
  if mismatch then init true browserOption ;; ret tt else ret tt.

Definition existingOrNewPage (contextId pageId : string) : M' Page :=
  existingPage <- getPage pageId ;;
  match existingPage with
  | Some existing =>
      closed <- pageIsClosed env existing ;;
      if negb closed then
        consoleLog "Using existing page with ID" ;;
        ret existing
      else
        consoleLog "Creating new page with ID" ;;
        createPage contextId pageId
  | None =>
      consoleLog "Creating new page with ID" ;;
      createPage contextId pageId
  end.

(** [async loginToOnchSite(store, contextId, pageId, browserOption = 'chromium')] *)
Definition loginToOnchSite (store contextId pageId : string)
    (browserOption : BrowserOption) : M' Page :=
  tryCatch
    (ensureBrowser browserOption ;;
     page <- existingOrNewPage contextId pageId ;;
     onchEmail <-
       (if decide (store = "linkedout") then configGet env "ON_CHANNEL_EMAIL"
        else configGet env "ON_CHANNEL_EMAIL") ;;
     onchPassword <-
       (if decide (store = "linkedout") then configGet env "ON_CHANNEL_PASSWORD"
        else configGet env "ON_CHANNEL_PASSWORD") ;;
     pageGoto env page onchLoginUrl 60000%N (Some "networkidle") ;;
     pageFill env page onchEmailField onchEmail ;;
     pageFill env page onchPasswordField onchPassword ;;
     pageClick env page onchLoginButton ;;
     pageWaitForLoadState env page "networkidle" ;;
     ret page)
    (fun error =>
       consoleLog "로그인 실패" ;;
       throw (OnchLoginError (message error))).

(** [async loginToCoupangSite(contextId, pageId, browserOption = 'chromium')] *)
Definition loginToCoupangSite (contextId pageId : string)
    (browserOption : BrowserOption) : M' Page :=
  tryCatch
    (ensureBrowser browserOption ;;
     page <- existingOrNewPage contextId pageId ;;
     pageGoto env page coupangLoginUrl 60000%N (Some "networkidle") ;;
     isLoginPage <- pageHasElement env page coupangLoginForm ;;
     if negb isLoginPage then
       consoleLog "이미 쿠팡에 로그인되어 있습니다." ;;
       ret page
     else
       consoleLog "쿠팡 로그인 진행 중..." ;;
       email <- configGet env "COUPANG_EMAIL" ;;
       pageFill env page "#username" email ;;
       password <- configGet env "COUPANG_PASSWORD" ;;
       pageFill env page "#password" password ;;
       keyboardPress env page "Enter" ;;
       pageWaitForLoadState env page "networkidle" ;;
       consoleLog "쿠팡 로그인 완료" ;;
       ret page)
    (fun error =>
       consoleLog "쿠팡 로그인 실패" ;;
       throw (CoupangLoginError (message error))).

(** [async getBrowserInfo()] *)
Definition getBrowserInfo : M' BrowserInfo :=
  initialized <- getThis isInitialized ;;
  if negb initialized then ret NotInitialized
  else
    tryCatch
      (b <- getThis browser ;;
       b <- dereference b ;;
       contexts <- browserContextsLength env b ;;
       browserType <- browserTypeName env b ;;
       connected <- browserIsConnected env b ;;
       let isConnected := negb connected in
       contextIds <- getThis (fun t => JsMap.keys (contextPool t)) ;;
       pageIds <- getThis (fun t => JsMap.keys (pagePool t)) ;;
       ret (Initialized browserType contexts isConnected contextIds pageIds))
      (fun error => ret (InfoError (message error))).

(** The loop of [createParallelPages], from [i] for [n] more rounds. *)
Fixpoint parallelPagesLoop (store cronId contextId : string) (i n : nat)
    (pages : list Page) : M' (list Page) :=
  match n with
  | 0 => ret pages
  | S n' =>
      let pageId := "page-" +:+ store +:+ "-" +:+ cronId +:+ "-" +:+ pretty (i + 1) in
      existingPage <- getPage pageId ;;
      pageInfo <- getThis (fun t => JsMap.get pageId (pagePool t)) ;;
      match existingPage, pageInfo with
      | Some existing, Some info =>
          if decide (PlaywrightService.contextId info = contextId) then
            parallelPagesLoop store cronId contextId (S i) n' (pages ++ [existing])
          else
            newPage <- createPage contextId pageId ;;
            parallelPagesLoop store cronId contextId (S i) n' (pages ++ [newPage])
      | _, _ =>
          newPage <- createPage contextId pageId ;;
          parallelPagesLoop store cronId contextId (S i) n' (pages ++ [newPage])
      end
  end.

(** [async createParallelPages(store, cronId, concurrentCount = 2)] *)
Definition createParallelPages (store cronId : string) (concurrentCount : nat)
  : M' (list Page) :=
  let contextId := "context-" +:+ store +:+ "-" +:+ cronId in
  parallelPagesLoop store cronId contextId 0 concurrentCount [].

End Methods.

(** *** Vocabulary for the statements *)

(** What releasing pages and contexts does to the fields: entries leave
    the pools, nothing else changes. *)
Record Released (t t' : This) : Prop := {
  rel_browser : browser t' = browser t;
  rel_browserType : browserType t' = browserType t;
  rel_isInitialized : isInitialized t' = isInitialized t;
  rel_headless : shouldUseHeadless t' = shouldUseHeadless t;
  rel_selected : selectedBrowserOption t' = selectedBrowserOption t;
  rel_pagePool : Footprint.submap (pagePool t') (pagePool t);
  rel_contextPool : Footprint.submap (contextPool t') (contextPool t)
}.

(** What (re)initialising the browser does to the pools: entries may
    leave, none is added or changed. *)
Definition PoolsShrink (t t' : This) : Prop :=
  Footprint.submap (pagePool t') (pagePool t) /\
  Footprint.submap (contextPool t') (contextPool t).

End PlaywrightService.

(** ** [class PlaywrightManager], the sibling implementation *)

Module PlaywrightManager.
Import Playwright.

(** The fields of the manager object; the page pool holds the pages
    themselves. *)
Record This : Type := mkThis {
  browser : option Browser;               (* [undefined] before the first launch *)
  browserType : option BrowserOption;
  isInitialized : bool;
  pagePool : JsMap.t Page;
  contextPool : JsMap.t BrowserContext;
  shouldUseHeadless : bool;
  selectedBrowserOption : BrowserOption
}.

(** The object after its constructor. *)
Definition newThis : This :=
  mkThis None None false JsMap.empty JsMap.empty true chromium.

Definition newState : State This := mkState newThis newWorld.

Definition setBrowser (b : Browser) (t : This) : This :=
  mkThis (Some b) (browserType t) (isInitialized t) (pagePool t) (contextPool t)
    (shouldUseHeadless t) (selectedBrowserOption t).

Definition setBrowserType (o : BrowserOption) (t : This) : This :=
  mkThis (browser t) (Some o) (isInitialized t) (pagePool t) (contextPool t)
    (shouldUseHeadless t) (selectedBrowserOption t).

Definition setIsInitialized (v : bool) (t : This) : This :=
  mkThis (browser t) (browserType t) v (pagePool t) (contextPool t)
    (shouldUseHeadless t) (selectedBrowserOption t).

Definition setPagePool (f : JsMap.t Page -> JsMap.t Page) (t : This) : This :=
  mkThis (browser t) (browserType t) (isInitialized t) (f (pagePool t))
    (contextPool t) (shouldUseHeadless t) (selectedBrowserOption t).

Definition setContextPool (f : JsMap.t BrowserContext -> JsMap.t BrowserContext)
    (t : This) : This :=
  mkThis (browser t) (browserType t) (isInitialized t) (pagePool t)
    (f (contextPool t)) (shouldUseHeadless t) (selectedBrowserOption t).

Section Methods.
Variable env : Environment.

Local Abbreviation M' := (M (State This)).

(** [setConfig(headless = true, browserOption = 'chromium')] *)
Definition setConfig (headless : bool) (browserOption : BrowserOption) : M' unit :=
  setThis (fun t =>
    mkThis (browser t) (browserType t) (isInitialized t) (pagePool t)
      (contextPool t) headless browserOption) ;;
  consoleLog "브라우저 설정 저장".

(** [async releasePage(pageId)] *)
Definition releasePage (pageId : string) : M' unit :=
  page <- getThis (fun t => JsMap.get pageId (pagePool t)) ;;
  match page with
  | Some page =>
      tryCatch (pageClose env page)
        (fun err => consoleLog "Error closing page") ;;
      setThis (setPagePool (JsMap.delete pageId))
  | None => ret tt
  end.

(** [async releaseContext(contextId)].  The loop runs over the entries
    present when it starts: the only entry removed while it runs is the
    one being visited. *)
Definition releaseContext (contextId : string) : M' unit :=
  context <- getThis (fun t => JsMap.get contextId (contextPool t)) ;;
  match context with
  | Some context =>
      entries <- getThis (fun t => JsMap.entries (pagePool t)) ;;
      forEach entries (fun entry =>
        tryCatch
          (pageContext <- pageGetContext env entry.2 ;;
           if decide (pageContext = context) then releasePage entry.1 else ret tt)
          (fun error =>
             consoleLog "Error comparing browser contexts for page" ;;
             releasePage entry.1)) ;;
      tryCatch (contextClose env context)
        (fun err => consoleLog "Error closing context") ;;
      setThis (setContextPool (JsMap.delete contextId))
  | None => ret tt
  end.

(** [async closeAll()] *)
Definition closeAll : M' unit :=
  pageIds <- getThis (fun t => JsMap.keys (pagePool t)) ;;
  forEach pageIds releasePage ;;
  contextIds <- getThis (fun t => JsMap.keys (contextPool t)) ;;
  forEach contextIds releaseContext ;;
  b <- getThis browser ;;
  match b with
  | Some b =>
      browserClose env b ;;
      setThis (setIsInitialized false)
  | None => ret tt
  end.

(** [async initializeBrowser()].  The first block yields the browser to
    return at once, if any. *)
Definition initializeBrowser : M' Browser :=
  initialized <- getThis isInitialized ;;
  reused <-
    (if initialized then
       b <- getThis browser ;;
       b <- dereference b ;;
       currentBrowserName <- browserTypeName env b ;;
       selected <- getThis selectedBrowserOption ;;
       if decide (currentBrowserName <> engineName selected) then
         closeAll ;;
         setThis (setIsInitialized false) ;;
         ret None
       else
         consoleLog "이미 초기화된 브라우저 재사용" ;;
         ret (Some b)
     else ret None) ;;
  match reused with
  | Some b => ret b
  | None =>
      initialized' <- getThis isInitialized ;;
      (if negb initialized' then
         selected <- getThis selectedBrowserOption ;;
         setThis (setBrowserType
                    (match selected with
                     | firefox => firefox
                     | webkit => webkit
                     | chromium => chromium
                     end)) ;;
         engine <- getThis browserType ;;
         engine <- dereference engine ;;
         headless <- getThis shouldUseHeadless ;;
         b <- launch env engine headless ;;
         setThis (setBrowser b) ;;
         browserId <- dateNow env ;;
         consoleLog "브라우저 인스턴스 생성" ;;
         setInstanceId b (pretty browserId)
       else ret tt) ;;
      setThis (setIsInitialized true) ;;
      b <- getThis browser ;;
      dereference b
  end.

(** [async init(headless = true, browserOption = 'chromium')] *)
Definition init (headless : bool) (browserOption : BrowserOption) : M' Browser :=
  setConfig headless browserOption ;;
  initializeBrowser.

(** [async getOrCreateContext(contextId)] *)
Definition getOrCreateContext (contextId : string) : M' BrowserContext :=
  initialized <- getThis isInitialized ;;
  (if negb initialized then initializeBrowser ;; ret tt else ret tt) ;;
  pool <- getThis contextPool ;;
  (if negb (JsMap.has contextId pool) then
     b <- getThis browser ;;
     b <- dereference b ;;
     context <- newContext env b viewportWidth viewportHeight userAgent ;;
     addInitScript env context ;;
     setThis (setContextPool (JsMap.set contextId context))
   else ret tt) ;;
  context <- getThis (fun t => JsMap.get contextId (contextPool t)) ;;
  match context with
  | None => throw (ContextError contextId)
  | Some context => ret context
  end.

(** [async createPage(contextId, pageId)] *)
Definition createPage (contextId pageId : string) : M' Page :=
  context <- getOrCreateContext contextId ;;
  page <- contextNewPage env context ;;
  setThis (setPagePool (JsMap.set pageId page)) ;;
  pageRoute env page "**/*" 1 ;;
  ret page.

(** [async getPage(pageId)]: [page || null] *)
Definition getPage (pageId : string) : M' (option Page) :=
  page <- getThis (fun t => JsMap.get pageId (pagePool t)) ;;
  ret page.

(** The beginning shared by the two login methods: the browser is
    (re)initialised if needed, then the page is looked up and reused if it
    is there and open, and created otherwise. *)
Definition ensureBrowser (browserOption : BrowserOption) : M' unit :=
  initialized <- getThis isInitialized ;;
  mismatch <-
    (if negb initialized then ret true
     else
       b <- getThis browser ;;
       b <- dereference b ;;
       name <- browserTypeName env b ;;
       ret (bool_decide (name <> engineName browserOption))) ;;
  if mismatch then init true browserOption ;; ret tt else ret tt.

Definition existingOrNewPage (contextId pageId : string) : M' Page :=
  existingPage <- getPage pageId ;;
  match existingPage with
  | Some existing =>
      closed <- pageIsClosed env existing ;;
      if negb closed then
        consoleLog "Using existing page with ID" ;;
        ret existing
      else
        consoleLog "Creating new page with ID" ;;
        createPage contextId pageId
  | None =>
      consoleLog "Creating new page with ID" ;;
      createPage contextId pageId
  end.

(** [async loginToOnchSite(store, contextId, pageId, browserOption = 'webkit')] *)
Definition loginToOnchSite (store contextId pageId : string)
    (browserOption : BrowserOption) : M' Page :=
  tryCatch
    (ensureBrowser browserOption ;;
     page <- existingOrNewPage contextId pageId ;;
     onchEmail <-
       (if decide (store = "linkedout") then configGet env "L_ON_CHANNEL_EMAIL"
        else configGet env "R_ON_CHANNEL_EMAIL") ;;
     onchPassword <-
       (if decide (store = "linkedout") then configGet env "L_ON_CHANNEL_PASSWORD"
        else configGet env "R_ON_CHANNEL_PASSWORD") ;;
     pageGoto env page onchLoginUrl 60000%N None ;;
     pageFill env page onchEmailField onchEmail ;;
     pageFill env page onchPasswordField onchPassword ;;
     pageClick env page onchLoginButton ;;
     ret page)
    (fun error =>
       consoleLog "로그인 실패" ;;
       throw (OnchLoginError (message error))).

(** [async loginToCoupangSite(contextId, pageId, browserOption = 'webkit')] *)
Definition loginToCoupangSite (contextId pageId : string)
    (browserOption : BrowserOption) : M' Page :=
  tryCatch
    (ensureBrowser browserOption ;;
     page <- existingOrNewPage contextId pageId ;;
     pageGoto env page coupangLoginUrl 60000%N (Some "networkidle") ;;
     isLoginPage <- pageHasElement env page coupangLoginForm ;;
     if negb isLoginPage then
       consoleLog "이미 쿠팡에 로그인되어 있습니다." ;;
       ret page
     else
       consoleLog "쿠팡 로그인 진행 중..." ;;
       email <- configGet env "L_COUPANG_EMAIL" ;;
       pageFill env page "#username" email ;;
       password <- configGet env "L_COUPANG_PASSWORD" ;;
       pageFill env page "#password" password ;;
       keyboardPress env page "Enter" ;;
       consoleLog "쿠팡 로그인 완료" ;;
       ret page)
    (fun error =>
       consoleLog "쿠팡 로그인 실패" ;;
       throw (CoupangLoginError (message error))).

(** [async getBrowserInfo()] *)
Definition getBrowserInfo : M' BrowserInfo :=
  initialized <- getThis isInitialized ;;
  if negb initialized then ret NotInitialized
  else
    tryCatch
      (b <- getThis browser ;;
       b <- dereference b ;;
       contexts <- browserContextsLength env b ;;
       browserType <- browserTypeName env b ;;
       connected <- browserIsConnected env b ;;
       let isConnected := negb connected in
       contextIds <- getThis (fun t => JsMap.keys (contextPool t)) ;;
       pageIds <- getThis (fun t => JsMap.keys (pagePool t)) ;;
       ret (Initialized browserType contexts isConnected contextIds pageIds))
      (fun error => ret (InfoError (message error))).

End Methods.

(** *** Vocabulary for the statements *)

(** What releasing pages and contexts does to the fields: entries leave
    the pools, nothing else changes. *)
Record Released (t t' : This) : Prop := {
  rel_browser : browser t' = browser t;
  rel_browserType : browserType t' = browserType t;
  rel_isInitialized : isInitialized t' = isInitialized t;
  rel_headless : shouldUseHeadless t' = shouldUseHeadless t;
  rel_selected : selectedBrowserOption t' = selectedBrowserOption t;
  rel_pagePool : Footprint.submap (pagePool t') (pagePool t);
  rel_contextPool : Footprint.submap (contextPool t') (contextPool t)
}.

(** What (re)initialising the browser does to the pools: entries may
    leave, none is added or changed. *)
Definition PoolsShrink (t t' : This) : Prop :=
  Footprint.submap (pagePool t') (pagePool t) /\
  Footprint.submap (contextPool t') (contextPool t).

End PlaywrightManager.

(** ** Scenarios *)

(** Concrete runs of the service, used where a statement is shown at an
    instance. *)
Module Scenario.
Import Playwright.

(** Every call succeeds, no selector matches, the clock stands still and
    every configuration key is set. *)
Definition calm : Environment :=
  mkEnvironment (fun _ _ => None) (fun _ _ _ => false) (fun _ => 1700)
    (fun key => Some key).

(** As [calm], on a page that shows the Coupang login form. *)
Definition loginForm : Environment :=
  mkEnvironment (fun _ _ => None) (fun _ _ _ => true) (fun _ => 1700)
    (fun key => Some key).



(** A service running chromium with a context and a page, on which
    [setConfig(true, 'firefox')] has been called. *)
Definition firefoxSelected : State PlaywrightService.This :=
  let created := PlaywrightService.createPage calm "ctx" "p" PlaywrightService.newState in
  (PlaywrightService.setConfig true firefox created.2).2.

(** The same with [setConfig(true, 'chromium')]. *)
Definition chromiumSelected : State PlaywrightService.This :=
  let created := PlaywrightService.createPage calm "ctx" "p" PlaywrightService.newState in
  (PlaywrightService.setConfig true chromium created.2).2.

End Scenario.

(** ** More vocabulary for the managers *)

Module Naming.

(** The page ids and the context id of [createParallelPages]:
    [`page-${store}-${cronId}-${i+1}`] and [`context-${store}-${cronId}`]. *)
Definition parallelPageId (store cronId : string) (i : nat) : string :=
  "page-" +:+ store +:+ "-" +:+ cronId +:+ "-" +:+ pretty (i + 1).

Definition parallelContextId (store cronId : string) : string :=
  "context-" +:+ store +:+ "-" +:+ cronId.

End Naming.

(** ** A finer footprint for releases *)

Module Quietly.
Import Playwright Footprint.

(** Releases close pages and contexts; they do not move a page to
    another context. *)
Definition Quiet (w w' : World) : Prop :=
  Teardown w w' /\ forall p, pageContext w' p = pageContext w p.

End Quietly.

(** ** A state of the manager for the examples *)

Module ManagerScenario.
Import Playwright.

(** [createPage('ctx', 'p')] on a new manager: chromium is running, and
    page [0] of context [0] is pooled. *)
Definition pooledPage : State PlaywrightManager.This :=
  (PlaywrightManager.createPage Scenario.calm "ctx" "p" PlaywrightManager.newState).2.

End ManagerScenario.

(** ** [navigateSafely] ([src/playwright.service.ts]) *)

(** The method uses the page it is given and none of the fields of the
    service.  Its calls into the library are kept in a trace of their
    own. *)
Module Navigation.

Section Navigation.
(** The type of [Response] objects. *)
Context {Response : Type}.

Inductive NavCall : Type :=
| EvaluateDelay (p : Page) (ms : N)
    (* [page.evaluate(() => new Promise(r => setTimeout(r, ms)))] *)
| Goto (p : Page) (url : string) (timeout : N) (waitUntil : string)
| WaitForLoadState (p : Page) (state : string) (timeout : N)
| WaitForReadyState (p : Page) (readyState : string) (timeout : N).
    (* [page.waitForFunction(() => document.readyState === readyState,
       { timeout })] *)

(** A call and the message of the error it threw, if it threw. *)
Definition NavEvent : Type := NavCall * option string.

(** What the method cannot decide: which calls throw, and what
    [page.goto] resolves with ([null] is [None]). *)
Record NavEnvironment : Type := mkNavEnvironment {
  navRejects : list NavEvent -> NavCall -> option string;
  gotoResponse : list NavEvent -> Page -> string -> option Response
}.

Variable env : NavEnvironment.

(** A call into the library that returns [value]. *)
Definition navPerform {A} (call : NavCall) (value : list NavEvent -> A)
  : M (list NavEvent) A :=
  fun trace =>
    match navRejects env trace call with
    | Some msg => (Throw (ExternalError msg), trace ++ [(call, Some msg)])
    | None => (Ok (value trace), trace ++ [(call, None)])
    end.

(** [async navigateSafely(page, url)] *)
Definition navigateSafely (page : Page) (url : string)
  : M (list NavEvent) (option Response) :=
  navPerform (EvaluateDelay page 1000%N) (fun _ => tt) ;;
  tryCatch
    (response <-
       navPerform (Goto page url 60000%N "domcontentloaded")
         (fun trace => gotoResponse env trace page url) ;;
     tryCatch (navPerform (WaitForLoadState page "networkidle" 10000%N) (fun _ => tt))
       (fun _ => consoleLog "네트워크 안정화 대기 건너뜀") ;;
     tryCatch (navPerform (WaitForReadyState page "complete" 10000%N) (fun _ => tt))
       (fun _ => consoleLog "렌더링 완료 대기 건너뜀") ;;
     ret response)
    (fun error =>
       consoleLog "네비게이션 오류" ;;
       throw error).

(** The four calls of [navigateSafely(page, url)]. *)
Definition delayCall (page : Page) : NavCall := EvaluateDelay page 1000%N.
Definition gotoCall (page : Page) (url : string) : NavCall :=
  Goto page url 60000%N "domcontentloaded".
Definition idleCall (page : Page) : NavCall :=
  WaitForLoadState page "networkidle" 10000%N.
Definition completeCall (page : Page) : NavCall :=
  WaitForReadyState page "complete" 10000%N.

End Navigation.
End Navigation.

(** ** More vocabulary for [processItemsInParallel] *)

Module ParallelLog.
Import Parallel.

(** The arguments of the [onProgress] calls among [log], in order. *)
Definition progressCalls {R} (log : list (CallbackCall R)) : list (nat * nat) :=
  omap (fun call =>
          match call with
          | ProgressCall completed total => Some (completed, total)
          | BatchCall _ _ => None
          end) log.

(** The reports [(1, total)], [(2, total)], ..., [(n, total)]. *)
Definition countingUp (total n : nat) : list (nat * nat) :=
  (fun completed => (completed, total)) <$> seq 1 n.

End ParallelLog.

(* ================================================================== *)
(** * Properties *)
(* ================================================================== *)

(** ** Chunking *)

(** *** Arithmetic of the chunk size *)

Lemma ceilDiv_upper n k : 0 < k -> n <= ceilDiv n k * k.
Proof.
  intros Hk. unfold ceilDiv.
  pose proof (Nat.div_mod_eq n k) as E.
  pose proof (Nat.mod_upper_bound n k ltac:(lia)) as U.
  destruct (Nat.eqb_spec (n mod k) 0); nia.
Qed.

Lemma ceilDiv_least n k c : 0 < k -> n <= c * k -> ceilDiv n k <= c.
Proof.
  intros Hk Hc. unfold ceilDiv.
  pose proof (Nat.div_mod_eq n k) as E.
  pose proof (Nat.mod_upper_bound n k ltac:(lia)) as U.
  destruct (Nat.eqb_spec (n mod k) 0); nia.
Qed.

Lemma ceilDiv_pos n k : 0 < k -> 0 < n -> 0 < ceilDiv n k.
Proof.
  intros Hk Hn. pose proof (ceilDiv_upper n k Hk).
  destruct (ceilDiv n k); lia.
Qed.

Lemma ceilDiv_0 k : ceilDiv 0 k = 0.
Proof. unfold ceilDiv. destruct k as [|k]; [done|]. by rewrite Nat.Div0.div_0_l, Nat.Div0.mod_0_l. Qed.

(** *** The loop *)

Section ChunkFacts.
Context {T : Type}.
Implicit Types (items : list T) (chunks : list (list T)).

Lemma slice_length items i j :
  length (slice items i j) = min (j - i) (length items - i).
Proof. unfold slice. by rewrite length_take, length_drop. Qed.

(** With a positive step, fuel [length items - i] is enough, and the
    loop yields the slices at [i], [i + c], [i + 2c], ... *)
Lemma chunkLoop_total fuel items c i :
  0 < c -> length items - i <= fuel ->
  exists chunks, chunkLoop fuel items c i = Some chunks.
Proof.
  intros Hc. revert i.
  induction fuel as [|fuel IH]; intros i Hf; simpl.
  - destruct (Nat.ltb_spec i (length items)); [lia|eauto].
  - destruct (Nat.ltb_spec i (length items)); [|eauto].
    destruct (IH (i + c)) as [chunks ->]; [lia|]. simpl. eauto.
Qed.

Lemma chunkLoop_concat fuel items c i chunks :
  chunkLoop fuel items c i = Some chunks ->
  concat chunks = drop i items.
Proof.
  revert i chunks.
  induction fuel as [|fuel IH]; intros i chunks; simpl.
  - destruct (Nat.ltb_spec i (length items)); [done|].
    intros [= <-]. simpl. by rewrite drop_ge.
  - destruct (Nat.ltb_spec i (length items)).
    + destruct (chunkLoop fuel items c (i + c)) as [rest|] eqn:E; [|done].
      simpl. intros [= <-]. simpl. rewrite (IH _ _ E).
      unfold slice. replace (i + c - i) with c by lia.
      rewrite <- (drop_drop items c i). apply take_drop.
    + intros [= <-]. simpl. by rewrite drop_ge.
Qed.

Lemma chunkLoop_lookup fuel items c i chunks j chunk :
  chunkLoop fuel items c i = Some chunks ->
  chunks !! j = Some chunk ->
  chunk = slice items (i + j * c) (i + j * c + c) /\ i + j * c < length items.
Proof.
  revert i chunks j.
  induction fuel as [|fuel IH]; intros i chunks j; simpl.
  - destruct (Nat.ltb_spec i (length items)); [done|]. by intros [= <-].
  - destruct (Nat.ltb_spec i (length items)); [|by intros [= <-]].
    destruct (chunkLoop fuel items c (i + c)) as [rest|] eqn:E; [|done].
    simpl. intros [= <-]. destruct j as [|j]; simpl.
    + intros [= <-]. by rewrite Nat.add_0_r.
    + intros Hj. destruct (IH _ _ _ E Hj) as [-> Hlt].
      split; [f_equal; lia|lia].
Qed.

Lemma chunkLoop_length fuel items c i chunks :
  0 < c ->
  chunkLoop fuel items c i = Some chunks ->
  length chunks = ceilDiv (length items - i) c.
Proof.
  intros Hc. revert i chunks.
  induction fuel as [|fuel IH]; intros i chunks; simpl.
  - destruct (Nat.ltb_spec i (length items)); [done|]. intros [= <-].
    replace (length items - i) with 0 by lia. by rewrite ceilDiv_0.
  - destruct (Nat.ltb_spec i (length items)).
    + destruct (chunkLoop fuel items c (i + c)) as [rest|] eqn:E; [|done].
      simpl. intros [= <-]. simpl. rewrite (IH _ _ E).
      apply Nat.le_antisymm.
      * pose proof (ceilDiv_upper (length items - i) c Hc) as U.
        destruct (ceilDiv (length items - i) c) as [|q] eqn:Eq; [lia|].
        apply le_n_S, ceilDiv_least; [done|]. lia.
      * apply ceilDiv_least; [done|].
        pose proof (ceilDiv_upper (length items - (i + c)) c Hc). lia.
    + intros [= <-]. replace (length items - i) with 0 by lia.
      by rewrite ceilDiv_0.
Qed.
End ChunkFacts.

Lemma splitIntoChunks_defined {T} (items : list T) (k : nat) :
  1 <= k ->
  exists chunks,
    splitIntoChunks items k = Some chunks /\
    concat chunks = items /\
    length chunks <= k.
Proof.
  intros Hk. destruct k as [|k']; [lia|]. set (k := S k') in *.
  unfold splitIntoChunks. fold k. set (c := ceilDiv (length items) k).
  destruct (decide (length items = 0)) as [Hn|Hn].
  { destruct items; [|done]. exists []. simpl. repeat split; try done; lia. }
  assert (Hc : 0 < c) by (apply ceilDiv_pos; lia).
  destruct (chunkLoop_total (length items) items c 0 Hc) as [chunks E]; [lia|].
  exists chunks. split; [done|].
  split; [by rewrite (chunkLoop_concat _ _ _ _ _ E), drop_0|].
  rewrite (chunkLoop_length _ _ _ _ _ Hc E), Nat.sub_0_r.
  apply ceilDiv_least; [done|].
  pose proof (ceilDiv_upper (length items) k ltac:(lia)). fold c in H. lia.
Qed.

(** C1.  For every list [items] and chunk count [k >= 1],
    [splitIntoChunks(items, k)] returns contiguous chunks of size
    [c = ceil(items.length / k)]: chunk number [j] is the slice
    [items[j*c .. j*c + c)], every chunk but the last has exactly [c]
    elements, the last one holds the non-empty remainder of at most [c]
    elements, and the chunks concatenated in order give back [items].
    There are at most [k] chunks.  In particular [[1..10]] in 3 chunks has
    chunk sizes [[4; 4; 2]], and the empty list has no chunks. *)
Theorem splitIntoChunks_spec :
  (forall (T : Type) (items : list T) (k : nat),
      1 <= k ->
      let c := ceilDiv (length items) k in
      (length items <= c * k /\ forall c', length items <= c' * k -> c <= c') /\
      exists chunks,
        splitIntoChunks items k = Some chunks /\
        concat chunks = items /\
        (forall j chunk, chunks !! j = Some chunk ->
           chunk = slice items (j * c) (j * c + c)) /\
        (forall j chunk, chunks !! j = Some chunk -> S j < length chunks ->
           length chunk = c) /\
        (forall chunk, last chunks = Some chunk ->
           0 < length chunk <= c /\
           length chunk = length items - (length chunks - 1) * c) /\
        length chunks <= k) /\
  fmap (M := list) length <$> splitIntoChunks (seq 1 10) 3 = Some [4; 4; 2] /\
  splitIntoChunks (@nil nat) 3 = Some [].
Proof.
  split; [|split; reflexivity].
  intros T items k Hk c.
  split; [split; [by apply ceilDiv_upper|intros; by apply ceilDiv_least]|].
  destruct k as [|k']; [lia|]. set (k := S k') in *.
  unfold splitIntoChunks. fold k. fold c.
  destruct (decide (length items = 0)) as [Hn|Hn].
  { destruct items; [|done]. exists []. simpl. repeat split; try done; lia. }
  assert (Hc : 0 < c) by (apply ceilDiv_pos; lia).
  destruct (chunkLoop_total (length items) items c 0 Hc) as [chunks E]; [lia|].
  exists chunks. split; [done|].
  pose proof (chunkLoop_length _ _ _ _ _ Hc E) as Hlen.
  rewrite Nat.sub_0_r in Hlen.
  assert (Hslice : forall j chunk, chunks !! j = Some chunk ->
            chunk = slice items (j * c) (j * c + c) /\ j * c < length items).
  { intros j chunk Hj. apply (chunkLoop_lookup _ _ _ _ _ _ _ E Hj). }
  assert (Hub : length items <= length chunks * c).
  { rewrite Hlen. by apply ceilDiv_upper. }
  split; [by rewrite (chunkLoop_concat _ _ _ _ _ E), drop_0|].
  split; [intros j chunk Hj; by apply Hslice|].
  split.
  { intros j chunk Hj Hlt.
    destruct (lookup_lt_is_Some_2 chunks (S j) Hlt) as [next Hnext].
    destruct (Hslice _ _ Hj) as [-> _]. destruct (Hslice _ _ Hnext) as [_ ?].
    rewrite slice_length. simpl in *. lia. }
  split.
  { intros chunk Hlast. rewrite last_lookup in Hlast.
    destruct (Hslice _ _ Hlast) as [-> Hlt]. rewrite slice_length.
    destruct (length chunks) as [|m]; simpl in *; [lia|].
    rewrite Nat.sub_0_r in *. lia. }
  rewrite Hlen. apply ceilDiv_least; [done|].
  pose proof (ceilDiv_upper (length items) k ltac:(lia)). fold c in H. lia.
Qed.

Lemma splitIntoChunks_spec_witness :
  exists chunks, splitIntoChunks [1; 2; 3; 4; 5] 2 = Some chunks /\
                 concat chunks = [1; 2; 3; 4; 5].
Proof.
  destruct (proj1 splitIntoChunks_spec nat [1; 2; 3; 4; 5] 2 ltac:(lia))
    as (_ & chunks & E & Hcat & _).
  exists chunks. split; [exact E|exact Hcat].
Defined.

(** ** Parallel processing *)

Module ParallelFacts.
Import Parallel.

Lemma count_ok_app {A} (xs ys : list (Res A)) :
  count_ok (xs ++ ys) = count_ok xs + count_ok ys.
Proof. unfold count_ok. by rewrite filter_app, length_app. Qed.

Lemma count_throw_app {A} (xs ys : list (Res A)) :
  count_throw (xs ++ ys) = count_throw xs + count_throw ys.
Proof. unfold count_throw. by rewrite filter_app, length_app. Qed.

Lemma oks_app {A} (xs ys : list (Res A)) : oks (xs ++ ys) = oks xs ++ oks ys.
Proof.
  induction xs as [|[a|e] xs IH]; simpl; [done| |done]. by rewrite IH.
Qed.

Lemma count_ok_cons_ok {A} (a : A) (xs : list (Res A)) :
  count_ok (Ok a :: xs) = S (count_ok xs).
Proof. unfold count_ok. by rewrite filter_cons_True. Qed.

Lemma count_ok_cons_throw {A} e (xs : list (Res A)) :
  count_ok (Throw e :: xs) = count_ok xs.
Proof. unfold count_ok. by rewrite filter_cons_False by (simpl; tauto). Qed.

Lemma count_throw_cons_ok {A} (a : A) (xs : list (Res A)) :
  count_throw (Ok a :: xs) = count_throw xs.
Proof. unfold count_throw. by rewrite filter_cons_False by (simpl; tauto). Qed.

Lemma count_throw_cons_throw {A} e (xs : list (Res A)) :
  count_throw (Throw e :: xs) = S (count_throw xs).
Proof. unfold count_throw. by rewrite filter_cons_True. Qed.


Lemma count_ok_throw {A} (xs : list (Res A)) :
  count_ok xs + count_throw xs = length xs.
Proof.
  induction xs as [|[a|e] xs IH]; cbn [length]; [done| |].
  - rewrite count_ok_cons_ok, count_throw_cons_ok. lia.
  - rewrite count_ok_cons_throw, count_throw_cons_throw. lia.
Qed.

Section Tasks.
Context {T R : Type}.
Variable pages : list Page.
Variable processItemFn : option Page -> T -> Res R.
Variable batchSize : nat.
Variable onBatchComplete : option (list R -> Res unit).
Variable onProgress : option (nat -> nat -> Res unit).
Variable totalItems : nat.
Hypothesis batch_returns : batchCallbackReturns onBatchComplete.
Hypothesis progress_returns : progressCallbackReturns onProgress.

Local Abbreviation Task := (Task T R).
Local Abbreviation Run := (Run (T := T) (R := R)).
Local Abbreviation resume := (resume processItemFn batchSize onBatchComplete onProgress totalItems).
Local Abbreviation step := (step processItemFn batchSize onBatchComplete onProgress totalItems).
Local Abbreviation enterLoop := (enterLoop onBatchComplete).
Local Abbreviation countSuccess := (countSuccess onBatchComplete onProgress totalItems).
Local Abbreviation catchBlock := (catchBlock onBatchComplete onProgress totalItems).
Local Abbreviation reportProgress := (reportProgress onProgress totalItems).
Local Abbreviation pendingOutcomes := (pendingOutcomes processItemFn).
Local Abbreviation futureBatches := (futureBatches processItemFn batchSize).
Local Abbreviation Stretch := (Stretch processItemFn batchSize onBatchComplete).
Local Abbreviation Sound := (Sound (T := T) (R := R)).

Lemma batchesOf_app c (l1 l2 : list (CallbackCall R)) :
  batchesOf c (l1 ++ l2) = batchesOf c l1 ++ batchesOf c l2.
Proof.
  induction l1 as [|[c' b|? ?] l1 IH]; simpl; [done| |done].
  destruct (decide (c' = c)); simpl; by rewrite ?IH.
Qed.

Lemma reportProgress_returns sh :
  exists log : list (CallbackCall R), reportProgress sh
              = (Ok tt, mkShared (successCount sh) (failCount sh) (allResults sh) log)
    /\ forall c, batchesOf c log = batchesOf c (callbackLog sh).
Proof.
  unfold reportProgress. remember onProgress as op eqn:E in |- *. destruct op as [h|]; symmetry in E.
  - rewrite (progress_returns h _ _ E). eexists. split; [done|].
    intros c. rewrite batchesOf_app. simpl. by rewrite app_nil_r.
  - exists (callbackLog sh). by destruct sh.
Qed.

Ltac ghost :=
  unfold pendingOutcomes, Parallel.pendingOutcomes, pendingItems, uncounted, stepsLeft, wellSettled,
    futureBatches, Parallel.futureBatches, setPc, setBatch; cbn;
  rewrite ?count_ok_cons_ok, ?count_ok_cons_throw, ?count_throw_cons_ok,
    ?count_throw_cons_throw, ?length_fmap, ?batchesOf_app, ?app_nil_r; cbn.

Ltac hide t' :=
  let fb := fresh "fb" in let po := fresh "po" in let u := fresh "u" in
  let sl := fresh "sl" in let ws := fresh "ws" in
  set (fb := futureBatches t') in *; clearbody fb;
  set (po := pendingOutcomes t') in *; clearbody po;
  set (u := uncounted t') in *; clearbody u;
  set (sl := stepsLeft t') in *; clearbody sl;
  set (ws := wellSettled t') in *; clearbody ws.

Lemma enterLoop_stretch rest t sh t' sh' :
  enterLoop rest t sh = (t', sh') ->
  Stretch (processItemFn (page t) <$> rest) 0 (localBatch t) rest t sh t' sh'.
Proof.
  unfold enterLoop. destruct rest as [|item rest].
  - remember onBatchComplete as ob eqn:Eg in |- *; destruct ob as [g|]; symmetry in Eg.
    + destruct (Nat.ltb_spec 0 (length (localBatch t))); intros [= <- <-];
        split; ghost; try done; try lia.
      * by apply (batch_returns g).
      * intros c Hc. ghost. rewrite decide_False by done. by rewrite app_nil_r.
      * intros _ _. rewrite decide_True by done.
        destruct (localBatch t); simpl in *; [lia|done].
      * intros _ _. destruct (localBatch t); simpl in *; [by rewrite app_nil_r|lia].
    + intros [= <- <-]. split; ghost; try done; try lia.
  - intros [= <- <-]. split; ghost; try done; try lia.
Qed.

Lemma catchBlock_stretch rest t sh t' sh' e :
  catchBlock rest t sh = (t', sh') ->
  Stretch (Throw e :: (processItemFn (page t) <$> rest)) 0
    (localBatch t) rest t sh t' sh'.
Proof.
  unfold catchBlock.
  destruct (reportProgress_returns
              (mkShared (successCount sh) (S (failCount sh)) (allResults sh)
                 (callbackLog sh))) as (log & -> & Hlog).
  intros E. destruct (enterLoop_stretch _ _ _ _ _ E) as [? ? ? ? ? ? ? Ho Hb].
  cbn in *. rewrite ?length_fmap in *.
  split; cbn; rewrite ?count_ok_cons_throw, ?count_throw_cons_throw, ?length_fmap;
    try done; try lia.
  - intros c Hc. by rewrite Ho, Hlog.
  - intros g Hg. by rewrite (Hb g Hg), Hlog.
Qed.

Lemma countSuccess_stretch rest t sh t' sh' :
  countSuccess rest t sh = (t', sh') ->
  Stretch (processItemFn (page t) <$> rest) 1 (localBatch t) rest t sh t' sh'.
Proof.
  unfold countSuccess.
  destruct (reportProgress_returns
              (mkShared (S (successCount sh)) (failCount sh) (allResults sh)
                 (callbackLog sh))) as (log & -> & Hlog).
  intros E. destruct (enterLoop_stretch _ _ _ _ _ E) as [? ? ? ? ? ? ? Ho Hb].
  cbn in *. rewrite ?length_fmap in *.
  split; cbn; rewrite ?length_fmap; try done; try lia.
  - intros c Hc. by rewrite Ho, Hlog.
  - intros g Hg. by rewrite (Hb g Hg), Hlog.
Qed.

(** Resuming a task conserves, for that task, the counts and results
    still to come, and uses up at least one of its remaining steps. *)
Lemma resume_stretch t sh t' sh' :
  wellSettled t ->
  resume t sh = (t', sh') ->
  page t' = page t /\ pageIndex t' = pageIndex t /\ wellSettled t' /\
  successCount sh' + uncounted t' + count_ok (pendingOutcomes t')
    = successCount sh + uncounted t + count_ok (pendingOutcomes t) /\
  failCount sh' + count_throw (pendingOutcomes t')
    = failCount sh + count_throw (pendingOutcomes t) /\
  allResults sh' ++ oks (pendingOutcomes t')
    = allResults sh ++ oks (pendingOutcomes t) /\
  (stepsLeft t' < stepsLeft t \/ stepsLeft t = 0 /\ stepsLeft t' = 0) /\
  (forall c, c <> pageIndex t ->
     batchesOf c (callbackLog sh') = batchesOf c (callbackLog sh)) /\
  (forall g, onBatchComplete = Some g ->
     batchesOf (pageIndex t) (callbackLog sh') ++ futureBatches t'
     = batchesOf (pageIndex t) (callbackLog sh) ++ futureBatches t).
Proof.
  intros Hs. unfold resume.
  destruct t as [pg idx batch p]. cbn [pc page localBatch pageIndex].
  destruct p as [item rest|settled rest|settled| |e].
  - destruct (processItemFn pg item) as [result|e] eqn:Ef.
    + unfold setBatch, setPc;
        cbn [localBatch page pageIndex pc successCount failCount allResults callbackLog].
      remember onBatchComplete as ob eqn:Eg in |- *; destruct ob as [g|]; symmetry in Eg.
      * destruct (Nat.leb_spec batchSize (length (batch ++ [result]))) as [Hb|Hb].
        -- intros [= <- <-]. ghost. rewrite Ef. ghost.
           repeat split; try done; try lia.
           ++ by apply (batch_returns g).
           ++ by rewrite <- app_assoc.
           ++ intros c Hc. ghost. rewrite decide_False by done. by rewrite app_nil_r.
           ++ intros _ _. rewrite decide_True by done.
              destruct (Nat.leb_spec batchSize (length (batch ++ [result])));
                [|lia]. by rewrite <- app_assoc.
        -- intros E. rewrite <- Eg in E.
           destruct (countSuccess_stretch _ _ _ _ _ E) as [? ? ? ? Hr ? ? Ho Hbt].
           cbn in *. rewrite ?length_fmap in *. hide t'. ghost. rewrite Ef. ghost.
           repeat split; try done; try lia.
           ++ rewrite Hr. by rewrite <- app_assoc.
           ++ intros _ _. rewrite (Hbt g Eg).
              destruct (Nat.leb_spec batchSize (length (batch ++ [result])));
                [lia|done].
      * intros E. rewrite <- Eg in E.
        destruct (countSuccess_stretch _ _ _ _ _ E) as [? ? ? ? Hr ? ? Ho Hbt].
        cbn in *. rewrite ?length_fmap in *. hide t'. ghost. rewrite Ef. ghost.
        repeat split; try done; try lia.
        rewrite Hr. by rewrite <- app_assoc.
    + intros E.
      destruct (catchBlock_stretch _ _ _ _ _ e E) as [? ? ? ? Hr ? ? Ho Hbt].
      cbn in *. rewrite ?length_fmap, ?count_ok_cons_throw, ?count_throw_cons_throw in *.
      hide t'. ghost. rewrite Ef. ghost.
      repeat split; try done; try lia.
  - unfold wellSettled in Hs; simpl in Hs. subst settled.
    intros E.
    destruct (countSuccess_stretch _ _ _ _ _ E) as [? ? ? ? Hr ? ? Ho Hbt].
    cbn in *. rewrite ?length_fmap in *. hide t'. ghost.
    repeat split; try done; lia.
  - unfold wellSettled in Hs; simpl in Hs. subst settled.
    intros [= <- <-]. ghost. repeat split; try done; lia.
  - intros [= <- <-]. ghost. repeat split; try done.
    right; done.
  - done.
Qed.

(** *** Runs *)

Lemma sum_list_with_insert {A} (g : A -> nat) (l : list A) c t t' :
  l !! c = Some t ->
  sum_list_with g (<[c := t']> l) + g t = sum_list_with g l + g t'.
Proof.
  intros Hc. rewrite <- (take_drop_middle l c t Hc) at 2.
  rewrite (insert_take_drop l c t') by (by eapply lookup_lt_Some).
  rewrite !sum_list_with_app. simpl. lia.
Qed.

Lemma concat_insert_perm {A B} (g : A -> list B) (l : list A) c t t' X X' :
  l !! c = Some t ->
  X' ++ g t' = X ++ g t ->
  X' ++ concat (g <$> <[c := t']> l) ≡ₚ X ++ concat (g <$> l).
Proof.
  intros Hc HX. rewrite <- (take_drop_middle l c t Hc) at 2.
  rewrite (insert_take_drop l c t') by (by eapply lookup_lt_Some).
  rewrite !fmap_app, !concat_app, !fmap_cons. cbn [concat].
  set (L1 := concat (g <$> take c l)). set (L2 := concat (g <$> drop (S c) l)).
  assert (Hmove : forall Y P, Y ++ L1 ++ P ++ L2 ≡ₚ (Y ++ P) ++ L1 ++ L2).
  { intros Y P. rewrite <- (app_assoc Y P). apply Permutation_app_head.
    rewrite !app_assoc. apply Permutation_app_tail, Permutation_app_comm. }
  by rewrite (Hmove X' (g t')), (Hmove X (g t)), HX.
Qed.

Lemma wellSettled_not_rejected (t : Task) : wellSettled t -> taskRejection t = None.
Proof. unfold wellSettled, taskRejection. by destruct (pc t). Qed.

Lemma step_outside r c : tasks r !! c = None -> step r c = r.
Proof. unfold step. by intros ->. Qed.

Lemma step_inside r c t :
  Sound r -> tasks r !! c = Some t ->
  exists t' sh',
    resume t (shared r) = (t', sh') /\ wellSettled t /\ pageIndex t = c /\
    step r c = mkRun sh' (<[c := t']> (tasks r)) None.
Proof.
  intros [Hset Hidx Hrej] Hc. unfold step. rewrite Hc, Hrej.
  destruct (resume t (shared r)) as [t' sh'] eqn:E.
  exists t', sh'.
  assert (Hs : wellSettled t) by (by eapply Forall_lookup_1).
  destruct (resume_stretch _ _ _ _ Hs E) as (_ & _ & Hs' & _).
  by rewrite (wellSettled_not_rejected _ Hs'), (Hidx _ _ Hc).
Qed.

Lemma step_sound r c : Sound r -> Sound (step r c).
Proof.
  intros HS. destruct (tasks r !! c) as [t|] eqn:Hc;
    [|by rewrite step_outside].
  destruct (step_inside r c t HS Hc) as (t' & sh' & E & Hs & Hi & ->).
  destruct (resume_stretch _ _ _ _ Hs E) as (_ & Hi' & Hs' & _).
  destruct HS as [Hset Hidx Hrej]. split; simpl; [| |done].
  - apply Forall_insert; done.
  - intros i ti. destruct (decide (i = c)) as [->|Hne].
    + rewrite list_lookup_insert_eq by (by eapply lookup_lt_Some).
      intros [= <-]. congruence.
    + rewrite list_lookup_insert_ne by done. apply Hidx.
Qed.

(** A step moves counts and results from "still to come" to "done". *)
Lemma step_conserves r c :
  Sound r ->
  successPotential processItemFn (step r c) = successPotential processItemFn r /\
  failPotential processItemFn (step r c) = failPotential processItemFn r /\
  resultPotential processItemFn (step r c) ≡ₚ resultPotential processItemFn r /\
  (forall g i, onBatchComplete = Some g ->
     batchPotential processItemFn batchSize i (step r c)
     = batchPotential processItemFn batchSize i r).
Proof.
  intros HS. destruct (tasks r !! c) as [t|] eqn:Hc;
    [|by rewrite step_outside].
  destruct (step_inside r c t HS Hc) as (t' & sh' & E & Hs & Hi & ->).
  destruct (resume_stretch _ _ _ _ Hs E)
    as (_ & _ & _ & Hsucc & Hfail & Hres & _ & Hother & Hbatch).
  unfold successPotential, failPotential, resultPotential, batchPotential.
  cbn [shared tasks].
  split; [|split; [|split]].
  - pose proof (sum_list_with_insert
      (fun t => uncounted t + count_ok (pendingOutcomes t)) _ _ _ t' Hc).
    cbv beta in *. lia.
  - pose proof (sum_list_with_insert
      (fun t => count_throw (pendingOutcomes t)) _ _ _ t' Hc).
    cbv beta in *. lia.
  - by apply concat_insert_perm with t.
  - intros g i Hg. destruct (decide (i = c)) as [->|Hne].
    + rewrite list_lookup_insert_eq by (by eapply lookup_lt_Some).
      rewrite Hc. simpl. rewrite <- Hi. by apply (Hbatch g).
    + rewrite list_lookup_insert_ne by done. f_equal. apply Hother. congruence.
Qed.

(** A step uses up one of the remaining steps of the resumed task and
    leaves the other tasks alone. *)
Lemma step_progress r c i t' :
  Sound r -> tasks (step r c) !! i = Some t' ->
  exists t, tasks r !! i = Some t /\
    (i <> c -> t' = t) /\
    (i = c -> stepsLeft t' < stepsLeft t \/ stepsLeft t' = 0).
Proof.
  intros HS. destruct (tasks r !! c) as [t|] eqn:Hc.
  - destruct (step_inside r c t HS Hc) as (t1 & sh' & E & Hs & Hi & ->).
    destruct (resume_stretch _ _ _ _ Hs E) as (_ & _ & _ & _ & _ & _ & Hst & _).
    cbn [tasks]. destruct (decide (i = c)) as [->|Hne].
    + rewrite list_lookup_insert_eq by (by eapply lookup_lt_Some).
      intros [= <-]. exists t. split; [done|]. split; [done|]. intros _. lia.
    + rewrite list_lookup_insert_ne by done. intros Hi'. exists t'.
      split; [done|]. split; [done|]. done.
  - rewrite step_outside by done. intros Hi'. exists t'.
    split; [done|]. split; [done|]. intros ->. congruence.
Qed.

Lemma run_sound schedule r : Sound r -> Sound (foldl step r schedule).
Proof.
  revert r. induction schedule as [|c schedule IH]; intros r HS; simpl; [done|].
  by apply IH, step_sound.
Qed.

Lemma run_conserves schedule r :
  Sound r ->
  successPotential processItemFn (foldl step r schedule)
    = successPotential processItemFn r /\
  failPotential processItemFn (foldl step r schedule)
    = failPotential processItemFn r /\
  resultPotential processItemFn (foldl step r schedule)
    ≡ₚ resultPotential processItemFn r /\
  (forall g i, onBatchComplete = Some g ->
     batchPotential processItemFn batchSize i (foldl step r schedule)
     = batchPotential processItemFn batchSize i r).
Proof.
  revert r. induction schedule as [|c schedule IH]; intros r HS; simpl; [done|].
  destruct (IH (step r c) (step_sound r c HS)) as (-> & -> & -> & Hb).
  destruct (step_conserves r c HS) as (-> & -> & -> & Hb').
  repeat split; try done. intros g i Hg. by rewrite (Hb g i Hg), (Hb' g i Hg).
Qed.

(** A schedule that resumes every task often enough runs them all to
    the end. *)
Lemma run_finishes schedule r :
  Sound r ->
  (forall c t, tasks r !! c = Some t -> stepsLeft t <= resumptions c schedule) ->
  Forall (fun t => stepsLeft t = 0) (tasks (foldl step r schedule)).
Proof.
  revert r. induction schedule as [|c schedule IH]; intros r HS Hen; simpl.
  - apply Forall_lookup_2. intros i t Hi. specialize (Hen i t Hi).
    unfold resumptions in Hen. simpl in Hen. lia.
  - apply IH; [by apply step_sound|]. intros i t' Hi.
    destruct (step_progress r c i t' HS Hi) as (t & Ht & Hne & Heq).
    specialize (Hen i t Ht). unfold resumptions in *.
    rewrite filter_cons in Hen. destruct (decide (c = i)) as [->|Hci].
    + simpl in Hen. specialize (Heq eq_refl). lia.
    + rewrite (Hne ltac:(congruence)). done.
Qed.

(** *** Starting the tasks *)

Lemma enterLoop_shared rest (t : Task) sh (t' : Task) sh' :
  enterLoop rest t sh = (t', sh') ->
  successCount sh' = successCount sh /\ failCount sh' = failCount sh /\
  allResults sh' = allResults sh /\
  uncounted t' = 0 /\ pendingItems t' = rest.
Proof.
  unfold enterLoop. destruct rest as [|item rest].
  - destruct onBatchComplete as [g|];
      [destruct (0 <? length (localBatch t))|]; by intros [= <- <-].
  - by intros [= <- <-].
Qed.

Lemma startTasks_spec chunks : forall i r,
  Sound r -> length (tasks r) = i ->
  let r' := startTasks pages onBatchComplete i chunks r in
  Sound r' /\
  successPotential processItemFn r'
    = successPotential processItemFn r
      + count_ok (chunkOutcomes pages processItemFn i chunks) /\
  failPotential processItemFn r'
    = failPotential processItemFn r
      + count_throw (chunkOutcomes pages processItemFn i chunks) /\
  resultPotential processItemFn r'
    ≡ₚ resultPotential processItemFn r
       ++ oks (chunkOutcomes pages processItemFn i chunks) /\
  (forall c t, tasks r' !! c = Some t ->
     tasks r !! c = Some t \/
     exists chunk, i <= c /\ chunks !! (c - i) = Some chunk /\
                   stepsLeft t <= 2 * length chunk + 1) /\
  (forall g c, onBatchComplete = Some g ->
     batchPotential processItemFn batchSize c r'
     = batchPotential processItemFn batchSize c r
       ++ (if decide (i <= c) then
             match chunks !! (c - i) with
             | Some chunk => flushes batchSize [] (oks (processItemFn (pages !! c) <$> chunk))
             | None => []
             end
           else [])).
Proof.
  induction chunks as [|chunk chunks IH]; intros i r HS Hlen; cbn zeta.
  - simpl. rewrite !Nat.add_0_r, !app_nil_r.
    do 4 (split; [done|]). split; [by left|].
    intros g c _. destruct (decide (i <= c)); by rewrite ?lookup_nil, app_nil_r.
  - cbn [startTasks chunkOutcomes].
    set (t0 := mkTask (pages !! i) i [] Finished).
    destruct (enterLoop chunk t0 (shared r)) as [t sh] eqn:E.
    destruct (enterLoop_stretch _ _ _ _ _ E) as [Hp Hi _ _ _ Hs Hst Ho Hb].
    destruct (enterLoop_shared _ _ _ _ _ E) as (Hsc & Hfc & Har & Hu & Hpi).
    cbn [page pageIndex localBatch t0] in *.
    destruct HS as [Hset Hidx Hrej].
    set (r1 := mkRun sh (tasks r ++ [t])
                 (match rejection r with Some e => Some e | None => taskRejection t end)).
    assert (HS1 : Sound r1).
    { split; simpl.
      - apply Forall_app. split; [done|]. by apply Forall_singleton.
      - intros c tc Hc. apply lookup_app_Some in Hc as [Hc|[Hge Hc]]; [by eapply Hidx|].
        apply list_lookup_singleton_Some in Hc as [Hc <-]. lia.
      - rewrite Hrej. by apply wellSettled_not_rejected. }
    assert (Hpo : pendingOutcomes t = processItemFn (pages !! i) <$> chunk).
    { unfold pendingOutcomes, Parallel.pendingOutcomes. by rewrite Hpi, Hp. }
    destruct (IH (S i) r1 HS1) as (HS' & -> & -> & Hres & Hsteps & Hbatch).
    { simpl. rewrite length_app. simpl. lia. }
    split; [done|].
    unfold successPotential, failPotential, resultPotential in *. cbn [r1 shared tasks] in *.
    rewrite !sum_list_with_app, ?count_ok_app, ?count_throw_app. simpl.
    rewrite Hu, Hpo, Hsc, Hfc.
    split; [lia|]. split; [lia|]. split; [|split].
    + rewrite Hres, Har, fmap_app, concat_app, oks_app. simpl.
      rewrite Hpo, app_nil_r. by rewrite <- !app_assoc.
    + intros c tc Hc. destruct (Hsteps c tc Hc) as [Hc'|(ch & Hle & Hch & Hb')].
      * apply lookup_app_Some in Hc' as [Hc'|[Hge Hc']]; [by left|].
        apply list_lookup_singleton_Some in Hc' as [Hc' <-].
        right. exists chunk. replace (c - i) with 0 by lia.
        split; [lia|]. split; [done|]. done.
      * right. exists ch. split; [lia|]. split; [|done].
        replace (c - i) with (S (c - S i)) by lia. done.
    + intros g c Hg. rewrite (Hbatch g c Hg).
      unfold batchPotential. cbn [r1 shared tasks].
      destruct (decide (c = i)) as [->|Hne].
      * rewrite lookup_app_r by lia. rewrite Hlen, Nat.sub_diag. simpl.
        rewrite (lookup_ge_None_2 (tasks r)) by lia. simpl.
        rewrite decide_False by lia. rewrite decide_True by lia.
        rewrite !app_nil_r. specialize (Hb g Hg). simpl in Hb. done.
      * rewrite (Ho c) by done. destruct (decide (S i <= c)) as [Hle|Hgt].
        -- rewrite decide_True by lia.
           rewrite lookup_app_r by lia. rewrite Hlen.
           replace (c - i) with (S (c - S i)) by lia. simpl.
           rewrite (lookup_ge_None_2 (tasks r)) by lia. done.
        -- rewrite decide_False by lia. rewrite lookup_app_l by lia. done.
Qed.

(** *** Finished runs *)

Lemma finished_pc (t : Task) : wellSettled t -> stepsLeft t = 0 -> pc t = Finished.
Proof. unfold wellSettled, stepsLeft. destruct (pc t); try done; lia. Qed.

Lemma finished_run r :
  Sound r -> Forall (fun t => stepsLeft t = 0) (tasks r) ->
  settle r = Some (Ok (mkSummary (successCount (shared r)) (failCount (shared r))
                         (allResults (shared r)))) /\
  successPotential processItemFn r = successCount (shared r) /\
  failPotential processItemFn r = failCount (shared r) /\
  resultPotential processItemFn r = allResults (shared r) /\
  forall c, batchPotential processItemFn batchSize c r
            = batchesOf c (callbackLog (shared r)).
Proof.
  intros [Hset _ Hrej] Hfin.
  assert (Hpc : Forall (fun t => pc t = Finished) (tasks r)).
  { apply Forall_lookup_2. intros i t Hi.
    apply finished_pc;
      [exact (Forall_lookup_1 _ _ _ _ Hset Hi)|exact (Forall_lookup_1 _ _ _ _ Hfin Hi)]. }
  clear Hset Hfin. unfold settle, successPotential, failPotential,
    resultPotential, batchPotential. rewrite Hrej.
  assert (Hall : forallb isFinished (tasks r) = true
          /\ sum_list_with (fun t => uncounted t + count_ok (pendingOutcomes t)) (tasks r) = 0
          /\ sum_list_with (fun t => count_throw (pendingOutcomes t)) (tasks r) = 0
          /\ concat ((fun t => oks (pendingOutcomes t)) <$> tasks r) = []).
  { induction Hpc as [|t ts Ht _ (IH1 & IH2 & IH3 & IH4)]; [done|].
    cbn [forallb sum_list_with fmap list_fmap concat].
    rewrite IH1, IH2, IH3.
    change (list_fmap _ _ ?f ts) with (f <$> ts). rewrite IH4.
    unfold isFinished, uncounted, pendingOutcomes, Parallel.pendingOutcomes,
      pendingItems. by rewrite Ht. }
  destruct Hall as (-> & -> & -> & ->). rewrite !Nat.add_0_r, app_nil_r.
  repeat split; try done.
  intros c. destruct (tasks r !! c) as [t|] eqn:Hc; simpl; [|by rewrite app_nil_r].
  pose proof (Forall_lookup_1 _ _ _ _ Hpc Hc) as Ht. simpl in Ht.
  unfold futureBatches, Parallel.futureBatches. by rewrite Ht, app_nil_r.
Qed.

End Tasks.

(** *** Batches *)


Lemma chunkOutcomes_length {T R} pages (f : option Page -> T -> Res R) i chunks :
  length (chunkOutcomes pages f i chunks) = length (concat chunks).
Proof.
  revert i. induction chunks as [|chunk chunks IH]; intros i; simpl; [done|].
  by rewrite !length_app, length_fmap, IH.
Qed.

(** What a call does with callbacks that return: it never rejects, and
    once every task has been resumed to its end it resolves with the
    counts, results and batches of the items' outcomes. *)
Lemma parallelRun_spec {T R} (pages : list Page) (items : list T)
    (processItemFn : option Page -> T -> Res R) (batchSize : nat)
    (onBatchComplete : option (list R -> Res unit))
    (onProgress : option (nat -> nat -> Res unit)) chunks schedule :
  batchCallbackReturns onBatchComplete ->
  progressCallbackReturns onProgress ->
  splitIntoChunks items (length pages) = Some chunks ->
  exists r,
    parallelRun pages items processItemFn batchSize onBatchComplete onProgress
      schedule = Some r /\
    rejection r = None /\
    (resumesAll chunks schedule ->
     let outcomes := chunkOutcomes pages processItemFn 0 chunks in
     settle r = Some (Ok (mkSummary (count_ok outcomes) (count_throw outcomes)
                            (allResults (shared r)))) /\
     allResults (shared r) ≡ₚ oks outcomes /\
     forall g c, onBatchComplete = Some g ->
       batchesOf c (callbackLog (shared r))
       = match chunks !! c with
         | Some chunk =>
             flushes batchSize [] (oks (processItemFn (pages !! c) <$> chunk))
         | None => []
         end).
Proof.
  intros HB HP Hchunks. unfold parallelRun. rewrite Hchunks. cbn [mbind option_bind].
  set (r0 := mkRun (mkShared 0 0 [] []) [] None).
  assert (HS0 : Sound (T := T) (R := R) r0) by (split; simpl; by try constructor).
  destruct (startTasks_spec pages processItemFn batchSize onBatchComplete HB
              chunks 0 r0 HS0 eq_refl)
    as (HS1 & Hs1 & Hf1 & Hr1 & Hst1 & Hb1).
  set (r1 := startTasks pages onBatchComplete 0 chunks r0) in *.
  pose proof (run_sound processItemFn batchSize onBatchComplete onProgress
                (length items) HB HP schedule r1 HS1) as HS2.
  destruct (run_conserves processItemFn batchSize onBatchComplete onProgress
              (length items) HB HP schedule r1 HS1) as (Hs2 & Hf2 & Hr2 & Hb2).
  eexists. split; [done|]. split; [by destruct HS2|].
  intros Hall. cbn zeta.
  assert (Hfin : Forall (fun t => stepsLeft t = 0)
            (tasks (foldl (step processItemFn batchSize onBatchComplete onProgress
                             (length items)) r1 schedule))).
  { apply run_finishes; [done..|]. intros c t Hc.
    destruct (Hst1 c t Hc) as [Hc0|(chunk & _ & Hch & Hle)]; [done|].
    rewrite Nat.sub_0_r in Hch. specialize (Hall c chunk Hch). lia. }
  destruct (finished_run processItemFn batchSize _ HS2 Hfin)
    as (Hsettle & Hs3 & Hf3 & Hr3 & Hb3).
  rewrite Hs3 in Hs2. rewrite Hf3 in Hf2. rewrite Hr3 in Hr2.
  rewrite Hsettle, Hs2, Hf2, Hs1, Hf1. split; [done|]. split.
  - by rewrite Hr2, Hr1.
  - intros g c Hg. rewrite <- Hb3, (Hb2 g c Hg), (Hb1 g c Hg).
    rewrite decide_True by lia. by rewrite Nat.sub_0_r.
Qed.






End ParallelFacts.

(** ** [Map] facts *)

Module JsMapFacts.
Import JsMap.

Section Facts.
Context {V : Type}.
Implicit Types (m : JsMap.t V) (k : string) (v : V).

Lemma has_get k m : has k m = true <-> is_Some (get k m).
Proof.
  unfold has. destruct (get k m); split; done.
Qed.

Lemma has_false k m : has k m = false <-> get k m = None.
Proof. unfold has. by destruct (get k m). Qed.

Lemma get_set_eq k v m : get k (set k v m) = Some v.
Proof.
  induction m as [|[k' v'] m IH]; simpl.
  - by rewrite decide_True.
  - destruct (decide (k' = k)); simpl.
    + by rewrite decide_True.
    + by rewrite decide_False.
Qed.

Lemma get_set_ne k k' v m : k <> k' -> get k' (set k v m) = get k' m.
Proof.
  intros Hne. induction m as [|[k0 v0] m IH]; simpl.
  - by rewrite decide_False.
  - destruct (decide (k0 = k)) as [->|]; simpl.
    + by rewrite !decide_False.
    + by rewrite IH.
Qed.

Lemma get_delete_eq k m : get k (delete k m) = None.
Proof.
  induction m as [|[k' v'] m IH]; simpl; [done|].
  destruct (decide (k' = k)); simpl; [done|]. by rewrite decide_False.
Qed.

Lemma get_delete_ne k k' m : k <> k' -> get k' (delete k m) = get k' m.
Proof.
  intros Hne. induction m as [|[k0 v0] m IH]; simpl; [done|].
  destruct (decide (k0 = k)) as [->|]; simpl.
  - by rewrite decide_False.
  - by rewrite IH.
Qed.

Lemma has_set_eq k v m : has k (set k v m) = true.
Proof. unfold has. by rewrite get_set_eq. Qed.

Lemma has_set_ne k k' v m : k <> k' -> has k' (set k v m) = has k' m.
Proof. intros. unfold has. by rewrite get_set_ne. Qed.

Lemma get_keys k m : is_Some (get k m) <-> k ∈ keys m.
Proof.
  unfold keys. induction m as [|[k' v'] m IH]; simpl.
  - split; [by intros [? [=]]|by intros ?%elem_of_nil].
  - rewrite elem_of_cons. destruct (decide (k' = k)) as [->|Hne].
    + split; [by left|by eexists].
    + rewrite IH. split; [by right|]. intros [?|?]; [congruence|done].
Qed.

Lemma keys_delete k k' m : k' ∈ keys (delete k m) <-> k' <> k /\ k' ∈ keys m.
Proof.
  rewrite <- !get_keys. destruct (decide (k' = k)) as [->|Hne].
  - rewrite get_delete_eq. split; [by intros [? [=]]|by intros [? _]].
  - rewrite get_delete_ne by done. tauto.
Qed.

End Facts.
End JsMapFacts.

(** ** The messaging service *)

Module RabbitMQFacts.
Import RabbitMQ JsMapFacts.

Section Facts.
Context {Payload : Type}.
Variable env : Environment (Payload := Payload).

Local Abbreviation State := (State (Payload := Payload)).
Local Abbreviation createClient := (createClient env).
Local Abbreviation emit := (emit env).
Local Abbreviation send := (send env).
Local Abbreviation serve := (serve env).

(** The options [createClient] builds for a queue. *)
Local Abbreviation optionsFor q :=
  (mkRmqOptions
     [match rabbitmqUrl env with
      | Some url => if decide (url = EmptyString) then "amqp://localhost:5672" else url
      | None => "amqp://localhost:5672"
      end] q false 10 true).

Lemma createClient_new (s : State) q :
  JsMap.get q (clients s) = None ->
  createClient q s
  = (Ok (created s),
     mkState (JsMap.set q (mkClientInfo (created s) true) (clients s))
       (S (created s)) (calls s ++ [FactoryCreate (optionsFor q)])).
Proof.
  intros Hq. unfold createClient, RabbitMQ.createClient, bind, gets. simpl.
  by rewrite (proj2 (has_false _ _) Hq).
Qed.

Lemma createClient_connected (s : State) q c :
  JsMap.get q (clients s) = Some (mkClientInfo c true) ->
  createClient q s = (Ok c, s).
Proof.
  intros Hq. unfold createClient, RabbitMQ.createClient, bind, gets. simpl.
  unfold JsMap.has. by rewrite Hq.
Qed.

Lemma createClient_disconnected (s : State) q c :
  JsMap.get q (clients s) = Some (mkClientInfo c false) ->
  createClient q s
  = (Ok c,
     mkState
       (if is_ok (connectSettles env (calls s) c)
        then JsMap.set q (mkClientInfo c true) (clients s) else clients s)
       (created s) (calls s ++ [ClientConnect c])).
Proof.
  intros Hq. unfold createClient, RabbitMQ.createClient, bind, gets. simpl.
  unfold JsMap.has. rewrite Hq. simpl.
  unfold reconnectClient, tryCatch, clientConnect, settleWith, bind, gets,
    record, modify. simpl.
  by destruct (connectSettles env (calls s) c).
Qed.

(** The three ways [createClient] can go. *)
Lemma createClient_cases (s : State) q :
  exists c s',
    createClient q s = (Ok c, s') /\
    JsMap.get q (clients s') = Some (mkClientInfo c
      (match JsMap.get q (clients s) with
       | Some info => connected info || is_ok (connectSettles env (calls s) c)
       | None => true
       end)) /\
    (forall q', q' <> q -> JsMap.get q' (clients s') = JsMap.get q' (clients s)) /\
    calls s' = calls s ++
      match JsMap.get q (clients s) with
      | None => [FactoryCreate (optionsFor q)]
      | Some info => if connected info then [] else [ClientConnect c]
      end /\
    match JsMap.get q (clients s) with
    | None => True
    | Some info => client info = c
    end.
Proof.
  destruct (JsMap.get q (clients s)) as [[c [|]]|] eqn:Hq.
  - exists c, s. rewrite (createClient_connected _ _ _ Hq). simpl.
    by rewrite app_nil_r.
  - eexists c, _. rewrite (createClient_disconnected _ _ _ Hq). simpl.
    split; [done|]. destruct (connectSettles env (calls s) c); simpl.
    + rewrite get_set_eq. split; [done|]. split; [|done].
      intros q' Hne. by rewrite get_set_ne.
    + done.
  - eexists _, _. rewrite (createClient_new _ _ Hq).
    split; [reflexivity|]. cbn [clients calls created].
    rewrite get_set_eq. split; [done|]. split; [|done].
    intros q' Hne. by rewrite get_set_ne.
Qed.

(** A request, seen from the broker: [createClient], then one dispatch
    through the client it returned, under the queue name. *)
Lemma serve_calls (s : State) q req :
  exists c s1 d,
    createClient q s = (Ok c, s1) /\
    clients (serve q req s) = clients s1 /\
    created (serve q req s) = created s1 /\
    calls (serve q req s) = calls s1 ++ [d] /\
    d = match req with
        | Emit pattern payload => ClientEmit c q (mkEnvelope pattern payload)
        | Send pattern payload => ClientSend c q (mkEnvelope pattern payload)
        end.
Proof.
  destruct (createClient_cases s q) as (c & s1 & E & _).
  exists c, s1. destruct req as [pattern payload|pattern payload]; eexists;
    (split; [exact E|]); unfold serve, RabbitMQ.serve.
  - unfold emit, RabbitMQ.emit, tryCatch, bind. fold createClient. rewrite E.
    unfold clientEmit, settleWith, bind, gets, record, modify. simpl.
    by destruct (emitSettles env (calls s1) c q _).
  - unfold send, RabbitMQ.send, tryCatch, bind. fold createClient. rewrite E.
    unfold clientSend, settleWith, bind, gets, record, modify. simpl.
    by destruct (sendSettles env (calls s1) c q _).
Qed.

Lemma creations_snoc q (cs : list (BrokerCall (Payload := Payload))) d :
  creations q (cs ++ [d]) = creations q cs + (if isCreation q d then 1 else 0).
Proof.
  unfold creations. rewrite filter_app, length_app. f_equal.
  rewrite filter_cons, filter_nil. by destruct (isCreation q d).
Qed.

Lemma connects_snoc c (cs : list (BrokerCall (Payload := Payload))) d :
  connects c (cs ++ [d]) = connects c cs + (if isConnect c d then 1 else 0).
Proof.
  unfold connects. rewrite filter_app, length_app. f_equal.
  rewrite filter_cons, filter_nil. by destruct (isConnect c d).
Qed.

Lemma serve_one_per_queue (s : State) q req :
  OnePerQueue s ->
  OnePerQueue (serve q req s) /\
  JsMap.has q (clients (serve q req s)) = true /\
  forall q', q' <> q ->
    JsMap.has q' (clients (serve q req s)) = JsMap.has q' (clients s).
Proof.
  intros Inv.
  destruct (serve_calls s q req) as (c & s1 & d & E & Hcl & _ & Hcalls & Hd).
  destruct (createClient_cases s q) as (c' & s1' & E' & Hq & Hother & Hc1 & _).
  rewrite E in E'. injection E' as <- <-.
  assert (Hhas : JsMap.has q (clients s1) = true).
  { unfold JsMap.has. by rewrite Hq. }
  assert (Hoth : forall q', q' <> q ->
            JsMap.has q' (clients s1) = JsMap.has q' (clients s)).
  { intros q' Hne. unfold JsMap.has. by rewrite Hother. }
  rewrite Hcl. split; [|done]. intros q'. rewrite Hcl, Hcalls, creations_snoc.
  replace (isCreation q' d) with false by (by subst d; destruct req).
  rewrite Nat.add_0_r, Hc1. specialize (Inv q').
  destruct (decide (q' = q)) as [->|Hne].
  - rewrite Hhas. unfold JsMap.has in Inv.
    destruct (JsMap.get q (clients s)) as [[c0 [|]]|]; simpl.
    + by rewrite app_nil_r.
    + rewrite creations_snoc. simpl. lia.
    + rewrite creations_snoc. simpl. rewrite bool_decide_eq_true_2 by done. lia.
  - rewrite (Hoth q' Hne), <- Inv.
    destruct (JsMap.get q (clients s)) as [[c0 [|]]|]; simpl.
    + by rewrite app_nil_r.
    + rewrite creations_snoc. simpl. lia.
    + rewrite creations_snoc. simpl. rewrite bool_decide_eq_false_2 by done. lia.
Qed.

Lemma serveAll_one_per_queue requests (s : State) :
  OnePerQueue s ->
  OnePerQueue (serveAll env requests s) /\
  forall q, JsMap.has q (clients (serveAll env requests s))
            = bool_decide (q ∈ requests.*1) || JsMap.has q (clients s).
Proof.
  revert s. induction requests as [|[q0 r0] requests IH]; intros s Inv.
  - split; [done|]. intros q. unfold serveAll. cbn [foldl fmap list_fmap].
    rewrite (bool_decide_eq_false_2 (q ∈ [])); [done|]. apply not_elem_of_nil.
  - destruct (serve_one_per_queue s q0 r0 Inv) as (Inv1 & Hq0 & Hother).
    destruct (IH _ Inv1) as (Inv2 & Hhas). split; [done|].
    intros q. unfold serveAll in *. cbn [foldl fst snd fmap list_fmap].
    rewrite Hhas. destruct (decide (q = q0)) as [->|Hne].
    + rewrite Hq0, orb_true_r. rewrite (bool_decide_eq_true_2 (q0 ∈ q0 :: _)); [done|].
      by left.
    + rewrite (Hother q Hne). f_equal. apply bool_decide_ext.
      rewrite elem_of_cons. tauto.
Qed.

(** A request that finds its queue's client marked disconnected. *)
Lemma serve_disconnected (s : State) q c req :
  JsMap.get q (clients s) = Some (mkClientInfo c false) ->
  exists d,
    calls (serve q req s) = calls s ++ [ClientConnect c; d] /\
    dispatched d = Some (c, q, envelopeOf req) /\
    JsMap.get q (clients (serve q req s))
    = Some (mkClientInfo c (is_ok (connectSettles env (calls s) c))).
Proof.
  intros Hq.
  destruct (serve_calls s q req) as (c' & s1 & d & E & -> & _ & -> & Hd).
  rewrite (createClient_disconnected _ _ _ Hq) in E. injection E as <- <-.
  exists d. cbn [calls clients]. split; [by rewrite <- app_assoc|].
  split; [subst d; by destruct req|].
  destruct (connectSettles env (calls s) c); simpl; [|done].
  by rewrite get_set_eq.
Qed.

End Facts.

(** C6.  The service holds at most one client per queue name:
    (a) over any sequence of [emit]/[send] requests made to a new
    service, exactly one client is constructed for each queue named and
    none for any other;
    (b) two requests naming a queue that has no client yet construct the
    client once and are both dispatched through it;
    (c) a request that finds the cached client marked disconnected makes
    exactly one [connect] attempt, then dispatches through that same
    client; the flag becomes true if the attempt succeeded and stays
    false if it failed;
    (d) hence, as long as the attempts fail, every later request makes
    one more attempt. *)
Theorem queue_client_cached :
  forall (Payload : Type) (env : Environment (Payload := Payload)),
    (forall (requests : list (string * Request)) (q : string),
        creations q (calls (serveAll env requests newService))
        = if bool_decide (q ∈ requests.*1) then 1 else 0) /\
    (forall (s : State) (q : string) (r1 r2 : Request),
        JsMap.get q (clients s) = None ->
        exists options c d1 d2,
          calls (serve env q r2 (serve env q r1 s))
          = calls s ++ [FactoryCreate options; d1; d2] /\
          queue options = q /\
          dispatched d1 = Some (c, q, envelopeOf r1) /\
          dispatched d2 = Some (c, q, envelopeOf r2) /\
          creations q (calls (serve env q r2 (serve env q r1 s)))
          = creations q (calls s) + 1) /\
    (forall (s : State) (q : string) (c : Client) (r : Request),
        JsMap.get q (clients s) = Some (mkClientInfo c false) ->
        exists d,
          calls (serve env q r s) = calls s ++ [ClientConnect c; d] /\
          dispatched d = Some (c, q, envelopeOf r) /\
          JsMap.get q (clients (serve env q r s))
          = Some (mkClientInfo c (is_ok (connectSettles env (calls s) c)))) /\
    (forall (s : State) (q : string) (c : Client) (rs : list Request),
        JsMap.get q (clients s) = Some (mkClientInfo c false) ->
        (forall before, is_ok (connectSettles env before c) = false) ->
        let s' := foldl (fun s0 r => serve env q r s0) s rs in
        JsMap.get q (clients s') = Some (mkClientInfo c false) /\
        connects c (calls s') = connects c (calls s) + length rs).
Proof.
  intros Payload env. split; [|split; [|split]].
  - intros requests q.
    destruct (serveAll_one_per_queue env requests newService) as (Inv & Hhas).
    { intros q'. reflexivity. }
    rewrite (Inv q), (Hhas q). simpl. by rewrite orb_false_r.
  - intros s q r1 r2 Hq.
    destruct (serve_calls env s q r1) as (c & s1 & d1 & E1 & Hcl1 & _ & Hc1 & Hd1).
    rewrite (createClient_new env _ _ Hq) in E1. injection E1 as <- <-.
    cbn [clients calls] in *.
    destruct (serve_calls env (serve env q r1 s) q r2)
      as (c2 & s2 & d2 & E2 & _ & _ & Hc2 & Hd2).
    rewrite (createClient_connected env _ q (created s)) in E2
      by (by rewrite Hcl1, get_set_eq).
    injection E2 as <- <-.
    eexists _, (created s), d1, d2. rewrite Hc2, Hc1.
    split; [by rewrite <- !app_assoc|]. split; [done|].
    split; [subst d1; by destruct r1|]. split; [subst d2; by destruct r2|].
    rewrite !creations_snoc. simpl. rewrite bool_decide_eq_true_2 by done.
    replace (isCreation q d1) with false by (by subst d1; destruct r1).
    replace (isCreation q d2) with false by (by subst d2; destruct r2). lia.
  - intros s q c r Hq. by apply serve_disconnected.
  - intros s q c rs Hq Hfail. cbn zeta. revert s Hq.
    induction rs as [|r rs IH]; intros s Hq; simpl; [split; [done|lia]|].
    destruct (serve_disconnected env s q c r Hq) as (d & Hcalls & Hd & Hq').
    rewrite Hfail in Hq'. destruct (IH _ Hq') as (-> & ->).
    split; [done|]. rewrite Hcalls.
    change [ClientConnect c; d] with ([ClientConnect c] ++ [d]).
    rewrite app_assoc, !connects_snoc. simpl. rewrite bool_decide_eq_true_2 by done.
    replace (isConnect c d) with false; [lia|].
    destruct d; try done. 
Qed.

Lemma queue_client_cached_witness :
  exists options c d1 d2,
    calls (serve (mkEnvironment None (fun _ _ => Ok tt) (fun _ _ _ _ => Ok tt)
                    (fun _ _ _ data => Ok (env_payload data)) (fun _ _ => Ok tt))
             "coupang-queue" (Send "getOrders" 2)
             (serve (mkEnvironment None (fun _ _ => Ok tt) (fun _ _ _ _ => Ok tt)
                       (fun _ _ _ data => Ok (env_payload data)) (fun _ _ => Ok tt))
                "coupang-queue" (Emit "orderCreated" 1) newService))
    = calls newService ++ [FactoryCreate options; d1; d2] /\
    queue options = "coupang-queue" /\
    dispatched d1 = Some (c, "coupang-queue", envelopeOf (Emit "orderCreated" 1)) /\
    dispatched d2 = Some (c, "coupang-queue", envelopeOf (Send "getOrders" 2)).
Proof.
  destruct (proj1 (proj2 (queue_client_cached nat
              (mkEnvironment None (fun _ _ => Ok tt) (fun _ _ _ _ => Ok tt)
                 (fun _ _ _ data => Ok (env_payload data)) (fun _ _ => Ok tt))))
              newService "coupang-queue" (Emit "orderCreated" 1) (Send "getOrders" 2))
    as (options & c & d1 & d2 & Hcalls & Hq & Hd1 & Hd2 & _).
  - reflexivity.
  - exists options, c, d1, d2. repeat split; assumption.
Defined.

(** C9.  Whatever the state of the service, a request on [queue]
    reaches the client as exactly one [emit] resp. [send] call, made
    after the calls that obtain the client; the message pattern of that
    call is the queue name, and the caller's pattern travels only inside
    the data [{pattern, payload}].  Two requests on the same queue are
    therefore dispatched under the same transport-level pattern,
    whatever their own patterns. *)
Theorem queue_name_is_transport_pattern :
  forall (Payload : Type) (env : Environment (Payload := Payload)),
    (forall (s : State) (queue pattern : string) (payload : Payload),
        exists c pre,
          calls (emit env queue pattern payload s).2
          = calls s ++ pre ++ [ClientEmit c queue (mkEnvelope pattern payload)] /\
          Forall (fun call => dispatched call = None) pre) /\
    (forall (s : State) (queue pattern : string) (payload : Payload),
        exists c pre,
          calls (send env queue pattern payload s).2
          = calls s ++ pre ++ [ClientSend c queue (mkEnvelope pattern payload)] /\
          Forall (fun call => dispatched call = None) pre) /\
    (forall (s1 s2 : State) (queue : string) (r1 r2 : Request),
        exists c1 c2,
          last (calls (serve env queue r1 s1)) ≫= dispatched
          = Some (c1, queue, envelopeOf r1) /\
          last (calls (serve env queue r2 s2)) ≫= dispatched
          = Some (c2, queue, envelopeOf r2)).
Proof.
  intros Payload env.
  assert (Hserve : forall (s : State) queue req,
    exists c pre d,
      calls (serve env queue req s) = calls s ++ pre ++ [d] /\
      Forall (fun call => dispatched call = None) pre /\
      d = match req with
          | Emit pattern payload => ClientEmit c queue (mkEnvelope pattern payload)
          | Send pattern payload => ClientSend c queue (mkEnvelope pattern payload)
          end).
  { intros s queue req.
    destruct (serve_calls env s queue req) as (c & s1 & d & E & _ & _ & Hcalls & Hd).
    destruct (createClient_cases env s queue) as (c' & s1' & E' & _ & _ & Hc1 & _).
    rewrite E in E'. injection E' as <- <-.
    exists c. eexists. exists d. rewrite Hcalls, Hc1, <- app_assoc.
    split; [done|]. split; [|done].
    destruct (JsMap.get queue (clients s)) as [[c0 [|]]|]; by repeat constructor. }
  split; [|split].
  - intros s queue pattern payload.
    destruct (Hserve s queue (Emit pattern payload)) as (c & pre & d & Hc & Hpre & ->).
    by exists c, pre.
  - intros s queue pattern payload.
    destruct (Hserve s queue (Send pattern payload)) as (c & pre & d & Hc & Hpre & ->).
    by exists c, pre.
  - intros s1 s2 queue r1 r2.
    destruct (Hserve s1 queue r1) as (c & pre & d & -> & _ & ->).
    destruct (Hserve s2 queue r2) as (c' & pre' & d' & -> & _ & ->).
    exists c, c'. rewrite !app_assoc, !last_snoc. by destruct r1, r2.
Qed.

End RabbitMQFacts.

(** ** Sequencing in the state-and-exception monad *)

Module MonadFacts.

Section Keeps.
Context {S : Type} (R : S -> S -> Prop) `{!PreOrder R}.

Lemma keeps_ret {A} E (a : A) : keeps R E (ret a).
Proof. intros s. split; [reflexivity|done]. Qed.

Lemma keeps_throw {A} (E : JsError -> Prop) e : E e -> keeps R E (throw (A := A) e).
Proof. intros He s. split; [reflexivity|]. by intros ? [= <-]. Qed.

Lemma keeps_gets {A} E (f : S -> A) : keeps R E (gets f).
Proof. intros s. split; [reflexivity|done]. Qed.

Lemma keeps_modify E (f : S -> S) : (forall s, R s (f s)) -> keeps R E (modify f).
Proof. intros Hf s. split; [apply Hf|done]. Qed.

Lemma keeps_consoleLog E line : keeps R E (consoleLog line).
Proof. apply keeps_ret. Qed.

Lemma keeps_bind {A B} E (m : M S A) (k : A -> M S B) :
  keeps R E m -> (forall a, keeps R E (k a)) -> keeps R E (bind m k).
Proof.
  intros Hm Hk s. unfold bind. specialize (Hm s).
  destruct (m s) as [[a|e] s1]; simpl in *.
  - destruct Hm as [HR _]. destruct (Hk a s1) as [HR' HE]. split; [|done].
    by etrans.
  - destruct Hm as [HR HE]. split; [done|]. intros e0 [= <-]. by apply HE.
Qed.

Lemma keeps_tryCatch {A} E E' (m : M S A) (handler : JsError -> M S A) :
  keeps R E' m -> (forall e, E' e -> keeps R E (handler e)) ->
  keeps R E (tryCatch m handler).
Proof.
  intros Hm Hh s. unfold tryCatch. specialize (Hm s).
  destruct (m s) as [[a|e] s1]; simpl in *.
  - destruct Hm as [HR _]. done.
  - destruct Hm as [HR HE]. destruct (Hh e (HE e eq_refl) s1) as [HR' HE'].
    split; [by etrans|done].
Qed.

Lemma keeps_forEach {A} E (xs : list A) (body : A -> M S unit) :
  (forall x, keeps R E (body x)) -> keeps R E (forEach xs body).
Proof.
  intros Hbody. induction xs as [|x xs IH]; simpl.
  - apply keeps_ret.
  - apply keeps_bind; [apply Hbody|]. intros _. apply IH.
Qed.

(** A loop whose rounds cannot throw: each round establishes a fact
    about its element, and the rounds that follow do not undo it. *)
Lemma forEach_establishes {A} (P : A -> S -> Prop) (xs : list A)
    (body : A -> M S unit) :
  (forall x, keeps R (fun _ => False) (body x)) ->
  (forall x s, P x (body x s).2) ->
  (forall x s s', R s s' -> P x s -> P x s') ->
  forall s,
    (forEach xs body s).1 = Ok tt /\ R s (forEach xs body s).2 /\
    forall x, x ∈ xs -> P x (forEach xs body s).2.
Proof.
  intros Hbody HP Hstable. induction xs as [|x xs IH]; intros s; simpl.
  - split; [done|]. split; [reflexivity|]. by intros ? ?%elem_of_nil.
  - unfold bind. destruct (Hbody x s) as [HR HE]. pose proof (HP x s) as HPx.
    destruct (body x s) as [[[]|e] s1]; simpl in *; [|by destruct (HE e)].
    destruct (IH s1) as (-> & HR' & Hall). split; [done|]. split; [by etrans|].
    intros y [->|Hy]%elem_of_cons; [by eapply Hstable|by apply Hall].
Qed.

End Keeps.

(** *** Running and inverting a sequence *)

Lemma bind_ok {S A B} (m : M S A) (k : A -> M S B) s a s1 :
  m s = (Ok a, s1) -> bind m k s = k a s1.
Proof. unfold bind. by intros ->. Qed.

Lemma bind_throw {S A B} (m : M S A) (k : A -> M S B) s e s1 :
  m s = (Throw e, s1) -> bind m k s = (Throw e, s1).
Proof. unfold bind. by intros ->. Qed.

Lemma bind_inv {S A B} (m : M S A) (k : A -> M S B) s r s' :
  bind m k s = (r, s') ->
  (exists a s1, m s = (Ok a, s1) /\ k a s1 = (r, s')) \/
  (exists e, m s = (Throw e, s') /\ r = Throw e).
Proof.
  unfold bind. destruct (m s) as [[a|e] s1]; intros E.
  - left. by exists a, s1.
  - right. injection E as <- <-. by exists e.
Qed.

Lemma bind_Ok_inv {S A B} (m : M S A) (k : A -> M S B) s b s' :
  bind m k s = (Ok b, s') ->
  exists a s1, m s = (Ok a, s1) /\ k a s1 = (Ok b, s').
Proof. intros [H|(e & _ & [=])]%bind_inv. done. Qed.

Lemma tryCatch_inv {S A} (m : M S A) (handler : JsError -> M S A) s r s' :
  tryCatch m handler s = (r, s') ->
  (exists a, m s = (Ok a, s') /\ r = Ok a) \/
  (exists e s1, m s = (Throw e, s1) /\ handler e s1 = (r, s')).
Proof.
  unfold tryCatch. destruct (m s) as [[a|e] s1]; intros E.
  - left. injection E as <- <-. by exists a.
  - right. by exists e, s1.
Qed.

Lemma keeps_run {S A} (R : S -> S -> Prop) E (m : M S A) s r s' :
  keeps R E m -> m s = (r, s') -> R s s' /\ forall e, r = Throw e -> E e.
Proof. intros Hm Hs. specialize (Hm s). by rewrite Hs in Hm. Qed.

Lemma keeps_weaken {S A} (R R' : S -> S -> Prop) (E E' : JsError -> Prop)
    (m : M S A) :
  (forall s s', R s s' -> R' s s') -> (forall e, E e -> E' e) ->
  keeps R E m -> keeps R' E' m.
Proof. intros HR HE Hm s. destruct (Hm s) as [H1 H2]. split; [auto|]. intros e He. auto. Qed.

(** *** What a sequence returns *)




End MonadFacts.

(** ** The Playwright store *)

Module WorldFacts.
Import Playwright Footprint MonadFacts.

Lemma pageClosed_lt w p : pageClosed w p = true -> p < length (pages w).
Proof.
  unfold pageClosed. destruct (pages w !! p) eqn:E; [|done].
  intros _. by eapply lookup_lt_Some.
Qed.

Global Instance Evolves_preorder allowed : PreOrder (Evolves allowed).
Proof.
  split.
  - intros w. split; [|done|done]. exists []. by rewrite app_nil_r.
  - intros w1 w2 w3 [(d1 & E1 & F1) C1 L1] [(d2 & E2 & F2) C2 L2].
    split; [|by auto|lia].
    exists (d1 ++ d2). rewrite E2, E1, app_assoc. split; [done|].
    by apply Forall_app.
Qed.

Lemma Evolves_subset (A A' : Call -> bool) w w' :
  (forall c, A c = true -> A' c = true) -> Evolves A w w' -> Evolves A' w w'.
Proof.
  intros Hsub [(d & E & F) C L]. split; [|done|done].
  exists d. split; [done|]. eapply Forall_impl; [exact F|]. intros ev. apply Hsub.
Qed.

Global Instance Teardown_preorder : PreOrder Teardown.
Proof.
  split.
  - intros w. split; [reflexivity|done].
  - intros w1 w2 w3 [E1 B1] [E2 B2]. split; [by etrans|congruence].
Qed.

Global Instance lift_preorder {This} (F : This -> This -> Prop)
    (W : World -> World -> Prop) `{!PreOrder F, !PreOrder W} :
  PreOrder (lift F W).
Proof.
  split.
  - intros s. split; reflexivity.
  - intros s1 s2 s3 [F1 W1] [F2 W2]. split; by etrans.
Qed.

Global Instance submap_preorder {V} : PreOrder (@submap V).
Proof. split; [by intros m k v|]. intros m1 m2 m3 H1 H2 k v Hk. auto. Qed.

Lemma gentle_id : Gentle (fun w => w).
Proof. by intros w. Qed.

Lemma pageClosed_alter w p q browsers' contexts' trace' :
  pageClosed w q = true ->
  pageClosed (mkWorld browsers' contexts' (alter closePageObj p (pages w)) trace') q
  = true.
Proof.
  unfold pageClosed. simpl. destruct (decide (p = q)) as [->|Hne].
  - rewrite list_lookup_alter_eq. by destruct (pages w !! q).
  - by rewrite list_lookup_alter_ne.
Qed.

Lemma pageClosed_fmap w q (f : PageObj -> PageObj) browsers' contexts' trace' :
  (forall o, p_closed o = true -> p_closed (f o) = true) ->
  pageClosed w q = true ->
  pageClosed (mkWorld browsers' contexts' (f <$> pages w) trace') q = true.
Proof.
  intros Hf. unfold pageClosed. simpl. rewrite list_lookup_fmap.
  destruct (pages w !! q); simpl; [apply Hf|done].
Qed.

Lemma gentle_closePage p : Gentle (closePage p).
Proof.
  intros w. split; [done|]. split.
  - intros q. apply pageClosed_alter.
  - simpl. by rewrite length_alter.
Qed.

Lemma gentle_closeContext c : Gentle (closeContext c).
Proof.
  intros w. split; [done|]. split.
  - intros q. apply pageClosed_fmap. intros o Ho. by case_decide.
  - simpl. by rewrite length_fmap.
Qed.

Lemma gentle_closeBrowser b : Gentle (closeBrowser b).
Proof.
  intros w. split; [done|]. split.
  - intros q. apply pageClosed_fmap. intros o Ho. by case_match.
  - simpl. by rewrite length_fmap.
Qed.

Lemma gentle_same_pages (f : World -> World) :
  (forall w, trace (f w) = trace w /\ pages (f w) = pages w) -> Gentle f.
Proof.
  intros Hf w. destruct (Hf w) as [Ht Hp]. split; [done|].
  unfold pageClosed. rewrite Hp. split; [done|lia].
Qed.

Lemma gentle_new_page o :
  Gentle (fun w => mkWorld (browsers w) (contexts w) (pages w ++ [o]) (trace w)).
Proof.
  intros w. split; [done|]. split.
  - intros p Hp. pose proof (pageClosed_lt _ _ Hp) as Hlt.
    unfold pageClosed in *. simpl. by rewrite lookup_app_l.
  - simpl. rewrite length_app. lia.
Qed.

Lemma Evolves_logEvent allowed ev w :
  allowed ev.1 = true -> Evolves allowed w (logEvent ev w).
Proof.
  intros Hev. split; [|done|done]. exists [ev]. split; [done|].
  by apply Forall_singleton.
Qed.

Lemma Evolves_gentle allowed f w : Gentle f -> Evolves allowed w (f w).
Proof.
  intros Hf. destruct (Hf w) as (Ht & Hc & Hl). split; [|done|done].
  exists []. by rewrite app_nil_r.
Qed.

Global Instance covers_library : Covers libraryError.
Proof. by intros e. Qed.

Global Instance covers_or (P : JsError -> Prop) :
  Covers (fun e => libraryError e \/ P e).
Proof. intros e He. by left. Qed.

Section Perform.
Variable env : Environment.
Context {This : Type} (F : This -> This -> Prop) `{!PreOrder F}.
Context (E : JsError -> Prop) `{!Covers E}.

Lemma perform_keeps {A} (W : World -> World -> Prop) `{!PreOrder W}
    (call : Call) (run : World -> A * World) (value : A -> Value) :
  (forall w, W w (run w).2) ->
  (forall w outcome, W w (logEvent (call, outcome) w)) ->
  keeps (lift F W) E (perform (This := This) env call run value).
Proof.
  intros Hrun Hlog s. unfold perform.
  destruct (rejects env (trace (world s)) call) as [msg|]; simpl.
  - split; [|intros ? [= <-]; by apply covers]. split; [reflexivity|apply Hlog].
  - specialize (Hrun (world s)). destruct (run (world s)) as [a w']. simpl in *.
    split; [|done]. split; [reflexivity|]. etrans; [exact Hrun|apply Hlog].
Qed.

Lemma perform_evolves {A} allowed (call : Call) (run : World -> A * World)
    (value : A -> Value) :
  allowed call = true -> Gentle (fun w => (run w).2) ->
  keeps (lift F (Evolves allowed)) E (perform (This := This) env call run value).
Proof.
  intros Hcall Hrun. apply perform_keeps; [apply _|..].
  - intros w. by apply (Evolves_gentle allowed _ w Hrun).
  - intros w outcome. by apply Evolves_logEvent.
Qed.

Lemma perform_teardown {A} (call : Call) (run : World -> A * World)
    (value : A -> Value) :
  teardownCall call = true -> Gentle (fun w => (run w).2) ->
  (forall w, browsers (run w).2 = browsers w) ->
  keeps (lift F Teardown) E (perform (This := This) env call run value).
Proof.
  intros Hcall Hrun Hb. apply perform_keeps; [apply _|..].
  - intros w. split; [by apply (Evolves_gentle _ _ w Hrun)|apply Hb].
  - intros w outcome. split; [by apply Evolves_logEvent|done].
Qed.

Lemma dereference_keeps {A} (W : World -> World -> Prop) `{!PreOrder W}
    (o : option A) :
  keeps (lift F W) E (dereference (This := This) o).
Proof.
  destruct o; [apply keeps_ret|apply keeps_throw]; try apply _.
  by apply covers.
Qed.

Lemma getThis_keeps {A} (W : World -> World -> Prop) `{!PreOrder W}
    (f : This -> A) :
  keeps (lift F W) E (getThis f).
Proof. apply keeps_gets. apply _. Qed.

Lemma setThis_keeps (W : World -> World -> Prop) `{!PreOrder W}
    (f : This -> This) :
  (forall t, F t (f t)) -> keeps (lift F W) E (setThis f).
Proof. intros Hf. apply keeps_modify; try apply _. intros s. split; [apply Hf|reflexivity]. Qed.

Lemma setInstanceId_keeps allowed b browserId :
  keeps (lift F (Evolves allowed)) E (setInstanceId (This := This) b browserId).
Proof.
  apply keeps_modify; try apply _. intros s. split; [reflexivity|].
  apply (Evolves_gentle _ (fun w => mkWorld _ (contexts w) (pages w) (trace w))).
  apply gentle_same_pages. by intros.
Qed.

End Perform.

(** *** What single steps return *)

Section Run.
Variable env : Environment.
Context {This : Type}.
Implicit Types s : State This.

Lemma getThis_run {A} (f : This -> A) s r s' :
  getThis f s = (r, s') -> r = Ok (f (this s)) /\ s' = s.
Proof. by intros [= <- <-]. Qed.

Lemma setThis_run (f : This -> This) s r s' :
  setThis f s = (r, s') -> r = Ok tt /\ s' = mkState (f (this s)) (world s).
Proof. by intros [= <- <-]. Qed.

Lemma ret_run {A} (a : A) s r s' : ret a s = (r, s') -> r = Ok a /\ s' = s.
Proof. by intros [= <- <-]. Qed.

Lemma dereference_run {A} (o : option A) s r s' :
  dereference o s = (r, s') ->
  s' = s /\ match o with
            | Some a => r = Ok a
            | None => exists msg, r = Throw (TypeError msg)
            end.
Proof. destruct o; intros [= <- <-]; eauto. Qed.

Lemma perform_run {A} (call : Call) (run : World -> A * World)
    (value : A -> Value) s r s' :
  perform env call run value s = (r, s') ->
  this s' = this s /\
  match rejects env (trace (world s)) call with
  | Some msg =>
      r = Throw (ExternalError msg) /\
      world s' = logEvent (call, Throw (ExternalError msg)) (world s)
  | None =>
      r = Ok (run (world s)).1 /\
      world s' = logEvent (call, Ok (value (run (world s)).1)) (run (world s)).2
  end.
Proof.
  unfold perform. destruct (rejects env (trace (world s)) call).
  - by intros [= <- <-].
  - destruct (run (world s)) as [a w']. by intros [= <- <-].
Qed.

(** *** Running a method step by step *)

Lemma run_getThis {A B} (f : This -> A) (k : A -> M (State This) B) s :
  bind (getThis f) k s = k (f (this s)) s.
Proof. done. Qed.

Lemma run_setThis {B} (f : This -> This) (k : unit -> M (State This) B) s :
  bind (setThis f) k s = k tt (mkState (f (this s)) (world s)).
Proof. done. Qed.

Lemma run_ret {A B} (a : A) (k : A -> M (State This) B) s :
  bind (ret a) k s = k a s.
Proof. done. Qed.

Lemma run_consoleLog {B} line (k : unit -> M (State This) B) s :
  bind (consoleLog line) k s = k tt s.
Proof. done. Qed.

Lemma run_configGet {B} key (k : option string -> M (State This) B) s :
  bind (configGet env key) k s = k (config env key) s.
Proof. done. Qed.

Lemma run_assoc {A B C} (m : M (State This) A) (k : A -> M (State This) B)
    (k' : B -> M (State This) C) s :
  bind (bind m k) k' s = bind m (fun a => bind (k a) k') s.
Proof. unfold bind. by destruct (m s) as [[a|e] s1]. Qed.

Lemma run_dereference {A B} (o : option A) (k : A -> M (State This) B) s :
  bind (dereference o) k s
  = match o with
    | Some a => k a s
    | None => (Throw (TypeError "Cannot read properties of undefined"), s)
    end.
Proof. by destruct o. Qed.

Lemma run_perform {A B} (call : Call) (run : World -> A * World)
    (value : A -> Value) (k : A -> M (State This) B) s :
  bind (perform env call run value) k s
  = match rejects env (trace (world s)) call with
    | Some msg =>
        (Throw (ExternalError msg),
         mkState (this s) (logEvent (call, Throw (ExternalError msg)) (world s)))
    | None =>
        k (run (world s)).1
          (mkState (this s)
             (logEvent (call, Ok (value (run (world s)).1)) (run (world s)).2))
    end.
Proof.
  unfold bind, perform. destruct (rejects env (trace (world s)) call); [done|].
  by destruct (run (world s)).
Qed.

Lemma run_perform_last {A} (call : Call) (run : World -> A * World)
    (value : A -> Value) s :
  perform env call run value s
  = match rejects env (trace (world s)) call with
    | Some msg =>
        (Throw (ExternalError msg),
         mkState (this s) (logEvent (call, Throw (ExternalError msg)) (world s)))
    | None =>
        (Ok (run (world s)).1,
         mkState (this s)
           (logEvent (call, Ok (value (run (world s)).1)) (run (world s)).2))
    end.
Proof.
  unfold perform. destruct (rejects env (trace (world s)) call); [done|].
  by destruct (run (world s)).
Qed.

End Run.

Ltac mrun :=
  repeat first
    [ rewrite run_getThis | rewrite run_setThis | rewrite run_ret
    | rewrite run_consoleLog | rewrite run_configGet | rewrite run_assoc
    | rewrite run_dereference | rewrite run_perform | rewrite run_perform_last
    | progress cbn [this world fst snd trace browsers contexts pages logEvent] ].

End WorldFacts.

(** ** Tactics for the managers *)

Import Playwright Footprint MonadFacts WorldFacts JsMapFacts.

Global Instance anyThis_preorder {This} : PreOrder (@anyThis This).
Proof. by split. Qed.

Lemma submap_delete {V} k (m : JsMap.t V) : submap (JsMap.delete k m) m.
Proof.
  intros k' v. destruct (decide (k = k')) as [->|Hne].
  - by rewrite get_delete_eq.
  - by rewrite get_delete_ne.
Qed.

(** One library call: its footprint, and the monotony of its effect. *)
Ltac gentle :=
  first
    [ apply gentle_closePage | apply gentle_closeContext | apply gentle_closeBrowser
    | apply gentle_new_page | apply gentle_id
    | apply gentle_same_pages; by intros ].

Ltac keeps_call :=
  first
    [ apply perform_teardown; try apply _; [reflexivity|gentle|by intros]
    | apply perform_evolves; try apply _; [reflexivity|gentle] ].

(** Structure of a method body. *)
Ltac keeps_step :=
  lazymatch goal with
  | |- keeps _ _ (bind _ _) => apply keeps_bind; try apply _; [|intros ?]
  | |- keeps _ _ (ret _) => apply keeps_ret; apply _
  | |- keeps _ _ (consoleLog _) => apply keeps_consoleLog; apply _
  | |- keeps _ _ (configGet _ _) => apply keeps_ret; apply _
  | |- keeps _ _ (getThis _) => apply getThis_keeps; apply _
  | |- keeps _ _ (dateNow _) => apply keeps_gets; apply _
  | |- keeps _ _ (dereference _) => apply dereference_keeps; apply _
  | |- keeps _ _ (forEach _ _) => apply keeps_forEach; try apply _; intros ?
  | |- keeps _ _ (if ?b then _ else _) => destruct b
  | |- keeps _ _ (match ?o with Some _ => _ | None => _ end) => destruct o
  | |- keeps _ _ (perform _ _ _ _) => keeps_call
  | |- keeps _ _ (setInstanceId _ _) => apply setInstanceId_keeps; apply _
  | |- keeps _ _ (setThis _) => apply setThis_keeps; try apply _
  | |- keeps _ _ (throw _) => apply keeps_throw; try apply _
  | |- keeps _ _ (tryCatch _ _) =>
      eapply keeps_tryCatch with (E' := libraryError); try apply _; [|intros ? ?]
  end.

Ltac keeps_unfold :=
  unfold launch, browserTypeName, browserContextsLength, browserIsConnected,
    browserClose, newContext, addInitScript, contextNewPage, contextClose,
    pageRoute, pageGetContext, pageIsClosed, pageClose, pageGoto, pageHasElement,
    pageFill, pageClick, keyboardPress, pageWaitForLoadState.

Ltac keeps_auto := repeat (keeps_unfold; keeps_step).

(** Reading the calls of a run off the trace. *)
Lemma callsBetween_app w w' d :
  trace w' = trace w ++ d -> callsBetween w w' = d.
Proof. intros E. unfold callsBetween. by rewrite E, drop_app_length. Qed.

(** Computes the calls between two worlds given by their traces. *)
Ltac between :=
  unfold callsBetween; cbn [trace logEvent world];
  rewrite <- ?app_assoc, ?drop_app_length, ?drop_all; cbn [app].

(** Whether the next call is rejected. *)
Ltac case_rejects :=
  match goal with
  | |- context [rejects ?e ?h ?c] => destruct (rejects e h c) as [?|] eqn:?
  end.

(** The cases of [getBrowserInfo] in which no call threw, or the one
    that threw is known. *)
Ltac info_case :=
  first
    [ intros ? ?; between; rewrite ?elem_of_cons, ?elem_of_nil;
      intros ?; by intuition simplify_eq
    | intros ? _ _ _; between; rewrite ?Forall_cons; cbn;
      intros ?; by intuition simplify_eq ].

(** Closes the case of a login that ended otherwise than by the detector
    saying no: its calls after the setup calls [d] are listed, and that
    answer is not among them. *)
Ltac login_threw Hd Hsetup :=
  mrun; intros [= <- <-]; between; rewrite Hd; between;
  rewrite elem_of_app, ?elem_of_cons, elem_of_nil;
  let Hin := fresh "Hin" in
  intros [Hin|Hin];
  [ by apply (proj1 (Forall_forall _ _) Hsetup) in Hin
  | by intuition simplify_eq ].

Lemma get_none_nil {V} (m : JsMap.t V) : (forall k, JsMap.get k m = None) -> m = [].
Proof.
  destruct m as [|[k v] m]; [done|]. intros H. specialize (H k). simpl in H.
  by rewrite decide_True in H.
Qed.

Lemma engineName_inj a b : engineName a = engineName b -> a = b.
Proof. by destruct a, b. Qed.

Lemma browserConnected_closeBrowser b w x :
  browserConnected (closeBrowser b w) x
  = if decide (x = b) then false else browserConnected w x.
Proof.
  unfold browserConnected, closeBrowser. cbn. destruct (decide (x = b)) as [->|Hne].
  - rewrite list_lookup_alter_eq. by destruct (browsers w !! b).
  - by rewrite list_lookup_alter_ne.
Qed.

Lemma Teardown_setup w w' : Teardown w w' -> Evolves setupCall w w'.
Proof. intros [He _]. eapply Evolves_subset; [|exact He]. by intros []. Qed.

(** ** [PlaywrightService] *)

Module ServiceFacts.
Import PlaywrightService.

Global Instance Released_preorder : PreOrder Released.
Proof.
  split.
  - intros t. by split.
  - intros t1 t2 t3 [] []. split; try congruence; by etrans.
Qed.

Global Instance PoolsShrink_preorder : PreOrder PoolsShrink.
Proof.
  split.
  - intros t. by split.
  - intros t1 t2 t3 [] []. split; by etrans.
Qed.

Lemma Released_PoolsShrink t t' : Released t t' -> PoolsShrink t t'.
Proof. intros []. by split. Qed.

Section Facts.
Variable env : Environment.

Local Abbreviation releasePage := (releasePage env).
Local Abbreviation releaseContext := (releaseContext env).
Local Abbreviation closeAll := (closeAll env).
Local Abbreviation initializeBrowser := (initializeBrowser env).
Local Abbreviation getOrCreateContext := (getOrCreateContext env).
Local Abbreviation createPage := (createPage env).
Local Abbreviation ensureBrowser := (ensureBrowser env).
Local Abbreviation existingOrNewPage := (existingOrNewPage env).

Lemma releasePage_keeps pageId :
  keeps (lift Released Teardown) (fun _ => False) (releasePage pageId).
Proof.
  unfold releasePage, PlaywrightService.releasePage. keeps_auto.
  intros t. split; try done. apply submap_delete.
Qed.

Lemma releaseContext_keeps contextId :
  keeps (lift Released Teardown) (fun _ => False) (releaseContext contextId).
Proof.
  unfold releaseContext, PlaywrightService.releaseContext. keeps_auto.
  - eapply keeps_weaken; [| |apply releasePage_keeps]; [done|by intros].
  - apply releasePage_keeps.
  - intros t. split; try done. apply submap_delete.
Qed.

Lemma released_setup (s s' : State This) :
  lift Released Teardown s s' -> lift PoolsShrink (Evolves setupCall) s s'.
Proof. intros [HF HW]. split; [by apply Released_PoolsShrink|by apply Teardown_setup]. Qed.

Lemma shrink_any (s s' : State This) :
  lift PoolsShrink (Evolves setupCall) s s' -> lift anyThis (Evolves setupCall) s s'.
Proof. by intros [HF HW]. Qed.

Lemma closeAll_keeps :
  keeps (lift PoolsShrink (Evolves setupCall)) libraryError closeAll.
Proof.
  unfold closeAll, PlaywrightService.closeAll. keeps_auto; try (by intros t).
  - eapply keeps_weaken; [| |apply releasePage_keeps];
      [apply released_setup|by intros].
  - eapply keeps_weaken; [| |apply releaseContext_keeps];
      [apply released_setup|by intros].
Qed.

Lemma initializeBrowser_keeps :
  keeps (lift PoolsShrink (Evolves setupCall)) libraryError initializeBrowser.
Proof.
  unfold initializeBrowser, PlaywrightService.initializeBrowser.
  keeps_auto; try (by intros t). apply closeAll_keeps.
Qed.

Lemma ensureBrowser_keeps browserOption :
  keeps (lift PoolsShrink (Evolves setupCall)) libraryError
    (ensureBrowser browserOption).
Proof.
  unfold ensureBrowser, PlaywrightService.ensureBrowser, init, setConfig.
  keeps_auto; try (by intros t). apply initializeBrowser_keeps.
Qed.

(** *** Contexts and pages *)

Lemma getOrCreateContext_keeps contextId :
  keeps (lift anyThis (Evolves setupCall))
    (fun e => libraryError e \/ exists id, e = ContextError id)
    (getOrCreateContext contextId).
Proof.
  unfold getOrCreateContext, PlaywrightService.getOrCreateContext.
  keeps_auto; try (by intros t).
  - eapply keeps_weaken; [| |apply initializeBrowser_keeps];
      [apply shrink_any|by left].
  - right. by eexists.
Qed.

(** The lookup that ends [getOrCreateContext] finds the context: it was
    in the pool, or it has just been put there. *)
Lemma getOrCreateContext_run contextId s r s' :
  getOrCreateContext contextId s = (r, s') ->
  match r with
  | Ok c => JsMap.get contextId (contextPool (this s')) = Some c
  | Throw e => libraryError e
  end.
Proof.
  unfold getOrCreateContext, PlaywrightService.getOrCreateContext. intros H.
  apply bind_inv in H as [(initialized & s0 & [[= ->] ->]%getThis_run & H)|(e & [[=] _]%getThis_run & _)].
  apply bind_inv in H as [([] & s1 & H1 & H)|(e & H1 & ->)].
  2:{ destruct (negb (isInitialized (this s))); [|by apply ret_run in H1 as [[=] _]].
      apply bind_inv in H1 as [(b & s1 & _ & [[=] _]%ret_run)|(e' & H1 & [= <-])].
      by apply (keeps_run _ _ _ _ _ _ (initializeBrowser_keeps) H1). }
  clear H1.
  apply bind_inv in H as [(pool & s2 & [[= ->] ->]%getThis_run & H)|(e & [[=] _]%getThis_run & _)].
  apply bind_inv in H as [([] & s3 & H3 & H)|(e & H3 & ->)].
  - assert (Hpool : is_Some (JsMap.get contextId (contextPool (this s3)))).
    { destruct (JsMap.has contextId (contextPool (this s1))) eqn:Hhas; simpl in H3.
      - apply ret_run in H3 as [_ ->]. by apply has_get.
      - apply bind_Ok_inv in H3 as (b & s4 & [_ ->]%getThis_run & H3).
        apply bind_Ok_inv in H3 as (b' & s5 & [-> _]%dereference_run & H3).
        apply bind_Ok_inv in H3 as (c & s6 & _ & H3).
        apply bind_Ok_inv in H3 as ([] & s7 & _ & H3).
        apply setThis_run in H3 as [_ ->]. simpl. rewrite get_set_eq. by eexists. }
    apply bind_inv in H as [(c & s4 & [[= ->] ->]%getThis_run & H)|(e & [[=] _]%getThis_run & _)].
    destruct Hpool as [c Hc]. rewrite Hc in H. apply ret_run in H as [-> ->]. done.
  - destruct (JsMap.has contextId (contextPool (this s1))); simpl in H3;
      [by apply ret_run in H3 as [[=] _]|].
    assert (Hk : keeps (lift anyThis (Evolves setupCall)) libraryError
              (b <- getThis browser ;;
               b0 <- dereference b ;;
               context <- newContext env b0 viewportWidth viewportHeight userAgent ;;
               addInitScript env context ;;
               setThis (setContextPool (JsMap.set contextId context)))).
    { keeps_auto. by intros t. }
    by apply (keeps_run _ _ _ _ _ _ Hk H3).
Qed.

Lemma getOrCreateContext_library contextId :
  keeps (lift anyThis (Evolves setupCall)) libraryError
    (getOrCreateContext contextId).
Proof.
  intros s. destruct (getOrCreateContext_keeps contextId s) as [HR _].
  split; [done|]. intros e He.
  pose proof (getOrCreateContext_run contextId s (Throw e)
                (getOrCreateContext contextId s).2) as Hrun.
  apply Hrun. rewrite <- He. apply surjective_pairing.
Qed.

Lemma createPage_keeps contextId pageId :
  keeps (lift anyThis (Evolves setupCall)) libraryError (createPage contextId pageId).
Proof.
  unfold createPage, PlaywrightService.createPage. keeps_auto; try (by intros t).
  apply getOrCreateContext_library.
Qed.

Lemma existingOrNewPage_keeps contextId pageId :
  keeps (lift anyThis (Evolves setupCall)) libraryError
    (existingOrNewPage contextId pageId).
Proof.
  unfold existingOrNewPage, PlaywrightService.existingOrNewPage, getPage.
  keeps_auto; apply createPage_keeps.
Qed.

Lemma ensureBrowser_any browserOption :
  keeps (lift anyThis (Evolves setupCall)) libraryError (ensureBrowser browserOption).
Proof.
  eapply keeps_weaken; [| |apply ensureBrowser_keeps]; [apply shrink_any|done].
Qed.

(** *** Introspection *)

Lemma getBrowserInfo_run s :
  exists info w',
    getBrowserInfo env s = (Ok info, mkState (this s) w') /\
    (info = NotInitialized <-> isInitialized (this s) = false) /\
    (forall name n conn cids pids,
        info = Initialized name n conn cids pids ->
        exists b,
          browser (this s) = Some b /\
          Some name = engineName <$> browserEngine (world s) b /\
          n = openContexts (world s) b /\
          conn = negb (browserConnected (world s) b) /\
          cids = JsMap.keys (contextPool (this s)) /\
          pids = JsMap.keys (pagePool (this s))) /\
    (forall call e,
        (call, Throw e) ∈ callsBetween (world s) w' ->
        info = InfoError (message e)) /\
    (forall b,
        isInitialized (this s) = true -> browser (this s) = Some b ->
        is_Some (browsers (world s) !! b) ->
        Forall (fun ev : Event => is_ok ev.2 = true) (callsBetween (world s) w') ->
        exists name n conn cids pids, info = Initialized name n conn cids pids).
Proof.
  destruct s as [t w]. unfold getBrowserInfo. mrun.
  destruct (isInitialized t) eqn:Hinit; cbn [negb].
  2:{ exists NotInitialized, w. repeat split; try done.
      intros call e. between. by intros ?%elem_of_nil. }
  unfold tryCatch, browserContextsLength, browserTypeName, browserIsConnected.
  mrun.
  destruct (browser t) as [b|] eqn:Hb.
  2:{ eexists _, w. split; [done|]. repeat split; try done.
      intros call e. between. by intros ?%elem_of_nil. }
  mrun. case_rejects.
  { eexists _, _. split; [done|]. repeat split; try done; info_case. }
  mrun. case_rejects.
  { eexists _, _. split; [done|]. repeat split; try done; info_case. }
  mrun. unfold browserEngine. cbn [browsers logEvent].
  destruct (browsers w !! b) as [o|] eqn:Ho; cbn [fmap option_fmap option_map].
  2:{ eexists _, _. split; [done|]. repeat split; try done; try info_case.
      intros b' _ [= <-] [o Ho']. congruence. }
  mrun. case_rejects.
  { eexists _, _. split; [done|]. repeat split; try done; info_case. }
  mrun. eexists _, _. split; [done|]. repeat split; try done; try info_case.
  - intros name n conn cids pids [= <- <- <- <- <-]. exists b.
    unfold browserConnected, browserEngine. cbn. by rewrite Ho.
  - intros b' _ _ _ _. by eexists _, _, _, _, _.
Qed.

(** *** Logging in *)

(** The calls of a login up to the page in hand are setup calls. *)
Lemma loginPrefix_run browserOption contextId pageId s r s' :
  (ensureBrowser browserOption ;; existingOrNewPage contextId pageId) s = (r, s') ->
  Evolves setupCall (world s) (world s') /\ forall e, r = Throw e -> libraryError e.
Proof.
  intros H.
  assert (Hk : keeps (lift anyThis (Evolves setupCall)) libraryError
            (ensureBrowser browserOption ;; existingOrNewPage contextId pageId)).
  { keeps_step; [apply ensureBrowser_any|apply existingOrNewPage_keeps]. }
  destruct (keeps_run _ _ _ _ _ _ Hk H) as [[_ HW] HE]. done.
Qed.

Lemma loginToCoupangSite_shortcut contextId pageId browserOption s r s' p :
  loginToCoupangSite env contextId pageId browserOption s = (r, s') ->
  (PageEvaluate p coupangLoginForm, Ok (VBool false))
    ∈ callsBetween (world s) (world s') ->
  r = Ok p /\
  last (callsBetween (world s) (world s'))
  = Some (PageEvaluate p coupangLoginForm, Ok (VBool false)) /\
  Forall (fun ev : Event => inputCall ev.1 = false)
    (callsBetween (world s) (world s')).
Proof.
  unfold loginToCoupangSite, tryCatch. rewrite <- run_assoc.
  destruct ((ensureBrowser browserOption ;; existingOrNewPage contextId pageId) s)
    as [[page|e] s2] eqn:Hpre;
    pose proof (loginPrefix_run _ _ _ _ _ _ Hpre) as [[(d & Hd & Hsetup) _ _] _].
  2:{ rewrite (bind_throw _ _ _ _ _ Hpre). mrun. intros [= <- <-].
      rewrite (callsBetween_app _ _ d Hd). intros Hin.
      by apply (proj1 (Forall_forall _ _) Hsetup) in Hin. }
  rewrite (bind_ok _ _ _ _ _ Hpre).
  unfold pageGoto, pageHasElement, pageFill, keyboardPress, pageWaitForLoadState.
  mrun. case_rejects; [login_threw Hd Hsetup|].
  mrun. case_rejects; [login_threw Hd Hsetup|]. mrun.
  destruct (elementPresent env _ page coupangLoginForm) eqn:Hform; cbn [negb].
  - repeat (mrun; case_rejects; [login_threw Hd Hsetup|]).
    login_threw Hd Hsetup.
  - mrun. intros [= <- <-]. between. rewrite Hd. between.
    rewrite elem_of_app, !elem_of_cons, elem_of_nil.
    intros [Hin|Hin].
    { by apply (proj1 (Forall_forall _ _) Hsetup) in Hin. }
    destruct Hin as [[=]|[[= ->]|[]]]. split; [done|]. split.
    + by rewrite last_app.
    + apply Forall_app. split.
      * eapply Forall_impl; [exact Hsetup|]. by intros [[] ?].
      * by repeat constructor.
Qed.

(** *** Tearing down and switching engines *)

Lemma releasePage_removes pageId s :
  JsMap.get pageId (pagePool (this (releasePage pageId s).2)) = None.
Proof.
  unfold releasePage, PlaywrightService.releasePage. mrun.
  destruct (JsMap.get pageId (pagePool (this s))) as [info|] eqn:Hget; [|done].
  unfold bind, tryCatch, pageClose. rewrite run_perform_last.
  case_rejects; cbn; apply get_delete_eq.
Qed.

Lemma releaseContext_removes contextId s :
  JsMap.get contextId (contextPool (this (releaseContext contextId s).2)) = None.
Proof.
  pose proof (releaseContext_keeps contextId s) as [_ HE].
  revert HE. unfold releaseContext, PlaywrightService.releaseContext. mrun.
  destruct (JsMap.get contextId (contextPool (this s))) as [c|] eqn:Hget; [|done].
  rewrite <- !run_assoc.
  match goal with
  | |- context [bind ?m ?k s] =>
      destruct (m s) as [[[]|e] s1] eqn:Hbody;
      [rewrite (bind_ok m k _ _ _ Hbody)|rewrite (bind_throw m k _ _ _ Hbody)]
  end.
  - intros _. cbn. apply get_delete_eq.
  - intros HE. by destruct (HE e).
Qed.

Lemma released_get_none (s s' : State This) k :
  lift Released Teardown s s' ->
  (JsMap.get k (pagePool (this s)) = None ->
   JsMap.get k (pagePool (this s')) = None) /\
  (JsMap.get k (contextPool (this s)) = None ->
   JsMap.get k (contextPool (this s')) = None).
Proof.
  intros [[_ _ _ _ _ Hp Hc] _]. split; intros Hnone.
  - destruct (JsMap.get k (pagePool (this s'))) as [v|] eqn:E; [|done].
    apply Hp in E. congruence.
  - destruct (JsMap.get k (contextPool (this s'))) as [v|] eqn:E; [|done].
    apply Hc in E. congruence.
Qed.

(** The two loops of [closeAll] leave both pools empty and touch
    nothing else in the object; they do not throw. *)
Lemma releaseAll_run s :
  exists w',
    (pageIds <- getThis (fun t => JsMap.keys (pagePool t)) ;;
     forEach pageIds releasePage ;;
     contextIds <- getThis (fun t => JsMap.keys (contextPool t)) ;;
     forEach contextIds releaseContext) s
    = (Ok tt,
       mkState (mkThis (browser (this s)) (browserType (this s))
                  (isInitialized (this s)) [] []
                  (shouldUseHeadless (this s)) (selectedBrowserOption (this s)))
         w') /\
    Teardown (world s) w'.
Proof.
  mrun.
  destruct (forEach_establishes (lift Released Teardown)
              (fun k s' => JsMap.get k (pagePool (this s')) = None)
              (JsMap.keys (pagePool (this s))) releasePage
              releasePage_keeps releasePage_removes
              (fun k s1 s2 H => proj1 (released_get_none s1 s2 k H)) s)
    as (Hr1 & HR1 & Hgone1).
  destruct (forEach (JsMap.keys (pagePool (this s))) releasePage s)
    as [r1 s1] eqn:E1. simpl in Hr1, HR1, Hgone1. subst r1.
  rewrite (bind_ok _ _ _ _ _ E1). mrun.
  destruct (forEach_establishes (lift Released Teardown)
              (fun k s' => JsMap.get k (contextPool (this s')) = None)
              (JsMap.keys (contextPool (this s1))) releaseContext
              releaseContext_keeps releaseContext_removes
              (fun k sa sb H => proj2 (released_get_none sa sb k H)) s1)
    as (Hr2 & HR2 & Hgone2).
  destruct (forEach (JsMap.keys (contextPool (this s1))) releaseContext s1)
    as [r2 s2] eqn:E2. simpl in Hr2, HR2, Hgone2. subst r2.
  exists (world s2). split; [|by destruct HR1 as [_ ?], HR2 as [_ ?]; etrans].
  f_equal. destruct HR1 as [HF1 _], HR2 as [HF2 _].
  assert (Hpages1 : pagePool (this s1) = []).
  { apply get_none_nil. intros k.
    destruct (JsMap.get k (pagePool (this s1))) as [v|] eqn:E; [|done].
    rewrite <- E. apply Hgone1. apply get_keys.
    apply (rel_pagePool _ _ HF1) in E. by eexists. }
  assert (Hpages2 : pagePool (this s2) = []).
  { apply get_none_nil. intros k.
    destruct (JsMap.get k (pagePool (this s2))) as [v|] eqn:E; [|done].
    apply (rel_pagePool _ _ HF2) in E. by rewrite Hpages1 in E. }
  assert (Hctx2 : contextPool (this s2) = []).
  { apply get_none_nil. intros k.
    destruct (JsMap.get k (contextPool (this s2))) as [v|] eqn:E; [|done].
    rewrite <- E. apply Hgone2. apply get_keys.
    apply (rel_contextPool _ _ HF2) in E. by eexists. }
  destruct s2 as [t2 w2]. cbn [this world] in *. f_equal.
  destruct HF1, HF2. destruct t2. cbn in *. congruence.
Qed.



(** Initialising with the engine selected that is already running. *)
Lemma initializeBrowser_reuse s b :
  isInitialized (this s) = true ->
  browser (this s) = Some b ->
  browserEngine (world s) b = Some (selectedBrowserOption (this s)) ->
  rejects env (trace (world s)) (BrowserTypeName b) = None ->
  initializeBrowser s
  = (Ok b,
     mkState (this s)
       (logEvent (BrowserTypeName b,
                  Ok (VString (engineName (selectedBrowserOption (this s)))))
          (world s))).
Proof.
  intros Hinit Hb Hengine Hname.
  unfold initializeBrowser, PlaywrightService.initializeBrowser. mrun.
  rewrite Hinit. mrun. rewrite Hb. unfold browserTypeName. mrun. rewrite Hname. mrun.
  rewrite Hengine. cbn [fmap option_fmap option_map]. mrun.
  by rewrite decide_False by (intros H; by apply H).
Qed.


(** *** Looking a page up, reusing it, replacing it *)

Lemma getPage_run pageId s :
  getPage pageId s = (Ok (page <$> JsMap.get pageId (pagePool (this s))), s).
Proof. unfold getPage. mrun. by destruct s. Qed.






End Facts.
End ServiceFacts.

(** ** [PlaywrightManager] ([unnamed/part_001]) *)

Module ManagerFacts.
Import PlaywrightManager.

Global Instance mgr_Released_preorder : PreOrder Released.
Proof.
  split.
  - intros t. by split.
  - intros t1 t2 t3 [] []. split; try congruence; by etrans.
Qed.

Global Instance mgr_PoolsShrink_preorder : PreOrder PoolsShrink.
Proof.
  split.
  - intros t. by split.
  - intros t1 t2 t3 [] []. split; by etrans.
Qed.

Lemma mgr_Released_PoolsShrink t t' : Released t t' -> PoolsShrink t t'.
Proof. intros []. by split. Qed.

Section Facts.
Variable env : Environment.

Local Abbreviation releasePage := (releasePage env).
Local Abbreviation releaseContext := (releaseContext env).
Local Abbreviation closeAll := (closeAll env).
Local Abbreviation initializeBrowser := (initializeBrowser env).
Local Abbreviation getOrCreateContext := (getOrCreateContext env).
Local Abbreviation createPage := (createPage env).
Local Abbreviation ensureBrowser := (ensureBrowser env).
Local Abbreviation existingOrNewPage := (existingOrNewPage env).

Lemma mgr_releasePage_keeps pageId :
  keeps (lift Released Teardown) (fun _ => False) (releasePage pageId).
Proof.
  unfold releasePage, PlaywrightManager.releasePage. keeps_auto.
  intros t. split; try done. apply submap_delete.
Qed.

Lemma mgr_releaseContext_keeps contextId :
  keeps (lift Released Teardown) (fun _ => False) (releaseContext contextId).
Proof.
  unfold releaseContext, PlaywrightManager.releaseContext. keeps_auto.
  - eapply keeps_weaken; [| |apply mgr_releasePage_keeps]; [done|by intros].
  - apply mgr_releasePage_keeps.
  - intros t. split; try done. apply submap_delete.
Qed.

Lemma mgr_released_setup (s s' : State This) :
  lift Released Teardown s s' -> lift PoolsShrink (Evolves setupCall) s s'.
Proof. intros [HF HW]. split; [by apply mgr_Released_PoolsShrink|by apply Teardown_setup]. Qed.

Lemma mgr_shrink_any (s s' : State This) :
  lift PoolsShrink (Evolves setupCall) s s' -> lift anyThis (Evolves setupCall) s s'.
Proof. by intros [HF HW]. Qed.

Lemma mgr_closeAll_keeps :
  keeps (lift PoolsShrink (Evolves setupCall)) libraryError closeAll.
Proof.
  unfold closeAll, PlaywrightManager.closeAll. keeps_auto; try (by intros t).
  - eapply keeps_weaken; [| |apply mgr_releasePage_keeps];
      [apply mgr_released_setup|by intros].
  - eapply keeps_weaken; [| |apply mgr_releaseContext_keeps];
      [apply mgr_released_setup|by intros].
Qed.

Lemma mgr_initializeBrowser_keeps :
  keeps (lift PoolsShrink (Evolves setupCall)) libraryError initializeBrowser.
Proof.
  unfold initializeBrowser, PlaywrightManager.initializeBrowser.
  keeps_auto; try (by intros t). apply mgr_closeAll_keeps.
Qed.

Lemma mgr_ensureBrowser_keeps browserOption :
  keeps (lift PoolsShrink (Evolves setupCall)) libraryError
    (ensureBrowser browserOption).
Proof.
  unfold ensureBrowser, PlaywrightManager.ensureBrowser, init, setConfig.
  keeps_auto; try (by intros t). apply mgr_initializeBrowser_keeps.
Qed.

(** *** Contexts and pages *)

Lemma mgr_getOrCreateContext_keeps contextId :
  keeps (lift anyThis (Evolves setupCall))
    (fun e => libraryError e \/ exists id, e = ContextError id)
    (getOrCreateContext contextId).
Proof.
  unfold getOrCreateContext, PlaywrightManager.getOrCreateContext.
  keeps_auto; try (by intros t).
  - eapply keeps_weaken; [| |apply mgr_initializeBrowser_keeps];
      [apply mgr_shrink_any|by left].
  - right. by eexists.
Qed.

(** The lookup that ends [getOrCreateContext] finds the context: it was
    in the pool, or it has just been put there. *)
Lemma mgr_getOrCreateContext_run contextId s r s' :
  getOrCreateContext contextId s = (r, s') ->
  match r with
  | Ok c => JsMap.get contextId (contextPool (this s')) = Some c
  | Throw e => libraryError e
  end.
Proof.
  unfold getOrCreateContext, PlaywrightManager.getOrCreateContext. intros H.
  apply bind_inv in H as [(initialized & s0 & [[= ->] ->]%getThis_run & H)|(e & [[=] _]%getThis_run & _)].
  apply bind_inv in H as [([] & s1 & H1 & H)|(e & H1 & ->)].
  2:{ destruct (negb (isInitialized (this s))); [|by apply ret_run in H1 as [[=] _]].
      apply bind_inv in H1 as [(b & s1 & _ & [[=] _]%ret_run)|(e' & H1 & [= <-])].
      by apply (keeps_run _ _ _ _ _ _ (mgr_initializeBrowser_keeps) H1). }
  clear H1.
  apply bind_inv in H as [(pool & s2 & [[= ->] ->]%getThis_run & H)|(e & [[=] _]%getThis_run & _)].
  apply bind_inv in H as [([] & s3 & H3 & H)|(e & H3 & ->)].
  - assert (Hpool : is_Some (JsMap.get contextId (contextPool (this s3)))).
    { destruct (JsMap.has contextId (contextPool (this s1))) eqn:Hhas; simpl in H3.
      - apply ret_run in H3 as [_ ->]. by apply has_get.
      - apply bind_Ok_inv in H3 as (b & s4 & [_ ->]%getThis_run & H3).
        apply bind_Ok_inv in H3 as (b' & s5 & [-> _]%dereference_run & H3).
        apply bind_Ok_inv in H3 as (c & s6 & _ & H3).
        apply bind_Ok_inv in H3 as ([] & s7 & _ & H3).
        apply setThis_run in H3 as [_ ->]. simpl. rewrite get_set_eq. by eexists. }
    apply bind_inv in H as [(c & s4 & [[= ->] ->]%getThis_run & H)|(e & [[=] _]%getThis_run & _)].
    destruct Hpool as [c Hc]. rewrite Hc in H. apply ret_run in H as [-> ->]. done.
  - destruct (JsMap.has contextId (contextPool (this s1))); simpl in H3;
      [by apply ret_run in H3 as [[=] _]|].
    assert (Hk : keeps (lift anyThis (Evolves setupCall)) libraryError
              (b <- getThis browser ;;
               b0 <- dereference b ;;
               context <- newContext env b0 viewportWidth viewportHeight userAgent ;;
               addInitScript env context ;;
               setThis (setContextPool (JsMap.set contextId context)))).
    { keeps_auto. by intros t. }
    by apply (keeps_run _ _ _ _ _ _ Hk H3).
Qed.

Lemma mgr_getOrCreateContext_library contextId :
  keeps (lift anyThis (Evolves setupCall)) libraryError
    (getOrCreateContext contextId).
Proof.
  intros s. destruct (mgr_getOrCreateContext_keeps contextId s) as [HR _].
  split; [done|]. intros e He.
  pose proof (mgr_getOrCreateContext_run contextId s (Throw e)
                (getOrCreateContext contextId s).2) as Hrun.
  apply Hrun. rewrite <- He. apply surjective_pairing.
Qed.

Lemma mgr_createPage_keeps contextId pageId :
  keeps (lift anyThis (Evolves setupCall)) libraryError (createPage contextId pageId).
Proof.
  unfold createPage, PlaywrightManager.createPage. keeps_auto; try (by intros t).
  apply mgr_getOrCreateContext_library.
Qed.

Lemma mgr_existingOrNewPage_keeps contextId pageId :
  keeps (lift anyThis (Evolves setupCall)) libraryError
    (existingOrNewPage contextId pageId).
Proof.
  unfold existingOrNewPage, PlaywrightManager.existingOrNewPage, getPage.
  keeps_auto; apply mgr_createPage_keeps.
Qed.

Lemma mgr_ensureBrowser_any browserOption :
  keeps (lift anyThis (Evolves setupCall)) libraryError (ensureBrowser browserOption).
Proof.
  eapply keeps_weaken; [| |apply mgr_ensureBrowser_keeps]; [apply mgr_shrink_any|done].
Qed.

(** *** Introspection *)

Lemma mgr_getBrowserInfo_run s :
  exists info w',
    getBrowserInfo env s = (Ok info, mkState (this s) w') /\
    (info = NotInitialized <-> isInitialized (this s) = false) /\
    (forall name n conn cids pids,
        info = Initialized name n conn cids pids ->
        exists b,
          browser (this s) = Some b /\
          Some name = engineName <$> browserEngine (world s) b /\
          n = openContexts (world s) b /\
          conn = negb (browserConnected (world s) b) /\
          cids = JsMap.keys (contextPool (this s)) /\
          pids = JsMap.keys (pagePool (this s))) /\
    (forall call e,
        (call, Throw e) ∈ callsBetween (world s) w' ->
        info = InfoError (message e)) /\
    (forall b,
        isInitialized (this s) = true -> browser (this s) = Some b ->
        is_Some (browsers (world s) !! b) ->
        Forall (fun ev : Event => is_ok ev.2 = true) (callsBetween (world s) w') ->
        exists name n conn cids pids, info = Initialized name n conn cids pids).
Proof.
  destruct s as [t w]. unfold getBrowserInfo. mrun.
  destruct (isInitialized t) eqn:Hinit; cbn [negb].
  2:{ exists NotInitialized, w. repeat split; try done.
      intros call e. between. by intros ?%elem_of_nil. }
  unfold tryCatch, browserContextsLength, browserTypeName, browserIsConnected.
  mrun.
  destruct (browser t) as [b|] eqn:Hb.
  2:{ eexists _, w. split; [done|]. repeat split; try done.
      intros call e. between. by intros ?%elem_of_nil. }
  mrun. case_rejects.
  { eexists _, _. split; [done|]. repeat split; try done; info_case. }
  mrun. case_rejects.
  { eexists _, _. split; [done|]. repeat split; try done; info_case. }
  mrun. unfold browserEngine. cbn [browsers logEvent].
  destruct (browsers w !! b) as [o|] eqn:Ho; cbn [fmap option_fmap option_map].
  2:{ eexists _, _. split; [done|]. repeat split; try done; try info_case.
      intros b' _ [= <-] [o Ho']. congruence. }
  mrun. case_rejects.
  { eexists _, _. split; [done|]. repeat split; try done; info_case. }
  mrun. eexists _, _. split; [done|]. repeat split; try done; try info_case.
  - intros name n conn cids pids [= <- <- <- <- <-]. exists b.
    unfold browserConnected, browserEngine. cbn. by rewrite Ho.
  - intros b' _ _ _ _. by eexists _, _, _, _, _.
Qed.

(** *** Logging in *)

(** The calls of a login up to the page in hand are setup calls. *)
Lemma mgr_loginPrefix_run browserOption contextId pageId s r s' :
  (ensureBrowser browserOption ;; existingOrNewPage contextId pageId) s = (r, s') ->
  Evolves setupCall (world s) (world s') /\ forall e, r = Throw e -> libraryError e.
Proof.
  intros H.
  assert (Hk : keeps (lift anyThis (Evolves setupCall)) libraryError
            (ensureBrowser browserOption ;; existingOrNewPage contextId pageId)).
  { keeps_step; [apply mgr_ensureBrowser_any|apply mgr_existingOrNewPage_keeps]. }
  destruct (keeps_run _ _ _ _ _ _ Hk H) as [[_ HW] HE]. done.
Qed.

Lemma mgr_loginToCoupangSite_shortcut contextId pageId browserOption s r s' p :
  loginToCoupangSite env contextId pageId browserOption s = (r, s') ->
  (PageEvaluate p coupangLoginForm, Ok (VBool false))
    ∈ callsBetween (world s) (world s') ->
  r = Ok p /\
  last (callsBetween (world s) (world s'))
  = Some (PageEvaluate p coupangLoginForm, Ok (VBool false)) /\
  Forall (fun ev : Event => inputCall ev.1 = false)
    (callsBetween (world s) (world s')).
Proof.
  unfold loginToCoupangSite, tryCatch. rewrite <- run_assoc.
  destruct ((ensureBrowser browserOption ;; existingOrNewPage contextId pageId) s)
    as [[page|e] s2] eqn:Hpre;
    pose proof (mgr_loginPrefix_run _ _ _ _ _ _ Hpre) as [[(d & Hd & Hsetup) _ _] _].
  2:{ rewrite (bind_throw _ _ _ _ _ Hpre). mrun. intros [= <- <-].
      rewrite (callsBetween_app _ _ d Hd). intros Hin.
      by apply (proj1 (Forall_forall _ _) Hsetup) in Hin. }
  rewrite (bind_ok _ _ _ _ _ Hpre).
  unfold pageGoto, pageHasElement, pageFill, keyboardPress, pageWaitForLoadState.
  mrun. case_rejects; [login_threw Hd Hsetup|].
  mrun. case_rejects; [login_threw Hd Hsetup|]. mrun.
  destruct (elementPresent env _ page coupangLoginForm) eqn:Hform; cbn [negb].
  - repeat (mrun; case_rejects; [login_threw Hd Hsetup|]).
    login_threw Hd Hsetup.
  - mrun. intros [= <- <-]. between. rewrite Hd. between.
    rewrite elem_of_app, !elem_of_cons, elem_of_nil.
    intros [Hin|Hin].
    { by apply (proj1 (Forall_forall _ _) Hsetup) in Hin. }
    destruct Hin as [[=]|[[= ->]|[]]]. split; [done|]. split.
    + by rewrite last_app.
    + apply Forall_app. split.
      * eapply Forall_impl; [exact Hsetup|]. by intros [[] ?].
      * by repeat constructor.
Qed.

End Facts.
End ManagerFacts.

(** ** The claims about the browser managers *)

Module ManagerClaims.

(** C10.  [getOrCreateContext] never throws its own "Failed to create or
    get context" error, in either manager: when it returns, the context
    it returns is the one the pool holds under [contextId], and when it
    throws, the error comes from the browser library (or from a call on
    an undefined browser), so the branch after the lookup is dead. *)
Theorem getOrCreateContext_lookup_succeeds env contextId :
  (forall s : State PlaywrightService.This,
     match PlaywrightService.getOrCreateContext env contextId s with
     | (Ok context, s') =>
         JsMap.get contextId (PlaywrightService.contextPool (this s')) = Some context
     | (Throw e, _) => libraryError e /\ forall id, e <> ContextError id
     end) /\
  (forall s : State PlaywrightManager.This,
     match PlaywrightManager.getOrCreateContext env contextId s with
     | (Ok context, s') =>
         JsMap.get contextId (PlaywrightManager.contextPool (this s')) = Some context
     | (Throw e, _) => libraryError e /\ forall id, e <> ContextError id
     end).
Proof.
  split; intros s.
  - destruct (PlaywrightService.getOrCreateContext env contextId s) as [[c|e] s'] eqn:H;
      apply ServiceFacts.getOrCreateContext_run in H; [done|].
    split; [done|]. intros id ->. done.
  - destruct (PlaywrightManager.getOrCreateContext env contextId s) as [[c|e] s'] eqn:H;
      apply ManagerFacts.mgr_getOrCreateContext_run in H; [done|].
    split; [done|]. intros id ->. done.
Qed.

(** C7.  In both managers [getBrowserInfo] never throws and leaves the
    object as it is; it answers [not_initialized] exactly when the
    [isInitialized] flag is unset; a snapshot it answers has the engine
    name and the number of open contexts of the browser, the keys of the
    two pools, and as [isConnected] the negation of what the browser's
    [isConnected()] says; and if one of its calls into the library
    throws, it answers [error] with the message of what was thrown. *)
Theorem getBrowserInfo_snapshot env :
  (forall s : State PlaywrightService.This,
     exists info w',
       PlaywrightService.getBrowserInfo env s = (Ok info, mkState (this s) w') /\
       (info = NotInitialized <-> PlaywrightService.isInitialized (this s) = false) /\
       (forall name n conn cids pids,
          info = Initialized name n conn cids pids ->
          exists b,
            PlaywrightService.browser (this s) = Some b /\
            Some name = engineName <$> browserEngine (world s) b /\
            n = openContexts (world s) b /\
            conn = negb (browserConnected (world s) b) /\
            cids = JsMap.keys (PlaywrightService.contextPool (this s)) /\
            pids = JsMap.keys (PlaywrightService.pagePool (this s))) /\
       (forall call e,
          (call, Throw e) ∈ callsBetween (world s) w' ->
          info = InfoError (message e)) /\
       (forall b,
          PlaywrightService.isInitialized (this s) = true ->
          PlaywrightService.browser (this s) = Some b ->
          is_Some (browsers (world s) !! b) ->
          Forall (fun ev : Event => is_ok ev.2 = true) (callsBetween (world s) w') ->
          exists name n conn cids pids, info = Initialized name n conn cids pids)) /\
  (forall s : State PlaywrightManager.This,
     exists info w',
       PlaywrightManager.getBrowserInfo env s = (Ok info, mkState (this s) w') /\
       (info = NotInitialized <-> PlaywrightManager.isInitialized (this s) = false) /\
       (forall name n conn cids pids,
          info = Initialized name n conn cids pids ->
          exists b,
            PlaywrightManager.browser (this s) = Some b /\
            Some name = engineName <$> browserEngine (world s) b /\
            n = openContexts (world s) b /\
            conn = negb (browserConnected (world s) b) /\
            cids = JsMap.keys (PlaywrightManager.contextPool (this s)) /\
            pids = JsMap.keys (PlaywrightManager.pagePool (this s))) /\
       (forall call e,
          (call, Throw e) ∈ callsBetween (world s) w' ->
          info = InfoError (message e)) /\
       (forall b,
          PlaywrightManager.isInitialized (this s) = true ->
          PlaywrightManager.browser (this s) = Some b ->
          is_Some (browsers (world s) !! b) ->
          Forall (fun ev : Event => is_ok ev.2 = true) (callsBetween (world s) w') ->
          exists name n conn cids pids, info = Initialized name n conn cids pids)).
Proof.
  split; intros s.
  - apply ServiceFacts.getBrowserInfo_run.
  - apply ManagerFacts.mgr_getBrowserInfo_run.
Qed.

Lemma getBrowserInfo_snapshot_witness :
  ((PlaywrightService.getBrowserInfo Scenario.calm Scenario.firefoxSelected).1
   = Ok (Initialized "chromium" 1 false ["ctx"] ["p"]) /\
   browserConnected (world Scenario.firefoxSelected) 0 = true) /\
  (PlaywrightManager.getBrowserInfo Scenario.calm PlaywrightManager.newState).1
  = Ok NotInitialized.
Proof.
  split.
  - destruct (proj1 (getBrowserInfo_snapshot Scenario.calm) Scenario.firefoxSelected)
      as (info & w' & Hrun & _ & Hinit & _).
    assert (Hinfo : info = Initialized "chromium" 1 false ["ctx"] ["p"]).
    { vm_compute in Hrun. congruence. }
    destruct (Hinit _ _ _ _ _ Hinfo) as (b & Hb & _ & _ & Hconn & _).
    vm_compute in Hb. injection Hb as <-.
    split; [by rewrite Hrun, Hinfo|]. by destruct (browserConnected _ 0).
  - destruct (proj2 (getBrowserInfo_snapshot Scenario.calm) PlaywrightManager.newState)
      as (info & w' & Hrun & Hnot & _).
    rewrite Hrun. cbn [fst]. f_equal. by apply Hnot.
Defined.

(** C8.  In both managers: a run of [loginToCoupangSite] in which the
    detector for [.cp-loginpage__bg] answers that there is no such
    element on the page returns that page, the detector's answer is the
    last call it makes into the library, and no field is filled, nothing
    is clicked and no key is pressed in the whole run. *)
Theorem loginToCoupangSite_short_circuit env contextId pageId browserOption p :
  (forall (s : State PlaywrightService.This) r s',
     PlaywrightService.loginToCoupangSite env contextId pageId browserOption s = (r, s') ->
     (PageEvaluate p coupangLoginForm, Ok (VBool false))
       ∈ callsBetween (world s) (world s') ->
     r = Ok p /\
     last (callsBetween (world s) (world s'))
     = Some (PageEvaluate p coupangLoginForm, Ok (VBool false)) /\
     Forall (fun ev : Event => inputCall ev.1 = false)
       (callsBetween (world s) (world s'))) /\
  (forall (s : State PlaywrightManager.This) r s',
     PlaywrightManager.loginToCoupangSite env contextId pageId browserOption s = (r, s') ->
     (PageEvaluate p coupangLoginForm, Ok (VBool false))
       ∈ callsBetween (world s) (world s') ->
     r = Ok p /\
     last (callsBetween (world s) (world s'))
     = Some (PageEvaluate p coupangLoginForm, Ok (VBool false)) /\
     Forall (fun ev : Event => inputCall ev.1 = false)
       (callsBetween (world s) (world s'))).
Proof.
  split; intros s r s'.
  - apply ServiceFacts.loginToCoupangSite_shortcut.
  - apply ManagerFacts.mgr_loginToCoupangSite_shortcut.
Qed.

Lemma loginToCoupangSite_short_circuit_witness :
  ((PlaywrightService.loginToCoupangSite Scenario.calm "ctx" "p" chromium
      PlaywrightService.newState).1 = Ok 0 /\
   Forall (fun ev : Event => inputCall ev.1 = false)
     (trace (world (PlaywrightService.loginToCoupangSite Scenario.calm "ctx" "p"
                      chromium PlaywrightService.newState).2))) /\
  ((PlaywrightManager.loginToCoupangSite Scenario.calm "ctx" "p" webkit
      PlaywrightManager.newState).1 = Ok 0 /\
   Forall (fun ev : Event => inputCall ev.1 = false)
     (trace (world (PlaywrightManager.loginToCoupangSite Scenario.calm "ctx" "p"
                      webkit PlaywrightManager.newState).2))).
Proof.
  split.
  - destruct (proj1 (loginToCoupangSite_short_circuit Scenario.calm "ctx" "p" chromium 0)
                PlaywrightService.newState
                (PlaywrightService.loginToCoupangSite Scenario.calm "ctx" "p" chromium
                   PlaywrightService.newState).1
                (PlaywrightService.loginToCoupangSite Scenario.calm "ctx" "p" chromium
                   PlaywrightService.newState).2)
      as (Hr & _ & Hcalls).
    + vm_compute. reflexivity.
    + vm_compute. repeat constructor.
    + split; [exact Hr|exact Hcalls].
  - destruct (proj2 (loginToCoupangSite_short_circuit Scenario.calm "ctx" "p" webkit 0)
                PlaywrightManager.newState
                (PlaywrightManager.loginToCoupangSite Scenario.calm "ctx" "p" webkit
                   PlaywrightManager.newState).1
                (PlaywrightManager.loginToCoupangSite Scenario.calm "ctx" "p" webkit
                   PlaywrightManager.newState).2)
      as (Hr & _ & Hcalls).
    + vm_compute. reflexivity.
    + vm_compute. repeat constructor.
    + split; [exact Hr|exact Hcalls].
Defined.






End ManagerClaims.

(** ** More about [PlaywrightService] *)

Lemma alter_app_last {A} (f : A -> A) (l : list A) x :
  alter f (length l) (l ++ [x]) = l ++ [f x].
Proof. by rewrite alter_app_r_alt, Nat.sub_diag by lia. Qed.

Lemma browserEngine_logEvent ev w b : browserEngine (logEvent ev w) b = browserEngine w b.
Proof. done. Qed.

(** The fields of the service with [f] applied to the flag. *)
Ltac fields :=
  cbn [PlaywrightService.setBrowserType PlaywrightService.setIsInitialized
       PlaywrightService.setBrowser PlaywrightService.setPagePool
       PlaywrightService.setContextPool PlaywrightService.isInitialized
       PlaywrightService.browserType PlaywrightService.browser
       PlaywrightService.selectedBrowserOption PlaywrightService.shouldUseHeadless
       PlaywrightService.pagePool PlaywrightService.contextPool negb].

Module ServiceMore.
Import PlaywrightService ServiceFacts.

Section Facts.
Variable env : Environment.

Local Abbreviation releasePage := (releasePage env).
Local Abbreviation releaseContext := (releaseContext env).
Local Abbreviation closeAll := (closeAll env).
Local Abbreviation initializeBrowser := (initializeBrowser env).
Local Abbreviation init := (init env).
Local Abbreviation getOrCreateContext := (getOrCreateContext env).
Local Abbreviation createPage := (createPage env).

(** *** [closeAll] *)

Lemma closeAll_cases s :
  exists w1,
    Teardown (world s) w1 /\
    closeAll s
    = match browser (this s) with
      | None =>
          (Ok tt,
           mkState (mkThis None (browserType (this s)) (isInitialized (this s)) [] []
                      (shouldUseHeadless (this s)) (selectedBrowserOption (this s)))
             w1)
      | Some b =>
          match rejects env (trace w1) (BrowserClose b) with
          | Some msg =>
              (Throw (ExternalError msg),
               mkState (mkThis (Some b) (browserType (this s)) (isInitialized (this s))
                          [] [] (shouldUseHeadless (this s))
                          (selectedBrowserOption (this s)))
                 (logEvent (BrowserClose b, Throw (ExternalError msg)) w1))
          | None =>
              (Ok tt,
               mkState (mkThis (Some b) (browserType (this s)) false [] []
                          (shouldUseHeadless (this s)) (selectedBrowserOption (this s)))
                 (logEvent (BrowserClose b, Ok VUndefined) (closeBrowser b w1)))
          end
      end.
Proof.
  destruct (releaseAll_run env s) as (w1 & Hloops & Htd).
  exists w1. split; [done|].
  transitivity
    (((pageIds <- getThis (fun t => JsMap.keys (pagePool t)) ;;
       forEach pageIds releasePage ;;
       contextIds <- getThis (fun t => JsMap.keys (contextPool t)) ;;
       forEach contextIds releaseContext) ;;
      b <- getThis browser ;;
      match b with
      | Some b => browserClose env b ;; setThis (setIsInitialized false)
      | None => ret tt
      end) s).
  { unfold closeAll, PlaywrightService.closeAll, bind, getThis, gets. cbn.
    destruct (forEach _ releasePage s) as [[[]|e] s1]; [|done].
    by destruct (forEach _ releaseContext s1) as [[[]|e] s2]. }
  rewrite (bind_ok _ _ _ _ _ Hloops). mrun. cbn [browser].
  destruct (browser (this s)) as [b|]; [|done].
  unfold browserClose. mrun. case_rejects; [done|]. by mrun.
Qed.

(** *** [initializeBrowser] *)

(** On a service that is not initialised. *)
Lemma initializeBrowser_first s :
  isInitialized (this s) = false ->
  initializeBrowser s
  = match rejects env (trace (world s))
            (Launch (selectedBrowserOption (this s)) (shouldUseHeadless (this s))
               launchArgs) with
    | Some msg =>
        (Throw (ExternalError msg),
         mkState (setBrowserType (selectedBrowserOption (this s)) (this s))
           (logEvent
              (Launch (selectedBrowserOption (this s)) (shouldUseHeadless (this s))
                 launchArgs, Throw (ExternalError msg))
              (world s)))
    | None =>
        let launched :=
          (Launch (selectedBrowserOption (this s)) (shouldUseHeadless (this s))
             launchArgs, Ok (VObject (length (browsers (world s))))) in
        (Ok (length (browsers (world s))),
         mkState
           (mkThis (Some (length (browsers (world s))))
              (Some (selectedBrowserOption (this s))) true
              (pagePool (this s)) (contextPool (this s))
              (shouldUseHeadless (this s)) (selectedBrowserOption (this s)))
           (mkWorld
              (browsers (world s)
               ++ [mkBrowserObj (selectedBrowserOption (this s))
                     (shouldUseHeadless (this s)) true
                     (Some (pretty (now env (trace (world s) ++ [launched]))))])
              (contexts (world s)) (pages (world s))
              (trace (world s) ++ [launched])))
    end.
Proof.
  intros Hinit.
  assert (Hsel : match selectedBrowserOption (this s) with
                 | chromium => chromium
                 | firefox => firefox
                 | webkit => webkit
                 end = selectedBrowserOption (this s))
    by (by destruct (selectedBrowserOption _)).
  unfold initializeBrowser, PlaywrightService.initializeBrowser. mrun.
  rewrite Hinit. mrun. rewrite Hinit. cbn [negb]. mrun. rewrite Hsel.
  fields. mrun. unfold launch. mrun. fields.
  case_rejects; [done|]. mrun.
  unfold dateNow, setInstanceId, gets, modify, bind, consoleLog, setThis, getThis,
    ret, dereference. cbn. fields.
  by rewrite alter_app_last.
Qed.

(** With another engine selected than the one running: [closeAll], then
    as on a service that is not initialised. *)
Lemma initializeBrowser_switch_eq s b running :
  isInitialized (this s) = true ->
  browser (this s) = Some b ->
  rejects env (trace (world s)) (BrowserTypeName b) = None ->
  browserEngine (world s) b = Some running ->
  running <> selectedBrowserOption (this s) ->
  initializeBrowser s
  = (closeAll ;; setThis (setIsInitialized false) ;; initializeBrowser)
      (mkState (this s)
         (logEvent (BrowserTypeName b, Ok (VString (engineName running))) (world s))).
Proof.
  intros Hinit Hb Hname Hengine Hne.
  unfold initializeBrowser at 1, PlaywrightService.initializeBrowser. mrun.
  rewrite Hinit. mrun. rewrite Hb. unfold browserTypeName. mrun. rewrite Hname. mrun.
  rewrite Hengine. cbn [fmap option_fmap option_map]. mrun.
  rewrite decide_True by (intros ?%engineName_inj; done). mrun.
  match goal with
  | |- bind closeAll ?k1 ?st = bind closeAll ?k2 ?st =>
      destruct (closeAll st) as [[[]|e] s1] eqn:Hca;
      [rewrite !(bind_ok _ _ _ _ _ Hca)|by rewrite !(bind_throw _ _ _ _ _ Hca)]
  end.
  mrun. unfold initializeBrowser, PlaywrightService.initializeBrowser. mrun. fields.
  by mrun.
Qed.

(** What a successful [initializeBrowser] leaves behind. *)
Lemma initializeBrowser_ok s b s' :
  initializeBrowser s = (Ok b, s') ->
  browser (this s') = Some b /\
  isInitialized (this s') = true /\
  browserEngine (world s') b = Some (selectedBrowserOption (this s)) /\
  selectedBrowserOption (this s') = selectedBrowserOption (this s) /\
  shouldUseHeadless (this s') = shouldUseHeadless (this s).
Proof.
  assert (Hnew : forall (s0 : State This) b0 s0',
            isInitialized (this s0) = false ->
            initializeBrowser s0 = (Ok b0, s0') ->
            browser (this s0') = Some b0 /\ isInitialized (this s0') = true /\
            browserEngine (world s0') b0 = Some (selectedBrowserOption (this s0)) /\
            selectedBrowserOption (this s0') = selectedBrowserOption (this s0) /\
            shouldUseHeadless (this s0') = shouldUseHeadless (this s0)).
  { intros s0 b0 s0' Hinit0. rewrite (initializeBrowser_first s0 Hinit0).
    case_rejects; [done|]. cbn zeta. intros [= <- <-]. cbn.
    unfold browserEngine. cbn. by rewrite lookup_app_r, Nat.sub_diag by lia. }
  destruct (isInitialized (this s)) eqn:Hinit; [|by apply Hnew].
  destruct (browser (this s)) as [b0|] eqn:Hb.
  2:{ unfold initializeBrowser, PlaywrightService.initializeBrowser. mrun.
      rewrite Hinit. mrun. rewrite Hb. by mrun. }
  destruct (rejects env (trace (world s)) (BrowserTypeName b0)) as [msg|] eqn:Hname.
  { unfold initializeBrowser, PlaywrightService.initializeBrowser. mrun.
    rewrite Hinit. mrun. rewrite Hb. unfold browserTypeName. mrun.
    rewrite Hname. by mrun. }
  destruct (browserEngine (world s) b0) as [running|] eqn:Hengine.
  2:{ unfold initializeBrowser, PlaywrightService.initializeBrowser. mrun.
      rewrite Hinit. mrun. rewrite Hb. unfold browserTypeName. mrun.
      rewrite Hname. mrun. rewrite Hengine. cbn [fmap option_fmap option_map].
      by mrun. }
  destruct (decide (running = selectedBrowserOption (this s))) as [->|Hne].
  - unfold initializeBrowser, PlaywrightService.initializeBrowser. mrun.
    rewrite Hinit. mrun. rewrite Hb. unfold browserTypeName. mrun.
    rewrite Hname. mrun. rewrite Hengine. cbn [fmap option_fmap option_map]. mrun.
    rewrite decide_False by (intros H; by apply H). mrun.
    intros [= <- <-]. cbn [this world]. by rewrite browserEngine_logEvent.
  - rewrite (initializeBrowser_switch_eq s b0 running Hinit Hb Hname Hengine Hne).
    intros ([] & s1 & Hca & H)%bind_Ok_inv.
    revert H. mrun. intros H.
    destruct (closeAll_cases
                (mkState (this s)
                   (logEvent (BrowserTypeName b0, Ok (VString (engineName running)))
                      (world s)))) as (w1 & _ & Hcases).
    rewrite Hca in Hcases. cbn [this browser] in Hcases. rewrite Hb in Hcases.
    destruct (rejects env (trace w1) (BrowserClose b0)); [done|].
    injection Hcases as ->.
    apply Hnew in H; [|done]. revert H. cbn [this world]. fields. done.
Qed.

(** [init] is [setConfig] followed by [initializeBrowser]. *)
Lemma init_ok headless browserOption s b s' :
  init headless browserOption s = (Ok b, s') ->
  browser (this s') = Some b /\
  isInitialized (this s') = true /\
  browserEngine (world s') b = Some browserOption /\
  selectedBrowserOption (this s') = browserOption /\
  shouldUseHeadless (this s') = headless.
Proof.
  unfold init, PlaywrightService.init, setConfig. mrun.
  by intros H%initializeBrowser_ok.
Qed.

End Facts.
End ServiceMore.

(** ** Contexts and pages of [PlaywrightService] *)

Module ServicePages.
Import PlaywrightService ServiceFacts ServiceMore Naming.

Section Facts.
Variable env : Environment.

Local Abbreviation initializeBrowser := (initializeBrowser env).
Local Abbreviation getOrCreateContext := (getOrCreateContext env).
Local Abbreviation createPage := (createPage env).

(** *** [getOrCreateContext] *)

Lemma getOrCreateContext_initialized s contextId :
  isInitialized (this s) = true ->
  getOrCreateContext contextId s
  = match JsMap.get contextId (contextPool (this s)) with
    | Some context => (Ok context, s)
    | None =>
        match browser (this s) with
        | None => (Throw (TypeError "Cannot read properties of undefined"), s)
        | Some b =>
            let call := NewContext b viewportWidth viewportHeight userAgent in
            match rejects env (trace (world s)) call with
            | Some msg =>
                (Throw (ExternalError msg),
                 mkState (this s) (logEvent (call, Throw (ExternalError msg)) (world s)))
            | None =>
                let context := length (contexts (world s)) in
                let w1 :=
                  logEvent (call, Ok (VObject context))
                    (mkWorld (browsers (world s))
                       (contexts (world s) ++ [mkContextObj b false])
                       (pages (world s)) (trace (world s))) in
                match rejects env (trace w1) (AddInitScript context) with
                | Some msg =>
                    (Throw (ExternalError msg),
                     mkState (this s)
                       (logEvent (AddInitScript context, Throw (ExternalError msg)) w1))
                | None =>
                    (Ok context,
                     mkState (setContextPool (JsMap.set contextId context) (this s))
                       (logEvent (AddInitScript context, Ok VUndefined) w1))
                end
            end
        end
    end.
Proof.
  intros Hinit. unfold getOrCreateContext, PlaywrightService.getOrCreateContext.
  mrun. rewrite Hinit. cbn [negb]. mrun. unfold JsMap.has.
  destruct (JsMap.get contextId (contextPool (this s))) as [c|] eqn:Hc; cbn [negb].
  { mrun. rewrite Hc. by destruct s. }
  mrun. destruct (browser (this s)) as [b|]; [|done]. mrun.
  unfold newContext, addInitScript. mrun. cbn zeta.
  case_rejects; [done|]. mrun. case_rejects; [done|]. mrun. fields.
  by rewrite get_set_eq.
Qed.

Lemma getOrCreateContext_uninitialized s contextId :
  isInitialized (this s) = false ->
  getOrCreateContext contextId s
  = (initializeBrowser ;; getOrCreateContext contextId) s.
Proof.
  intros Hinit. unfold getOrCreateContext at 1, PlaywrightService.getOrCreateContext.
  mrun. rewrite Hinit. cbn [negb]. mrun.
  destruct (initializeBrowser s) as [[b|e] s1] eqn:Hib.
  2:{ by rewrite !(bind_throw _ _ _ _ _ Hib). }
  rewrite !(bind_ok _ _ _ _ _ Hib).
  destruct (initializeBrowser_ok env _ _ _ Hib) as (_ & Hinit1 & _).
  unfold getOrCreateContext, PlaywrightService.getOrCreateContext.
  mrun. rewrite Hinit1. cbn [negb]. by mrun.
Qed.

(** What [getOrCreateContext] leaves alone, however it ends. *)
Lemma getOrCreateContext_frame s contextId :
  pagePool (this (getOrCreateContext contextId s).2) = pagePool (this s) /\
  pages (world (getOrCreateContext contextId s).2) = pages (world s) /\
  contexts (world s) `prefix_of` contexts (world (getOrCreateContext contextId s).2) /\
  (forall other, other <> contextId ->
     JsMap.get other (contextPool (this (getOrCreateContext contextId s).2))
     = JsMap.get other (contextPool (this s))) /\
  (is_ok (getOrCreateContext contextId s).1 = false ->
   contextPool (this (getOrCreateContext contextId s).2) = contextPool (this s)).
Proof.
  assert (Hinitialized : forall s0 : State This,
            isInitialized (this s0) = true ->
            pagePool (this (getOrCreateContext contextId s0).2) = pagePool (this s0) /\
            pages (world (getOrCreateContext contextId s0).2) = pages (world s0) /\
            contexts (world s0)
              `prefix_of` contexts (world (getOrCreateContext contextId s0).2) /\
            (forall other, other <> contextId ->
               JsMap.get other (contextPool (this (getOrCreateContext contextId s0).2))
               = JsMap.get other (contextPool (this s0))) /\
            (is_ok (getOrCreateContext contextId s0).1 = false ->
             contextPool (this (getOrCreateContext contextId s0).2)
             = contextPool (this s0))).
  { intros s0 Hinit. rewrite (getOrCreateContext_initialized s0 contextId Hinit).
    destruct (JsMap.get contextId (contextPool (this s0))) as [c|]; [done|].
    destruct (browser (this s0)) as [b|]; [|done]. cbn zeta.
    case_rejects; [done|]. case_rejects; cbn; fields.
    - repeat split; try done. by apply prefix_app_r.
    - repeat split; try done; [by apply prefix_app_r|].
      intros other Hne. by rewrite get_set_ne. }
  destruct (isInitialized (this s)) eqn:Hinit; [by apply Hinitialized|].
  rewrite (getOrCreateContext_uninitialized s contextId Hinit). unfold bind.
  rewrite (initializeBrowser_first env s Hinit).
  case_rejects; [done|]. cbv beta iota zeta.
  match goal with
  | |- context [getOrCreateContext contextId ?st] =>
      destruct (Hinitialized st eq_refl) as (-> & -> & Hctx & Hother & Hfail)
  end.
  done.
Qed.

(** *** [createPage] *)

Lemma createPage_cases s contextId pageId :
  createPage contextId pageId s
  = match getOrCreateContext contextId s with
    | (Throw e, s1) => (Throw e, s1)
    | (Ok context, s1) =>
        match rejects env (trace (world s1)) (ContextNewPage context) with
        | Some msg =>
            (Throw (ExternalError msg),
             mkState (this s1)
               (logEvent (ContextNewPage context, Throw (ExternalError msg)) (world s1)))
        | None =>
            let page := length (pages (world s1)) in
            let w2 :=
              logEvent (ContextNewPage context, Ok (VObject page))
                (mkWorld (browsers (world s1)) (contexts (world s1))
                   (pages (world s1) ++ [mkPageObj context false]) (trace (world s1))) in
            let t2 := setPagePool (JsMap.set pageId (mkPageInfo page contextId)) (this s1) in
            match rejects env (trace w2) (PageRoute page "**/*" 1) with
            | Some msg =>
                (Throw (ExternalError msg),
                 mkState t2 (logEvent (PageRoute page "**/*" 1, Throw (ExternalError msg)) w2))
            | None =>
                (Ok page,
                 mkState t2 (logEvent (PageRoute page "**/*" 1, Ok VUndefined) w2))
            end
        end
    end.
Proof.
  unfold createPage, PlaywrightService.createPage.
  destruct (getOrCreateContext contextId s) as [[c|e] s1] eqn:Hc.
  2:{ by rewrite (bind_throw _ _ _ _ _ Hc). }
  rewrite (bind_ok _ _ _ _ _ Hc). unfold contextNewPage, pageRoute. mrun.
  case_rejects; [done|]. mrun. cbn zeta. case_rejects; [done|]. by mrun.
Qed.

Lemma createPage_facts s contextId pageId :
  match createPage contextId pageId s with
  | (Ok page, s') =>
      page = length (pages (world s)) /\
      (exists context,
         JsMap.get contextId (contextPool (this s')) = Some context /\
         pages (world s') = pages (world s) ++ [mkPageObj context false]) /\
      pagePool (this s')
      = JsMap.set pageId (mkPageInfo page contextId) (pagePool (this s))
  | (Throw e, s') =>
      libraryError e /\
      (pagePool (this s') = pagePool (this s) /\ pages (world s') = pages (world s) \/
       exists context msg,
         last (trace (world s'))
         = Some (PageRoute (length (pages (world s))) "**/*" 1,
                 Throw (ExternalError msg)) /\
         pagePool (this s')
         = JsMap.set pageId (mkPageInfo (length (pages (world s))) contextId)
             (pagePool (this s)) /\
         pages (world s') = pages (world s) ++ [mkPageObj context false])
  end.
Proof.
  rewrite createPage_cases.
  pose proof (getOrCreateContext_frame s contextId) as (Hpool & Hpages & _).
  pose proof (getOrCreateContext_run env contextId s) as Hrun.
  destruct (getOrCreateContext contextId s) as [[c|e] s1] eqn:Hc;
    specialize (Hrun _ _ eq_refl); cbn [fst snd] in *.
  2:{ split; [done|]. by left. }
  case_rejects.
  { split; [done|]. left. by rewrite <- Hpool, <- Hpages. }
  cbn zeta. case_rejects; cbn [this world]; fields.
  - split; [done|]. right. exists c. eexists. cbn [trace logEvent].
    rewrite last_snoc, Hpages, Hpool. done.
  - rewrite Hpages, Hpool. split; [done|]. split; [|done]. by exists c.
Qed.

(** *** [createParallelPages] *)

Lemma parallelPageId_inj store cronId i j :
  parallelPageId store cronId i = parallelPageId store cronId j -> i = j.
Proof.
  unfold parallelPageId. intros H.
  do 5 apply (inj (String.append _)) in H.
  apply (inj pretty) in H. lia.
Qed.

Section Loop.
Variables store cronId contextId : string.

Local Abbreviation pid := (parallelPageId store cronId).
Local Abbreviation loop := (parallelPagesLoop env store cronId contextId).

(** One round of the loop. *)
Lemma parallelPagesLoop_round i n acc s :
  loop i (S n) acc s
  = match JsMap.get (pid i) (pagePool (this s)) with
    | Some info =>
        if decide (PlaywrightService.contextId info = contextId)
        then loop (S i) n (acc ++ [page info]) s
        else (newPage <- createPage contextId (pid i) ;;
              loop (S i) n (acc ++ [newPage])) s
    | None =>
        (newPage <- createPage contextId (pid i) ;;
         loop (S i) n (acc ++ [newPage])) s
    end.
Proof.
  cbn [parallelPagesLoop]. fold (pid i).
  rewrite (bind_ok _ _ _ _ _ (getPage_run (pid i) s)). mrun.
  destruct (JsMap.get (pid i) (pagePool (this s))) as [info|]; [|done].
  cbn [fmap option_fmap option_map]. by destruct (decide _).
Qed.

Lemma parallelPagesLoop_ok n : forall i acc s ps s',
  loop i n acc s = (Ok ps, s') ->
  exists new,
    ps = acc ++ new /\ length new = n /\
    (forall j, j < n ->
       exists page,
         new !! j = Some page /\
         JsMap.get (pid (i + j)) (pagePool (this s')) = Some (mkPageInfo page contextId)) /\
    (forall k, (forall j, j < n -> k <> pid (i + j)) ->
       JsMap.get k (pagePool (this s')) = JsMap.get k (pagePool (this s))).
Proof.
  induction n as [|n IH]; intros i acc s ps s'.
  { intros [= <- <-]. exists []. rewrite app_nil_r.
    repeat split; try done. intros j Hj. lia. }
  rewrite parallelPagesLoop_round.
  assert (Hcreate :
    (newPage <- createPage contextId (pid i) ;; loop (S i) n (acc ++ [newPage])) s
    = (Ok ps, s') ->
    exists new,
      ps = acc ++ new /\ length new = S n /\
      (forall j, j < S n ->
         exists page,
           new !! j = Some page /\
           JsMap.get (pid (i + j)) (pagePool (this s'))
           = Some (mkPageInfo page contextId)) /\
      (forall k, (forall j, j < S n -> k <> pid (i + j)) ->
         JsMap.get k (pagePool (this s')) = JsMap.get k (pagePool (this s)))).
  { intros (pg & s1 & Hpage & Hrest)%bind_Ok_inv.
    pose proof (createPage_facts s contextId (pid i)) as Hfacts.
    rewrite Hpage in Hfacts. destruct Hfacts as (_ & _ & Hpool).
    destruct (IH _ _ _ _ _ Hrest) as (new & -> & Hlen & Hentries & Hframe).
    exists (pg :: new). rewrite <- app_assoc. split; [done|].
    split; [simpl; lia|]. split.
    - intros [|j] Hj.
      + exists pg. split; [done|]. rewrite Nat.add_0_r, Hframe, Hpool.
        * by rewrite get_set_eq.
        * intros j Hj' Heq%parallelPageId_inj. lia.
      + destruct (Hentries j ltac:(lia)) as (pg' & Hnew & Hget).
        exists pg'. split; [done|]. by replace (i + S j) with (S i + j) by lia.
    - intros k Hk. rewrite Hframe, Hpool.
      + rewrite get_set_ne; [done|]. specialize (Hk 0 ltac:(lia)).
        rewrite Nat.add_0_r in Hk. done.
      + intros j Hj. replace (S i + j) with (i + S j) by lia. apply Hk. lia. }
  destruct (JsMap.get (pid i) (pagePool (this s))) as [info|] eqn:Hinfo; [|done].
  destruct (decide (PlaywrightService.contextId info = contextId)) as [Hctx|]; [|done].
  intros Hrest.
  destruct (IH _ _ _ _ _ Hrest) as (new & -> & Hlen & Hentries & Hframe).
  exists (page info :: new). rewrite <- app_assoc. split; [done|].
  split; [simpl; lia|]. split.
  - intros [|j] Hj.
    + exists (page info). split; [done|]. rewrite Nat.add_0_r, Hframe, Hinfo.
      * destruct info. simpl in Hctx. by subst.
      * intros j Hj' Heq%parallelPageId_inj. lia.
    + destruct (Hentries j ltac:(lia)) as (pg' & Hnew & Hget).
      exists pg'. split; [done|]. by replace (i + S j) with (S i + j) by lia.
  - intros k Hk. apply Hframe.
    intros j Hj. replace (S i + j) with (i + S j) by lia. apply Hk. lia.
Qed.

Lemma parallelPagesLoop_reuse n : forall i acc s new,
  length new = n ->
  (forall j, j < n ->
     exists page,
       new !! j = Some page /\
       JsMap.get (pid (i + j)) (pagePool (this s)) = Some (mkPageInfo page contextId)) ->
  loop i n acc s = (Ok (acc ++ new), s).
Proof.
  induction n as [|n IH]; intros i acc s new Hlen Hentries.
  { destruct new; [|done]. by rewrite app_nil_r. }
  destruct new as [|pg new]; [done|].
  rewrite parallelPagesLoop_round.
  destruct (Hentries 0 ltac:(lia)) as (pg0 & [= <-] & Hget).
  rewrite Nat.add_0_r in Hget. rewrite Hget. cbn [PlaywrightService.contextId page].
  rewrite decide_True by done.
  rewrite (IH (S i) (acc ++ [pg]) s new); [by rewrite <- app_assoc|by injection Hlen|].
  intros j Hj. destruct (Hentries (S j) ltac:(lia)) as (pg' & Hnew & Hget').
  exists pg'. split; [done|]. by replace (S i + j) with (i + S j) by lia.
Qed.

End Loop.

End Facts.
End ServicePages.

(** ** Releasing pages and contexts *)

Global Instance Quiet_preorder : PreOrder Quietly.Quiet.
Proof.
  split.
  - intros w. split; [reflexivity|done].
  - intros w1 w2 w3 [T1 C1] [T2 C2]. split; [by etrans|].
    intros p. by rewrite C2, C1.
Qed.

Lemma get_elem_of {V} k (m : JsMap.t V) v : JsMap.get k m = Some v -> (k, v) ∈ m.
Proof.
  induction m as [|[k' v'] m IH]; simpl; [done|].
  destruct (decide (k' = k)) as [->|Hne].
  - intros [= ->]. apply list_elem_of_here.
  - intros H. apply list_elem_of_further. by apply IH.
Qed.

Lemma pageContext_closePage p w q : pageContext (closePage p w) q = pageContext w q.
Proof.
  unfold pageContext, closePage. cbn. destruct (decide (q = p)) as [->|Hne].
  - rewrite list_lookup_alter_eq. by destruct (pages w !! p).
  - by rewrite list_lookup_alter_ne.
Qed.

Lemma pageContext_closeContext c w q :
  pageContext (closeContext c w) q = pageContext w q.
Proof.
  unfold pageContext, closeContext. cbn. rewrite list_lookup_fmap.
  destruct (pages w !! q) as [o|]; [|done]. cbn. by destruct (decide _).
Qed.

Section Quiet.
Variable env : Environment.
Context {This : Type} (F : This -> This -> Prop) `{!PreOrder F}.
Context (E : JsError -> Prop) `{!Covers E}.

Lemma perform_quiet {A} (call : Call) (run : World -> A * World) (value : A -> Value) :
  teardownCall call = true -> Gentle (fun w => (run w).2) ->
  (forall w, browsers (run w).2 = browsers w) ->
  (forall w p, pageContext (run w).2 p = pageContext w p) ->
  keeps (lift F Quietly.Quiet) E (perform (This := This) env call run value).
Proof.
  intros Hcall Hrun Hb Hc. apply perform_keeps; try apply _.
  - intros w. unfold Quietly.Quiet. split; [|apply Hc]. split; [|apply Hb].
    by apply (Evolves_gentle teardownCall _ w Hrun).
  - intros w outcome. unfold Quietly.Quiet. split; [|done]. split; [|done].
    by apply Evolves_logEvent.
Qed.

End Quiet.

Ltac quiet_step :=
  first
    [ apply perform_quiet; try apply _;
      [ reflexivity | gentle | by intros
      | intros; first [apply pageContext_closePage|apply pageContext_closeContext|done] ]
    | keeps_step ].

Ltac quiet_auto := repeat (keeps_unfold; quiet_step).

Module ServiceRelease.
Import PlaywrightService ServiceFacts ServiceMore Quietly.

Section Facts.
Variable env : Environment.

Local Abbreviation releasePage := (releasePage env).
Local Abbreviation releaseContext := (releaseContext env).

(** *** [releasePage] *)

Lemma releasePage_quiet pageId :
  keeps (lift Released Quiet) (fun _ => False) (releasePage pageId).
Proof.
  unfold releasePage, PlaywrightService.releasePage. quiet_auto.
  intros t. split; try done. apply submap_delete.
Qed.

Lemma releasePage_cases pageId s :
  releasePage pageId s
  = (Ok tt,
     match JsMap.get pageId (pagePool (this s)) with
     | None => s
     | Some info =>
         mkState (setPagePool (JsMap.delete pageId) (this s))
           match rejects env (trace (world s)) (PageClose (page info)) with
           | Some msg =>
               logEvent (PageClose (page info), Throw (ExternalError msg)) (world s)
           | None =>
               logEvent (PageClose (page info), Ok VUndefined)
                 (closePage (page info) (world s))
           end
     end).
Proof.
  unfold releasePage, PlaywrightService.releasePage. mrun.
  destruct (JsMap.get pageId (pagePool (this s))) as [info|]; [|by destruct s].
  unfold bind, tryCatch, pageClose. rewrite run_perform_last.
  by case_rejects.
Qed.

Lemma releasePage_contextPool pageId s :
  contextPool (this (releasePage pageId s).2) = contextPool (this s).
Proof. rewrite releasePage_cases. cbn. by destruct (JsMap.get _ _). Qed.

(** *** [releaseContext] *)

Lemma releaseContext_quiet contextId :
  keeps (lift Released Quiet) (fun _ => False) (releaseContext contextId).
Proof.
  unfold releaseContext, PlaywrightService.releaseContext. quiet_auto.
  - eapply keeps_weaken; [| |apply releasePage_quiet]; [done|by intros].
  - apply releasePage_quiet.
  - intros t. split; try done. apply submap_delete.
Qed.

Lemma releaseContext_absent contextId s :
  JsMap.get contextId (contextPool (this s)) = None ->
  releaseContext contextId s = (Ok tt, s).
Proof.
  intros Hc. unfold releaseContext, PlaywrightService.releaseContext. mrun.
  rewrite Hc. by destruct s.
Qed.

(** One round of the loop of [releaseContext] for the context object
    [context]. *)
Local Abbreviation round context entry :=
  (tryCatch
     (pageContext <- pageGetContext env (page (snd entry)) ;;
      if decide (pageContext = context) then releasePage (fst entry) else ret tt)
     (fun error =>
        consoleLog "Error comparing browser contexts for page" ;;
        releasePage (fst entry))).

Lemma round_quiet context entry :
  keeps (lift Released Quiet) (fun _ => False) (round context entry).
Proof.
  quiet_auto.
  - eapply keeps_weaken; [| |apply releasePage_quiet]; [done|by intros].
  - apply releasePage_quiet.
Qed.

Lemma round_releases context entry s :
  pageContext (world (round context entry s).2) (page entry.2) = Some context ->
  JsMap.get entry.1 (pagePool (this (round context entry s).2)) = None.
Proof.
  unfold tryCatch, pageGetContext. mrun. case_rejects.
  { mrun. intros _. apply releasePage_removes. }
  mrun. destruct (pageContext (world s) (page entry.2)) as [c|] eqn:Hc.
  2:{ mrun. intros _. apply releasePage_removes. }
  mrun. destruct (decide (c = context)) as [->|Hne].
  - intros _.
    match goal with
    | |- context [releasePage ?k ?st] =>
        pose proof (releasePage_removes env k st) as Hrem;
        pose proof (releasePage_cases k st) as Hcases
    end.
    by rewrite Hcases in Hrem |- *.
  - cbn. unfold pageContext in *. cbn. rewrite Hc. by intros [= ->].
Qed.

Lemma releaseContext_pages contextId context s pageId info :
  JsMap.get contextId (contextPool (this s)) = Some context ->
  JsMap.get pageId (pagePool (this s)) = Some info ->
  pageContext (world s) (page info) = Some context ->
  JsMap.get pageId (pagePool (this (releaseContext contextId s).2)) = None.
Proof.
  intros Hc Hinfo Hctx. unfold releaseContext, PlaywrightService.releaseContext.
  mrun. rewrite Hc. mrun.
  destruct (forEach_establishes (lift Released Quiet)
              (fun entry st =>
                 pageContext (world st) (page entry.2) = Some context ->
                 JsMap.get entry.1 (pagePool (this st)) = None)
              (JsMap.entries (pagePool (this s))) (fun entry => round context entry)
              (round_quiet context) (round_releases context)) with (s := s)
    as (Hok & [Hrel [_ Hsame]] & Hall).
  { intros entry s1 s2 [[_ _ _ _ _ Hsub _] [_ Hsame]] HP Hctx2.
    rewrite Hsame in Hctx2. specialize (HP Hctx2).
    destruct (JsMap.get entry.1 (pagePool (this s2))) as [v|] eqn:Hv; [|done].
    apply Hsub in Hv. congruence. }
  destruct (forEach _ (fun entry => round context entry) s) as [r1 s1] eqn:Hloop.
  cbn [fst snd] in *. subst r1.
  rewrite (bind_ok _ _ _ _ _ Hloop).
  specialize (Hall (pageId, info) (get_elem_of _ _ _ Hinfo)). cbn [fst snd] in Hall.
  rewrite Hsame in Hall. specialize (Hall Hctx).
  unfold tryCatch, contextClose, bind. rewrite run_perform_last.
  case_rejects; cbn; fields; done.
Qed.

(** The fields other than the pools, and the entries of other contexts,
    are left alone. *)
Lemma releaseContext_others contextId s :
  (releaseContext contextId s).1 = Ok tt /\
  Released (this s) (this (releaseContext contextId s).2) /\
  Teardown (world s) (world (releaseContext contextId s).2) /\
  JsMap.get contextId (contextPool (this (releaseContext contextId s).2)) = None /\
  (forall other, other <> contextId ->
     JsMap.get other (contextPool (this (releaseContext contextId s).2))
     = JsMap.get other (contextPool (this s))).
Proof.
  destruct (releaseContext_quiet contextId s) as [[Hrel [Htd _]] Hthrow].
  split.
  { destruct (releaseContext contextId s) as [[[]|e] s'] eqn:Hrun; [done|].
    by destruct (Hthrow e). }
  split; [done|]. split; [done|]. split; [apply releaseContext_removes|].
  intros other Hne.
  destruct (JsMap.get contextId (contextPool (this s))) as [c|] eqn:Hc.
  2:{ by rewrite (releaseContext_absent _ _ Hc). }
  unfold releaseContext, PlaywrightService.releaseContext. mrun. rewrite Hc. mrun.
  assert (Hpool : forall es (st : State This),
            contextPool (this (forEach es (fun entry => round c entry) st).2)
            = contextPool (this st)).
  { induction es as [|entry es IH]; intros st; [done|]. cbn [forEach].
    assert (Hround : contextPool (this (round c entry st).2) = contextPool (this st)).
    { unfold tryCatch, pageGetContext. mrun. case_rejects; mrun.
      - by rewrite releasePage_contextPool.
      - destruct (pageContext (world st) (page entry.2)) as [c'|]; mrun.
        + destruct (decide (c' = c)); cbv beta iota; [|done].
          match goal with
          | |- context [releasePage ?k ?st'] =>
              pose proof (releasePage_contextPool k st') as Hp;
              pose proof (f_equal fst (releasePage_cases k st')) as Hr;
              destruct (releasePage k st') as [r s2]; cbn in Hr, Hp; subst r;
              exact Hp
          end.
        + by rewrite releasePage_contextPool. }
    destruct (round c entry st) as [[[]|e] st1] eqn:Hr; cbn [fst snd] in Hround.
    - rewrite (bind_ok _ _ _ _ _ Hr). by rewrite IH.
    - by rewrite (bind_throw _ _ _ _ _ Hr). }
  specialize (Hpool (JsMap.entries (pagePool (this s))) s).
  destruct (forEach_establishes (lift Released Quiet)
              (fun (entry : string * PageInfo) (st : State This) => True)
              (JsMap.entries (pagePool (this s))) (fun entry => round c entry)
              (round_quiet c) ltac:(done) ltac:(done) s)
    as (Hok & _ & _).
  destruct (forEach _ (fun entry => round c entry) s) as [r1 s1] eqn:Hloop.
  cbn [fst snd] in *. subst r1.
  rewrite (bind_ok _ _ _ _ _ Hloop).
  unfold tryCatch, contextClose, bind. rewrite run_perform_last.
  case_rejects; cbn; fields; rewrite Hpool; by apply get_delete_ne.
Qed.

End Facts.
End ServiceRelease.

(** ** The login methods *)

Lemma Evolves_any allowed w w' : Evolves allowed w w' -> Evolves anyCall w w'.
Proof. apply Evolves_subset. done. Qed.

Lemma setup_any {This} (s s' : State This) :
  lift anyThis (Evolves setupCall) s s' -> lift anyThis (Evolves anyCall) s s'.
Proof. intros [HF HW]. split; [done|]. by eapply Evolves_any. Qed.

(** The steps of a login after the page is in hand, up to the first call
    that is rejected. *)
Ltac login_steps := repeat (mrun; case_rejects; [by mrun|]); mrun.

Module ServiceLogin.
Import PlaywrightService ServiceFacts ServiceMore ServicePages.

Section Facts.
Variable env : Environment.

Local Abbreviation ensureBrowser := (ensureBrowser env).
Local Abbreviation existingOrNewPage := (existingOrNewPage env).
Local Abbreviation loginToOnchSite := (loginToOnchSite env).
Local Abbreviation loginToCoupangSite := (loginToCoupangSite env).

Lemma loginPrefix_any browserOption contextId pageId :
  keeps (lift anyThis (Evolves anyCall)) libraryError
    (ensureBrowser browserOption ;; existingOrNewPage contextId pageId).
Proof.
  keeps_step.
  - eapply keeps_weaken; [| |apply ensureBrowser_any]; [apply setup_any|done].
  - eapply keeps_weaken; [| |apply existingOrNewPage_keeps]; [apply setup_any|done].
Qed.

(** What the login methods throw. *)
Lemma loginToOnchSite_throws store contextId pageId browserOption s e s' :
  loginToOnchSite store contextId pageId browserOption s = (Throw e, s') ->
  exists cause, libraryError cause /\ e = OnchLoginError (message cause).
Proof.
  unfold loginToOnchSite, PlaywrightService.loginToOnchSite.
  intros [(a & _ & [=])|(cause & s1 & Hbody & Hcatch)]%tryCatch_inv.
  exists cause. split; [|revert Hcatch; mrun; by intros [= <- _]].
  rewrite <- run_assoc in Hbody.
  match type of Hbody with
  | ?m s = _ => assert (Hk : keeps (lift anyThis (Evolves anyCall)) libraryError m)
  end.
  { keeps_step; [apply loginPrefix_any|]. keeps_auto. }
  by apply (keeps_run _ _ _ _ _ _ Hk Hbody).
Qed.

Lemma loginToCoupangSite_throws contextId pageId browserOption s e s' :
  loginToCoupangSite contextId pageId browserOption s = (Throw e, s') ->
  exists cause, libraryError cause /\ e = CoupangLoginError (message cause).
Proof.
  unfold loginToCoupangSite, PlaywrightService.loginToCoupangSite.
  intros [(a & _ & [=])|(cause & s1 & Hbody & Hcatch)]%tryCatch_inv.
  exists cause. split; [|revert Hcatch; mrun; by intros [= <- _]].
  rewrite <- run_assoc in Hbody.
  match type of Hbody with
  | ?m s = _ => assert (Hk : keeps (lift anyThis (Evolves anyCall)) libraryError m)
  end.
  { keeps_step; [apply loginPrefix_any|]. keeps_auto. }
  by apply (keeps_run _ _ _ _ _ _ Hk Hbody).
Qed.

(** The calls of a login that succeeds. *)
Lemma loginToCoupangSite_trace contextId pageId browserOption s page s' :
  loginToCoupangSite contextId pageId browserOption s = (Ok page, s') ->
  exists d present,
    Forall (fun ev : Event => setupCall ev.1 = true) d /\
    callsBetween (world s) (world s')
    = d ++ [(PageGoto page coupangLoginUrl 60000%N (Some "networkidle"), Ok VUndefined);
            (PageEvaluate page coupangLoginForm, Ok (VBool present))]
        ++ (if present
            then [(PageFill page "#username" (config env "COUPANG_EMAIL"), Ok VUndefined);
                  (PageFill page "#password" (config env "COUPANG_PASSWORD"),
                   Ok VUndefined);
                  (KeyboardPress page "Enter", Ok VUndefined);
                  (PageWaitForLoadState page "networkidle", Ok VUndefined)]
            else []).
Proof.
  unfold loginToCoupangSite, PlaywrightService.loginToCoupangSite, tryCatch.
  rewrite <- run_assoc.
  destruct ((ensureBrowser browserOption ;; existingOrNewPage contextId pageId) s)
    as [[pg|e] s2] eqn:Hpre;
    pose proof (loginPrefix_run _ _ _ _ _ _ _ Hpre) as [[(d & Hd & Hsetup) _ _] _].
  2:{ rewrite (bind_throw _ _ _ _ _ Hpre). by mrun. }
  rewrite (bind_ok _ _ _ _ _ Hpre).
  unfold pageGoto, pageHasElement, pageFill, keyboardPress, pageWaitForLoadState.
  mrun. case_rejects; [by mrun|]. mrun. case_rejects; [by mrun|]. mrun.
  destruct (elementPresent env _ pg coupangLoginForm) eqn:Hform; cbn [negb].
  - login_steps. intros [= <- <-]. exists d, true. split; [done|].
    between. rewrite Hd. between. done.
  - mrun. intros [= <- <-]. exists d, false. split; [done|].
    between. rewrite Hd. between. done.
Qed.

Lemma loginToOnchSite_trace store contextId pageId browserOption s page s' :
  loginToOnchSite store contextId pageId browserOption s = (Ok page, s') ->
  exists d,
    Forall (fun ev : Event => setupCall ev.1 = true) d /\
    callsBetween (world s) (world s')
    = d ++ [(PageGoto page onchLoginUrl 60000%N (Some "networkidle"), Ok VUndefined);
            (PageFill page onchEmailField (config env "ON_CHANNEL_EMAIL"), Ok VUndefined);
            (PageFill page onchPasswordField (config env "ON_CHANNEL_PASSWORD"),
             Ok VUndefined);
            (PageClick page onchLoginButton, Ok VUndefined);
            (PageWaitForLoadState page "networkidle", Ok VUndefined)].
Proof.
  unfold loginToOnchSite, PlaywrightService.loginToOnchSite, tryCatch.
  rewrite <- run_assoc.
  destruct ((ensureBrowser browserOption ;; existingOrNewPage contextId pageId) s)
    as [[pg|e] s2] eqn:Hpre;
    pose proof (loginPrefix_run _ _ _ _ _ _ _ Hpre) as [[(d & Hd & Hsetup) _ _] _].
  2:{ rewrite (bind_throw _ _ _ _ _ Hpre). by mrun. }
  rewrite (bind_ok _ _ _ _ _ Hpre).
  unfold pageGoto, pageFill, pageClick, pageWaitForLoadState.
  destruct (decide (store = "linkedout")); login_steps;
    intros [= <- <-]; exists d; (split; [done|]);
    between; rewrite Hd; between; done.
Qed.

(** *** Logging in with another engine than the one running *)

Lemma browserConnected_app w b o contexts' pages' trace' :
  b < length (browsers w) ->
  browserConnected (mkWorld (browsers w ++ [o]) contexts' pages' trace') b
  = browserConnected w b.
Proof. intros Hb. unfold browserConnected. cbn. by rewrite lookup_app_l. Qed.

Lemma initializeBrowser_switch_ok s b running b' s' :
  isInitialized (this s) = true ->
  browser (this s) = Some b ->
  browserEngine (world s) b = Some running ->
  running <> selectedBrowserOption (this s) ->
  initializeBrowser env s = (Ok b', s') ->
  pagePool (this s') = [] /\ contextPool (this s') = [] /\
  isInitialized (this s') = true /\
  browserConnected (world s') b = false.
Proof.
  intros Hinit Hb Hengine Hne.
  destruct (rejects env (trace (world s)) (BrowserTypeName b)) as [msg|] eqn:Hname.
  { unfold initializeBrowser. mrun. rewrite Hinit. mrun. rewrite Hb.
    unfold browserTypeName. mrun. rewrite Hname. by mrun. }
  rewrite (initializeBrowser_switch_eq env s b running Hinit Hb Hname Hengine Hne).
  intros ([] & s1 & Hca & H)%bind_Ok_inv. revert H. mrun.
  destruct (closeAll_cases env
              (mkState (this s)
                 (logEvent (BrowserTypeName b, Ok (VString (engineName running)))
                    (world s)))) as (w1 & [_ Hbrowsers] & Hcases).
  rewrite Hca in Hcases. cbn [this browser world] in Hcases, Hbrowsers.
  rewrite Hb in Hcases.
  destruct (rejects env (trace w1) (BrowserClose b)); [done|].
  injection Hcases as ->.
  rewrite initializeBrowser_first by done. cbn [this world]. fields.
  case_rejects; [done|]. cbn zeta. intros [= <- <-]. cbn [this world]. fields.
  do 3 (split; [done|]).
  assert (Hlt : b < length (browsers (world s))).
  { unfold browserEngine in Hengine.
    destruct (browsers (world s) !! b) eqn:Ho; [|done]. by eapply lookup_lt_Some. }
  unfold browserConnected, closeBrowser. cbn.
  rewrite lookup_app_l by (by rewrite length_alter, Hbrowsers).
  rewrite list_lookup_alter_eq. by destruct (browsers w1 !! b).
Qed.

Lemma loginPrefix_switch browserOption contextId pageId s page s2 b running :
  isInitialized (this s) = true ->
  browser (this s) = Some b ->
  browserEngine (world s) b = Some running ->
  running <> browserOption ->
  (ensureBrowser browserOption ;; existingOrNewPage contextId pageId) s = (Ok page, s2) ->
  pagePool (this s2) = [(pageId, mkPageInfo page contextId)] /\
  (exists context, contextPool (this s2) = [(contextId, context)]) /\
  browserConnected (world s2) b = false /\
  selectedBrowserOption (this s2) = browserOption /\
  shouldUseHeadless (this s2) = true.
Proof.
  intros Hinit Hb Hengine Hne ([] & s1 & Hensure & Hpage)%bind_Ok_inv.
  assert (Hs1 : pagePool (this s1) = [] /\ contextPool (this s1) = [] /\
                isInitialized (this s1) = true /\
                browserConnected (world s1) b = false /\
                selectedBrowserOption (this s1) = browserOption /\
                shouldUseHeadless (this s1) = true /\
                is_Some (browser (this s1))).
  { revert Hensure. unfold ensureBrowser, PlaywrightService.ensureBrowser. mrun.
    rewrite Hinit. cbn [negb]. mrun. rewrite Hb. unfold browserTypeName. mrun.
    case_rejects; [done|]. mrun. rewrite Hengine.
    cbn [fmap option_fmap option_map]. mrun.
    rewrite bool_decide_eq_true_2 by (intros ?%engineName_inj; done).
    unfold init, setConfig. mrun.
    intros (b' & s1' & Hib & [= <-])%bind_Ok_inv.
    destruct (initializeBrowser_ok env _ _ _ Hib) as (Hb' & _ & _ & Hsel & Hhl).
    apply initializeBrowser_switch_ok with (b := b) (running := running) in Hib
      as (Hp & Hc & Hi & Hconn); try done. }
  destruct Hs1 as (Hp & Hc & Hi & Hconn & Hsel & Hhl & [b1 Hb1]).
  revert Hpage. unfold existingOrNewPage, PlaywrightService.existingOrNewPage.
  rewrite (bind_ok _ _ _ _ _ (getPage_run pageId s1)). rewrite Hp. cbn.
  mrun. rewrite createPage_cases, getOrCreateContext_initialized by done.
  rewrite Hc. cbn [JsMap.get]. rewrite Hb1. cbn zeta.
  case_rejects; [done|]. case_rejects; [done|]. case_rejects; [done|].
  case_rejects; [done|]. intros [= <- <-]. cbn [this world]. fields.
  rewrite Hp, Hc, Hsel, Hhl. cbn.
  split; [done|]. split; [by eexists|]. split; [|done].
  unfold browserConnected in *. cbn. done.
Qed.

(** After the page is in hand a login changes neither the fields nor the
    objects of the library. *)
Lemma loginToCoupangSite_state contextId pageId browserOption s page s' :
  loginToCoupangSite contextId pageId browserOption s = (Ok page, s') ->
  exists s2,
    (ensureBrowser browserOption ;; existingOrNewPage contextId pageId) s = (Ok page, s2) /\
    this s' = this s2 /\ browsers (world s') = browsers (world s2) /\
    contexts (world s') = contexts (world s2) /\ pages (world s') = pages (world s2).
Proof.
  unfold loginToCoupangSite, PlaywrightService.loginToCoupangSite, tryCatch.
  rewrite <- run_assoc.
  destruct ((ensureBrowser browserOption ;; existingOrNewPage contextId pageId) s)
    as [[pg|e] s2] eqn:Hpre.
  2:{ rewrite (bind_throw _ _ _ _ _ Hpre). by mrun. }
  rewrite (bind_ok _ _ _ _ _ Hpre).
  unfold pageGoto, pageHasElement, pageFill, keyboardPress, pageWaitForLoadState.
  mrun. case_rejects; [by mrun|]. mrun. case_rejects; [by mrun|]. mrun.
  destruct (elementPresent env _ pg coupangLoginForm); cbn [negb].
  - login_steps. intros [= <- <-]. by exists s2.
  - mrun. intros [= <- <-]. by exists s2.
Qed.

Lemma loginToOnchSite_state store contextId pageId browserOption s page s' :
  loginToOnchSite store contextId pageId browserOption s = (Ok page, s') ->
  exists s2,
    (ensureBrowser browserOption ;; existingOrNewPage contextId pageId) s = (Ok page, s2) /\
    this s' = this s2 /\ browsers (world s') = browsers (world s2) /\
    contexts (world s') = contexts (world s2) /\ pages (world s') = pages (world s2).
Proof.
  unfold loginToOnchSite, PlaywrightService.loginToOnchSite, tryCatch.
  rewrite <- run_assoc.
  destruct ((ensureBrowser browserOption ;; existingOrNewPage contextId pageId) s)
    as [[pg|e] s2] eqn:Hpre.
  2:{ rewrite (bind_throw _ _ _ _ _ Hpre). by mrun. }
  rewrite (bind_ok _ _ _ _ _ Hpre).
  unfold pageGoto, pageFill, pageClick, pageWaitForLoadState.
  destruct (decide (store = "linkedout")); login_steps;
    intros [= <- <-]; by exists s2.
Qed.

End Facts.
End ServiceLogin.

(** ** Further properties of [PlaywrightService] *)

Module ServiceProperties.
Import PlaywrightService Naming.

(** X1.  [releasePage] never throws, also when [page.close()] does.  If
    the pool holds a page under [pageId], [close()] is called on it, once,
    and the entry is removed whether or not the call threw; the other
    entries and the context pool stay as they are.  If the pool holds
    nothing under [pageId], nothing happens at all. *)
Theorem releasePage_removes_entry :
  forall (env : Environment) (pageId : string) (s : State This),
    (releasePage env pageId s).1 = Ok tt /\
    JsMap.get pageId (pagePool (this (releasePage env pageId s).2)) = None /\
    (forall other, other <> pageId ->
       JsMap.get other (pagePool (this (releasePage env pageId s).2))
       = JsMap.get other (pagePool (this s))) /\
    contextPool (this (releasePage env pageId s).2) = contextPool (this s) /\
    match JsMap.get pageId (pagePool (this s)) with
    | None => (releasePage env pageId s).2 = s
    | Some info =>
        match rejects env (trace (world s)) (PageClose (page info)) with
        | Some msg =>
            world (releasePage env pageId s).2
            = logEvent (PageClose (page info), Throw (ExternalError msg)) (world s)
        | None =>
            world (releasePage env pageId s).2
            = logEvent (PageClose (page info), Ok VUndefined)
                (closePage (page info) (world s))
        end
    end.
Proof.
  intros env pageId s. rewrite ServiceRelease.releasePage_cases. cbn [fst snd].
  split; [done|].
  destruct (JsMap.get pageId (pagePool (this s))) as [info|] eqn:Hinfo.
  - cbn [this world]. fields. split; [apply get_delete_eq|].
    split; [intros other Hne; by apply get_delete_ne|]. split; [done|].
    by case_rejects.
  - done.
Qed.

(** X2.  [releaseContext] never throws, also when calls into the
    library do.  If the pool holds a context under [contextId]: every
    pooled page whose [page.context()] is that context is released, the
    entry of the context is removed, the other context entries stay, no
    entry is added to either pool, and no other field changes; the calls
    made are [page.context()], [page.close()] and [context.close()] only.
    If the pool holds nothing under [contextId], nothing happens at all. *)
Theorem releaseContext_releases_its_pages :
  forall (env : Environment) (contextId : string) (s : State This),
    (releaseContext env contextId s).1 = Ok tt /\
    Released (this s) (this (releaseContext env contextId s).2) /\
    Teardown (world s) (world (releaseContext env contextId s).2) /\
    JsMap.get contextId (contextPool (this (releaseContext env contextId s).2)) = None /\
    (forall other, other <> contextId ->
       JsMap.get other (contextPool (this (releaseContext env contextId s).2))
       = JsMap.get other (contextPool (this s))) /\
    match JsMap.get contextId (contextPool (this s)) with
    | None => (releaseContext env contextId s).2 = s
    | Some context =>
        forall pageId info,
          JsMap.get pageId (pagePool (this s)) = Some info ->
          pageContext (world s) (page info) = Some context ->
          JsMap.get pageId (pagePool (this (releaseContext env contextId s).2)) = None
    end.
Proof.
  intros env contextId s.
  destruct (ServiceRelease.releaseContext_others env contextId s)
    as (Hok & Hrel & Htd & Hgone & Hother).
  do 5 (split; [done|]).
  destruct (JsMap.get contextId (contextPool (this s))) as [context|] eqn:Hc.
  - intros pageId info Hinfo Hctx.
    by apply (ServiceRelease.releaseContext_pages env contextId context s pageId info).
  - by rewrite ServiceRelease.releaseContext_absent.
Qed.

Lemma releaseContext_releases_its_pages_witness :
  JsMap.get "p"
    (pagePool (this (releaseContext Scenario.calm "ctx" Scenario.firefoxSelected).2))
  = None /\
  contextPool (this (releaseContext Scenario.calm "ctx" Scenario.firefoxSelected).2) = [].
Proof.
  destruct (releaseContext_releases_its_pages Scenario.calm "ctx"
              Scenario.firefoxSelected) as (_ & _ & _ & _ & _ & Hpages).
  split; [|vm_compute; reflexivity].
  apply (Hpages "p" (mkPageInfo 0 "ctx")); vm_compute; reflexivity.
Defined.

(** X3.  [closeAll] first releases every pooled page and every pooled
    context, which cannot throw, so that both pools are empty afterwards
    in every case.  If the service has a browser, [browser.close()] is
    called then: if it throws, [closeAll] throws that error and the
    [isInitialized] flag stays as it was; if it returns, the flag is
    cleared and the browser is disconnected.  Without a browser nothing
    more is done. *)
Theorem closeAll_empties_pools :
  forall (env : Environment) (s : State This),
  exists w1,
    Teardown (world s) w1 /\
    closeAll env s
    = match browser (this s) with
      | None =>
          (Ok tt,
           mkState (mkThis None (browserType (this s)) (isInitialized (this s)) [] []
                      (shouldUseHeadless (this s)) (selectedBrowserOption (this s)))
             w1)
      | Some b =>
          match rejects env (trace w1) (BrowserClose b) with
          | Some msg =>
              (Throw (ExternalError msg),
               mkState (mkThis (Some b) (browserType (this s)) (isInitialized (this s))
                          [] [] (shouldUseHeadless (this s))
                          (selectedBrowserOption (this s)))
                 (logEvent (BrowserClose b, Throw (ExternalError msg)) w1))
          | None =>
              (Ok tt,
               mkState (mkThis (Some b) (browserType (this s)) false [] []
                          (shouldUseHeadless (this s)) (selectedBrowserOption (this s)))
                 (logEvent (BrowserClose b, Ok VUndefined) (closeBrowser b w1)))
          end
      end.
Proof. intros env s. apply ServiceMore.closeAll_cases. Qed.

(** X4.  [initializeBrowser] on a service that is not initialised makes
    one call into the library, the launch of the selected engine with the
    stored headless flag and the fixed arguments.  If the launch throws,
    the error is thrown on and [isInitialized] stays unset (only
    [browserType] has been assigned), so that the next call launches
    again.  Otherwise the new browser is stored and returned, the flag is
    set, and the pools are as before. *)
Theorem first_initializeBrowser_launches :
  forall (env : Environment) (s : State This),
    isInitialized (this s) = false ->
    initializeBrowser env s
    = match rejects env (trace (world s))
              (Launch (selectedBrowserOption (this s)) (shouldUseHeadless (this s))
                 launchArgs) with
      | Some msg =>
          (Throw (ExternalError msg),
           mkState (setBrowserType (selectedBrowserOption (this s)) (this s))
             (logEvent
                (Launch (selectedBrowserOption (this s)) (shouldUseHeadless (this s))
                   launchArgs, Throw (ExternalError msg))
                (world s)))
      | None =>
          let launched :=
            (Launch (selectedBrowserOption (this s)) (shouldUseHeadless (this s))
               launchArgs, Ok (VObject (length (browsers (world s))))) in
          (Ok (length (browsers (world s))),
           mkState
             (mkThis (Some (length (browsers (world s))))
                (Some (selectedBrowserOption (this s))) true
                (pagePool (this s)) (contextPool (this s))
                (shouldUseHeadless (this s)) (selectedBrowserOption (this s)))
             (mkWorld
                (browsers (world s)
                 ++ [mkBrowserObj (selectedBrowserOption (this s))
                       (shouldUseHeadless (this s)) true
                       (Some (pretty (now env (trace (world s) ++ [launched]))))])
                (contexts (world s)) (pages (world s))
                (trace (world s) ++ [launched])))
      end.
Proof. intros env s. apply ServiceMore.initializeBrowser_first. Qed.

Lemma first_initializeBrowser_launches_witness :
  (initializeBrowser Scenario.calm newState).1 = Ok 0 /\
  trace (world (initializeBrowser Scenario.calm newState).2)
  = [(Launch chromium true launchArgs, Ok (VObject 0))].
Proof.
  rewrite (first_initializeBrowser_launches Scenario.calm newState eq_refl).
  split; reflexivity.
Defined.

(** X5.  Whenever [init(headless, browserOption)] returns, the browser
    it returns is the one stored in the service, its engine is
    [browserOption], the service is initialised, and the two settings
    are stored, whatever the state before: not initialised, running the
    same engine, or running another one. *)
Theorem init_runs_requested_engine :
  forall (env : Environment) (headless : bool) (browserOption : BrowserOption)
    (s : State This) (b : Browser) (s' : State This),
    init env headless browserOption s = (Ok b, s') ->
    browser (this s') = Some b /\
    isInitialized (this s') = true /\
    browserEngine (world s') b = Some browserOption /\
    selectedBrowserOption (this s') = browserOption /\
    shouldUseHeadless (this s') = headless.
Proof. intros env headless browserOption s b s'. apply ServiceMore.init_ok. Qed.

Lemma init_runs_requested_engine_witness :
  browserEngine (world (init Scenario.calm false webkit Scenario.firefoxSelected).2) 1
  = Some webkit /\
  browser (this (init Scenario.calm false webkit Scenario.firefoxSelected).2) = Some 1.
Proof.
  destruct (init_runs_requested_engine Scenario.calm false webkit
              Scenario.firefoxSelected 1
              (init Scenario.calm false webkit Scenario.firefoxSelected).2)
    as (Hb & _ & Hengine & _).
  - vm_compute. reflexivity.
  - split; [exact Hengine|exact Hb].
Defined.

(** X6.  [getOrCreateContext] looks at the pool before anything else
    (once the service is initialised): a context pooled under [contextId]
    is returned as it is, without any call into the library, so also when
    it has been closed in the meantime.  In every case the page pool, the
    pages of the library, the contexts that exist already and the entries
    of the other context ids are left as they are; and when the method
    throws, the context pool is as before, so that a context that was
    created before the failure of [addInitScript] is not pooled. *)
Theorem getOrCreateContext_reuses_pooled :
  forall (env : Environment) (contextId : string) (s : State This),
    (forall context,
       isInitialized (this s) = true ->
       JsMap.get contextId (contextPool (this s)) = Some context ->
       getOrCreateContext env contextId s = (Ok context, s)) /\
    pagePool (this (getOrCreateContext env contextId s).2) = pagePool (this s) /\
    pages (world (getOrCreateContext env contextId s).2) = pages (world s) /\
    contexts (world s)
      `prefix_of` contexts (world (getOrCreateContext env contextId s).2) /\
    (forall other, other <> contextId ->
       JsMap.get other (contextPool (this (getOrCreateContext env contextId s).2))
       = JsMap.get other (contextPool (this s))) /\
    (is_ok (getOrCreateContext env contextId s).1 = false ->
     contextPool (this (getOrCreateContext env contextId s).2) = contextPool (this s)).
Proof.
  intros env contextId s. split; [|apply ServicePages.getOrCreateContext_frame].
  intros context Hinit Hc.
  by rewrite ServicePages.getOrCreateContext_initialized, Hc.
Qed.

Lemma getOrCreateContext_reuses_pooled_witness :
  getOrCreateContext Scenario.calm "ctx"
    (contextClose Scenario.calm 0 Scenario.firefoxSelected).2
  = (Ok 0, (contextClose Scenario.calm 0 Scenario.firefoxSelected).2) /\
  contextClosed (world (contextClose Scenario.calm 0 Scenario.firefoxSelected).2) 0
  = true.
Proof.
  split; [|vm_compute; reflexivity].
  apply (proj1 (getOrCreateContext_reuses_pooled Scenario.calm "ctx"
                  (contextClose Scenario.calm 0 Scenario.firefoxSelected).2));
    vm_compute; reflexivity.
Defined.

(** X7.  A page returned by [createPage] is a new object of the
    library, made in the context pooled under [contextId], and the pool
    holds it under [pageId] afterwards: an entry that was there before is
    replaced, and the page it held is neither closed nor released (the
    pages that existed are as they were).  The page is pooled before
    [page.route] is called: if that call throws, [createPage] throws
    while the pool holds the new page already.  If an earlier call throws,
    the page pool and the pages are as before. *)
Theorem createPage_replaces_entry :
  forall (env : Environment) (contextId pageId : string) (s : State This),
    match createPage env contextId pageId s with
    | (Ok page, s') =>
        page = length (pages (world s)) /\
        (exists context,
           JsMap.get contextId (contextPool (this s')) = Some context /\
           pages (world s') = pages (world s) ++ [mkPageObj context false]) /\
        pagePool (this s')
        = JsMap.set pageId (mkPageInfo page contextId) (pagePool (this s))
    | (Throw e, s') =>
        libraryError e /\
        (pagePool (this s') = pagePool (this s) /\ pages (world s') = pages (world s) \/
         exists context msg,
           last (trace (world s'))
           = Some (PageRoute (length (pages (world s))) "**/*" 1,
                   Throw (ExternalError msg)) /\
           pagePool (this s')
           = JsMap.set pageId (mkPageInfo (length (pages (world s))) contextId)
               (pagePool (this s)) /\
           pages (world s') = pages (world s) ++ [mkPageObj context false])
    end.
Proof. intros env contextId pageId s. apply ServicePages.createPage_facts. Qed.

(** X8.  When [createParallelPages(store, cronId, n)] returns, it
    returns [n] pages, and the page at index [i] is the one the pool then
    holds under [page-store-cronId-(i+1)], with the context id
    [context-store-cronId]; the entries under other ids are as before.
    Called again with the same arguments it returns the same pages and
    changes nothing: no page is created and no call is made into the
    library. *)
Theorem createParallelPages_is_idempotent :
  forall (env : Environment) (store cronId : string) (n : nat)
    (s : State This) (pages : list Page) (s' : State This),
    createParallelPages env store cronId n s = (Ok pages, s') ->
    length pages = n /\
    (forall i, i < n ->
       exists page,
         pages !! i = Some page /\
         JsMap.get (parallelPageId store cronId i) (pagePool (this s'))
         = Some (mkPageInfo page (parallelContextId store cronId))) /\
    (forall other, (forall i, i < n -> other <> parallelPageId store cronId i) ->
       JsMap.get other (pagePool (this s')) = JsMap.get other (pagePool (this s))) /\
    createParallelPages env store cronId n s' = (Ok pages, s').
Proof.
  intros env store cronId n s pages s' Hrun.
  unfold createParallelPages in *.
  destruct (ServicePages.parallelPagesLoop_ok env store cronId
              (parallelContextId store cronId) n 0 [] s pages s' Hrun)
    as (new & -> & Hlen & Hentries & Hframe).
  cbn [app] in *. do 3 (split; [done|]).
  by apply (ServicePages.parallelPagesLoop_reuse env store cronId
              (parallelContextId store cronId) n 0 [] s' new).
Qed.

Lemma createParallelPages_is_idempotent_witness :
  (createParallelPages Scenario.calm "a" "b" 2 newState).1 = Ok [0; 1] /\
  createParallelPages Scenario.calm "a" "b" 2
    (createParallelPages Scenario.calm "a" "b" 2 newState).2
  = (Ok [0; 1], (createParallelPages Scenario.calm "a" "b" 2 newState).2).
Proof.
  split; [vm_compute; reflexivity|].
  apply (createParallelPages_is_idempotent Scenario.calm "a" "b" 2 newState [0; 1]).
  vm_compute. reflexivity.
Defined.

(** X9.  The two login methods throw errors of their own only:
    whatever goes wrong inside (launching, creating the context or the
    page, navigating, typing), the error that comes out is the login
    error of the method, and its text ends with the message of the error
    that was caught, which came from the library or from a call on an
    undefined browser. *)
Theorem login_errors_are_wrapped :
  forall (env : Environment) (store contextId pageId : string)
    (browserOption : BrowserOption) (s : State This) (e : JsError) (s' : State This),
    (loginToOnchSite env store contextId pageId browserOption s = (Throw e, s') ->
     exists cause,
       libraryError cause /\ e = OnchLoginError (message cause) /\
       message e = "온채널 로그인 중 오류 발생: " +:+ message cause) /\
    (loginToCoupangSite env contextId pageId browserOption s = (Throw e, s') ->
     exists cause,
       libraryError cause /\ e = CoupangLoginError (message cause) /\
       message e = "쿠팡 로그인 중 오류 발생: " +:+ message cause).
Proof.
  intros env store contextId pageId browserOption s e s'. split.
  - intros (cause & Hlib & ->)%ServiceLogin.loginToOnchSite_throws. by exists cause.
  - intros (cause & Hlib & ->)%ServiceLogin.loginToCoupangSite_throws. by exists cause.
Qed.

Lemma login_errors_are_wrapped_witness :
  exists cause,
    libraryError cause /\
    CoupangLoginError "Timeout 60000ms exceeded" = CoupangLoginError (message cause) /\
    message (CoupangLoginError "Timeout 60000ms exceeded")
    = "쿠팡 로그인 중 오류 발생: " +:+ message cause.
Proof.
  apply (proj2 (login_errors_are_wrapped
                  (mkEnvironment (fun _ _ => Some "Timeout 60000ms exceeded")
                     (fun _ _ _ => false) (fun _ => 1700) (fun key => Some key))
                  "linkedout" "ctx" "p" chromium newState
                  (CoupangLoginError "Timeout 60000ms exceeded")
                  (loginToCoupangSite
                     (mkEnvironment (fun _ _ => Some "Timeout 60000ms exceeded")
                        (fun _ _ _ => false) (fun _ => 1700) (fun key => Some key))
                     "ctx" "p" chromium newState).2)).
  vm_compute. reflexivity.
Defined.

(** X10.  The calls of a login that returns.  After the calls that
    prepare the browser, the context and the page, [loginToCoupangSite]
    navigates to the login address and asks whether the page shows the
    login form; if it does, it fills [#username] with the configured
    [COUPANG_EMAIL] and [#password] with [COUPANG_PASSWORD], presses
    Enter and waits for the network to be idle, and it makes no other
    call.  [loginToOnchSite] navigates, fills the two fields with the
    configured [ON_CHANNEL_EMAIL] and [ON_CHANNEL_PASSWORD], whatever the
    store, clicks the login button and waits for the network to be
    idle. *)
Theorem login_call_sequence :
  forall (env : Environment) (store contextId pageId : string)
    (browserOption : BrowserOption) (s : State This) (page : Page) (s' : State This),
    (loginToCoupangSite env contextId pageId browserOption s = (Ok page, s') ->
     exists d present,
       Forall (fun ev : Event => setupCall ev.1 = true) d /\
       callsBetween (world s) (world s')
       = d ++ [(PageGoto page coupangLoginUrl 60000%N (Some "networkidle"),
                Ok VUndefined);
               (PageEvaluate page coupangLoginForm, Ok (VBool present))]
           ++ (if present
               then [(PageFill page "#username" (config env "COUPANG_EMAIL"),
                      Ok VUndefined);
                     (PageFill page "#password" (config env "COUPANG_PASSWORD"),
                      Ok VUndefined);
                     (KeyboardPress page "Enter", Ok VUndefined);
                     (PageWaitForLoadState page "networkidle", Ok VUndefined)]
               else [])) /\
    (loginToOnchSite env store contextId pageId browserOption s = (Ok page, s') ->
     exists d,
       Forall (fun ev : Event => setupCall ev.1 = true) d /\
       callsBetween (world s) (world s')
       = d ++ [(PageGoto page onchLoginUrl 60000%N (Some "networkidle"), Ok VUndefined);
               (PageFill page onchEmailField (config env "ON_CHANNEL_EMAIL"),
                Ok VUndefined);
               (PageFill page onchPasswordField (config env "ON_CHANNEL_PASSWORD"),
                Ok VUndefined);
               (PageClick page onchLoginButton, Ok VUndefined);
               (PageWaitForLoadState page "networkidle", Ok VUndefined)]).
Proof.
  intros env store contextId pageId browserOption s page s'. split.
  - apply ServiceLogin.loginToCoupangSite_trace.
  - apply ServiceLogin.loginToOnchSite_trace.
Qed.

Lemma login_call_sequence_witness :
  exists d present,
    Forall (fun ev : Event => setupCall ev.1 = true) d /\
    callsBetween (world Scenario.firefoxSelected)
      (world (loginToCoupangSite Scenario.loginForm "ctx" "p" chromium
                Scenario.firefoxSelected).2)
    = d ++ [(PageGoto 0 coupangLoginUrl 60000%N (Some "networkidle"), Ok VUndefined);
            (PageEvaluate 0 coupangLoginForm, Ok (VBool present))]
        ++ (if present
            then [(PageFill 0 "#username" (Some "COUPANG_EMAIL"), Ok VUndefined);
                  (PageFill 0 "#password" (Some "COUPANG_PASSWORD"), Ok VUndefined);
                  (KeyboardPress 0 "Enter", Ok VUndefined);
                  (PageWaitForLoadState 0 "networkidle", Ok VUndefined)]
            else []).
Proof.
  apply (proj1 (login_call_sequence Scenario.loginForm "linkedout" "ctx" "p" chromium
                  Scenario.firefoxSelected 0
                  (loginToCoupangSite Scenario.loginForm "ctx" "p" chromium
                     Scenario.firefoxSelected).2)).
  vm_compute. reflexivity.
Defined.

(** X11.  A login that is asked for another engine than the one running
    tears everything down first: when it returns, the browser that was
    running is disconnected, the page pool holds the page of the login
    and nothing else, the context pool holds its context and nothing
    else, and the requested engine is stored in headless mode.  All other
    pooled pages and contexts are gone. *)
Theorem login_with_other_engine_drops_sessions :
  forall (env : Environment) (store contextId pageId : string)
    (browserOption running : BrowserOption) (s : State This) (b : Browser)
    (page : Page) (s' : State This),
    isInitialized (this s) = true ->
    browser (this s) = Some b ->
    browserEngine (world s) b = Some running ->
    running <> browserOption ->
    loginToCoupangSite env contextId pageId browserOption s = (Ok page, s') \/
    loginToOnchSite env store contextId pageId browserOption s = (Ok page, s') ->
    pagePool (this s') = [(pageId, mkPageInfo page contextId)] /\
    (exists context, contextPool (this s') = [(contextId, context)]) /\
    browserConnected (world s') b = false /\
    selectedBrowserOption (this s') = browserOption /\
    shouldUseHeadless (this s') = true.
Proof.
  intros env store contextId pageId browserOption running s b page s'
    Hinit Hb Hengine Hne Hlogin.
  assert (Hpre : exists s2,
            (ensureBrowser env browserOption ;;
             existingOrNewPage env contextId pageId) s = (Ok page, s2) /\
            this s' = this s2 /\ browsers (world s') = browsers (world s2)).
  { destruct Hlogin as [H|H].
    - apply ServiceLogin.loginToCoupangSite_state in H as (s2 & ? & ? & ? & _).
      by exists s2.
    - apply ServiceLogin.loginToOnchSite_state in H as (s2 & ? & ? & ? & _).
      by exists s2. }
  destruct Hpre as (s2 & Hpre & Hthis & Hbrowsers).
  destruct (ServiceLogin.loginPrefix_switch env browserOption contextId pageId s page s2
              b running Hinit Hb Hengine Hne Hpre) as (Hp & Hc & Hconn & Hsel & Hhl).
  rewrite Hthis. do 2 (split; [done|]). split; [|done].
  unfold browserConnected in *. by rewrite Hbrowsers.
Qed.

Lemma login_with_other_engine_drops_sessions_witness :
  pagePool (this (loginToCoupangSite Scenario.calm "other" "q" firefox
                    Scenario.chromiumSelected).2)
  = [("q", mkPageInfo 1 "other")] /\
  JsMap.get "p" (pagePool (this Scenario.chromiumSelected)) = Some (mkPageInfo 0 "ctx").
Proof.
  split; [|vm_compute; reflexivity].
  apply (login_with_other_engine_drops_sessions Scenario.calm "linkedout" "other" "q"
           firefox chromium Scenario.chromiumSelected 0 1
           (loginToCoupangSite Scenario.calm "other" "q" firefox
              Scenario.chromiumSelected).2);
    try (vm_compute; reflexivity).
  - discriminate.
  - left. vm_compute. reflexivity.
Defined.

End ServiceProperties.

(** ** More about [PlaywrightManager] *)

(** The mgr_fields of the manager with the setters applied. *)
Ltac mgr_fields :=
  cbn [PlaywrightManager.setBrowserType PlaywrightManager.setIsInitialized
       PlaywrightManager.setBrowser PlaywrightManager.setPagePool
       PlaywrightManager.setContextPool PlaywrightManager.isInitialized
       PlaywrightManager.browserType PlaywrightManager.browser
       PlaywrightManager.selectedBrowserOption PlaywrightManager.shouldUseHeadless
       PlaywrightManager.pagePool PlaywrightManager.contextPool negb].

Module ManagerTeardown.
Import PlaywrightManager ManagerFacts.

Section Facts.
Variable env : Environment.

Local Abbreviation releasePage := (releasePage env).
Local Abbreviation releaseContext := (releaseContext env).
Local Abbreviation initializeBrowser := (initializeBrowser env).

Lemma mgr_releasePage_removes pageId s :
  JsMap.get pageId (pagePool (this (releasePage pageId s).2)) = None.
Proof.
  unfold releasePage, PlaywrightManager.releasePage. mrun.
  destruct (JsMap.get pageId (pagePool (this s))) as [page|] eqn:Hget; [|done].
  unfold bind, tryCatch, pageClose. rewrite run_perform_last.
  case_rejects; cbn; apply get_delete_eq.
Qed.

Lemma mgr_releaseContext_removes contextId s :
  JsMap.get contextId (contextPool (this (releaseContext contextId s).2)) = None.
Proof.
  pose proof (mgr_releaseContext_keeps env contextId s) as [_ HE].
  revert HE. unfold releaseContext, PlaywrightManager.releaseContext. mrun.
  destruct (JsMap.get contextId (contextPool (this s))) as [c|] eqn:Hget; [|done].
  rewrite <- !run_assoc.
  match goal with
  | |- context [bind ?m ?k s] =>
      destruct (m s) as [[[]|e] s1] eqn:Hbody;
      [rewrite (bind_ok m k _ _ _ Hbody)|rewrite (bind_throw m k _ _ _ Hbody)]
  end.
  - intros _. cbn. apply get_delete_eq.
  - intros HE. by destruct (HE e).
Qed.

Lemma mgr_released_get_none (s s' : State This) k :
  lift Released Teardown s s' ->
  (JsMap.get k (pagePool (this s)) = None ->
   JsMap.get k (pagePool (this s')) = None) /\
  (JsMap.get k (contextPool (this s)) = None ->
   JsMap.get k (contextPool (this s')) = None).
Proof.
  intros [[_ _ _ _ _ Hp Hc] _]. split; intros Hnone.
  - destruct (JsMap.get k (pagePool (this s'))) as [v|] eqn:E; [|done].
    apply Hp in E. congruence.
  - destruct (JsMap.get k (contextPool (this s'))) as [v|] eqn:E; [|done].
    apply Hc in E. congruence.
Qed.

(** The two loops of [closeAll] leave both pools empty and touch
    nothing else in the object; they do not throw. *)
Lemma mgr_releaseAll_run s :
  exists w',
    (pageIds <- getThis (fun t => JsMap.keys (pagePool t)) ;;
     forEach pageIds releasePage ;;
     contextIds <- getThis (fun t => JsMap.keys (contextPool t)) ;;
     forEach contextIds releaseContext) s
    = (Ok tt,
       mkState (mkThis (browser (this s)) (browserType (this s))
                  (isInitialized (this s)) [] []
                  (shouldUseHeadless (this s)) (selectedBrowserOption (this s)))
         w') /\
    Teardown (world s) w'.
Proof.
  mrun.
  destruct (forEach_establishes (lift Released Teardown)
              (fun k s' => JsMap.get k (pagePool (this s')) = None)
              (JsMap.keys (pagePool (this s))) releasePage
              (mgr_releasePage_keeps env) mgr_releasePage_removes
              (fun k s1 s2 H => proj1 (mgr_released_get_none s1 s2 k H)) s)
    as (Hr1 & HR1 & Hgone1).
  destruct (forEach (JsMap.keys (pagePool (this s))) releasePage s)
    as [r1 s1] eqn:E1. simpl in Hr1, HR1, Hgone1. subst r1.
  rewrite (bind_ok _ _ _ _ _ E1). mrun.
  destruct (forEach_establishes (lift Released Teardown)
              (fun k s' => JsMap.get k (contextPool (this s')) = None)
              (JsMap.keys (contextPool (this s1))) releaseContext
              (mgr_releaseContext_keeps env) mgr_releaseContext_removes
              (fun k sa sb H => proj2 (mgr_released_get_none sa sb k H)) s1)
    as (Hr2 & HR2 & Hgone2).
  destruct (forEach (JsMap.keys (contextPool (this s1))) releaseContext s1)
    as [r2 s2] eqn:E2. simpl in Hr2, HR2, Hgone2. subst r2.
  exists (world s2). split; [|by destruct HR1 as [_ ?], HR2 as [_ ?]; etrans].
  f_equal. destruct HR1 as [HF1 _], HR2 as [HF2 _].
  assert (Hpages1 : pagePool (this s1) = []).
  { apply get_none_nil. intros k.
    destruct (JsMap.get k (pagePool (this s1))) as [v|] eqn:E; [|done].
    rewrite <- E. apply Hgone1. apply get_keys.
    apply (rel_pagePool _ _ HF1) in E. by eexists. }
  assert (Hpages2 : pagePool (this s2) = []).
  { apply get_none_nil. intros k.
    destruct (JsMap.get k (pagePool (this s2))) as [v|] eqn:E; [|done].
    apply (rel_pagePool _ _ HF2) in E. by rewrite Hpages1 in E. }
  assert (Hctx2 : contextPool (this s2) = []).
  { apply get_none_nil. intros k.
    destruct (JsMap.get k (contextPool (this s2))) as [v|] eqn:E; [|done].
    rewrite <- E. apply Hgone2. apply get_keys.
    apply (rel_contextPool _ _ HF2) in E. by eexists. }
  destruct s2 as [t2 w2]. cbn [this world] in *. f_equal.
  destruct HF1, HF2. destruct t2. cbn in *. congruence.
Qed.

(** Initialising with the engine selected that is already running. *)
Lemma mgr_initializeBrowser_reuse s b :
  isInitialized (this s) = true ->
  browser (this s) = Some b ->
  browserEngine (world s) b = Some (selectedBrowserOption (this s)) ->
  rejects env (trace (world s)) (BrowserTypeName b) = None ->
  initializeBrowser s
  = (Ok b,
     mkState (this s)
       (logEvent (BrowserTypeName b,
                  Ok (VString (engineName (selectedBrowserOption (this s)))))
          (world s))).
Proof.
  intros Hinit Hb Hengine Hname.
  unfold initializeBrowser, PlaywrightManager.initializeBrowser. mrun.
  rewrite Hinit. mrun. rewrite Hb. unfold browserTypeName. mrun. rewrite Hname. mrun.
  rewrite Hengine. cbn [fmap option_fmap option_map]. mrun.
  by rewrite decide_False by (intros H; by apply H).
Qed.

Lemma mgr_getPage_run pageId s :
  getPage pageId s = (Ok (JsMap.get pageId (pagePool (this s))), s).
Proof. unfold getPage. mrun. by destruct s. Qed.

End Facts.
End ManagerTeardown.

Module ManagerMore.
Import PlaywrightManager ManagerFacts ManagerTeardown.

Section Facts.
Variable env : Environment.

Local Abbreviation releasePage := (releasePage env).
Local Abbreviation releaseContext := (releaseContext env).
Local Abbreviation closeAll := (closeAll env).
Local Abbreviation initializeBrowser := (initializeBrowser env).
Local Abbreviation init := (init env).
Local Abbreviation getOrCreateContext := (getOrCreateContext env).
Local Abbreviation createPage := (createPage env).

(** *** [closeAll] *)

Lemma mgr_closeAll_cases s :
  exists w1,
    Teardown (world s) w1 /\
    closeAll s
    = match browser (this s) with
      | None =>
          (Ok tt,
           mkState (mkThis None (browserType (this s)) (isInitialized (this s)) [] []
                      (shouldUseHeadless (this s)) (selectedBrowserOption (this s)))
             w1)
      | Some b =>
          match rejects env (trace w1) (BrowserClose b) with
          | Some msg =>
              (Throw (ExternalError msg),
               mkState (mkThis (Some b) (browserType (this s)) (isInitialized (this s))
                          [] [] (shouldUseHeadless (this s))
                          (selectedBrowserOption (this s)))
                 (logEvent (BrowserClose b, Throw (ExternalError msg)) w1))
          | None =>
              (Ok tt,
               mkState (mkThis (Some b) (browserType (this s)) false [] []
                          (shouldUseHeadless (this s)) (selectedBrowserOption (this s)))
                 (logEvent (BrowserClose b, Ok VUndefined) (closeBrowser b w1)))
          end
      end.
Proof.
  destruct (mgr_releaseAll_run env s) as (w1 & Hloops & Htd).
  exists w1. split; [done|].
  transitivity
    (((pageIds <- getThis (fun t => JsMap.keys (pagePool t)) ;;
       forEach pageIds releasePage ;;
       contextIds <- getThis (fun t => JsMap.keys (contextPool t)) ;;
       forEach contextIds releaseContext) ;;
      b <- getThis browser ;;
      match b with
      | Some b => browserClose env b ;; setThis (setIsInitialized false)
      | None => ret tt
      end) s).
  { unfold closeAll, PlaywrightManager.closeAll, bind, getThis, gets. cbn.
    destruct (forEach _ releasePage s) as [[[]|e] s1]; [|done].
    by destruct (forEach _ releaseContext s1) as [[[]|e] s2]. }
  rewrite (bind_ok _ _ _ _ _ Hloops). mrun. cbn [browser].
  destruct (browser (this s)) as [b|]; [|done].
  unfold browserClose. mrun. case_rejects; [done|]. by mrun.
Qed.

(** *** [initializeBrowser] *)

(** On a manager that is not initialised. *)
Lemma mgr_initializeBrowser_first s :
  isInitialized (this s) = false ->
  initializeBrowser s
  = match rejects env (trace (world s))
            (Launch (selectedBrowserOption (this s)) (shouldUseHeadless (this s))
               launchArgs) with
    | Some msg =>
        (Throw (ExternalError msg),
         mkState (setBrowserType (selectedBrowserOption (this s)) (this s))
           (logEvent
              (Launch (selectedBrowserOption (this s)) (shouldUseHeadless (this s))
                 launchArgs, Throw (ExternalError msg))
              (world s)))
    | None =>
        let launched :=
          (Launch (selectedBrowserOption (this s)) (shouldUseHeadless (this s))
             launchArgs, Ok (VObject (length (browsers (world s))))) in
        (Ok (length (browsers (world s))),
         mkState
           (mkThis (Some (length (browsers (world s))))
              (Some (selectedBrowserOption (this s))) true
              (pagePool (this s)) (contextPool (this s))
              (shouldUseHeadless (this s)) (selectedBrowserOption (this s)))
           (mkWorld
              (browsers (world s)
               ++ [mkBrowserObj (selectedBrowserOption (this s))
                     (shouldUseHeadless (this s)) true
                     (Some (pretty (now env (trace (world s) ++ [launched]))))])
              (contexts (world s)) (pages (world s))
              (trace (world s) ++ [launched])))
    end.
Proof.
  intros Hinit.
  assert (Hsel : match selectedBrowserOption (this s) with
                 | chromium => chromium
                 | firefox => firefox
                 | webkit => webkit
                 end = selectedBrowserOption (this s))
    by (by destruct (selectedBrowserOption _)).
  unfold initializeBrowser, PlaywrightManager.initializeBrowser. mrun.
  rewrite Hinit. mrun. rewrite Hinit. cbn [negb]. mrun. rewrite Hsel.
  mgr_fields. mrun. unfold launch. mrun. mgr_fields.
  case_rejects; [done|]. mrun.
  unfold dateNow, setInstanceId, gets, modify, bind, consoleLog, setThis, getThis,
    ret, dereference. cbn. mgr_fields.
  by rewrite alter_app_last.
Qed.

(** With another engine selected than the one running: [closeAll], then
    as on a manager that is not initialised. *)
Lemma mgr_initializeBrowser_switch_eq s b running :
  isInitialized (this s) = true ->
  browser (this s) = Some b ->
  rejects env (trace (world s)) (BrowserTypeName b) = None ->
  browserEngine (world s) b = Some running ->
  running <> selectedBrowserOption (this s) ->
  initializeBrowser s
  = (closeAll ;; setThis (setIsInitialized false) ;; initializeBrowser)
      (mkState (this s)
         (logEvent (BrowserTypeName b, Ok (VString (engineName running))) (world s))).
Proof.
  intros Hinit Hb Hname Hengine Hne.
  unfold initializeBrowser at 1, PlaywrightManager.initializeBrowser. mrun.
  rewrite Hinit. mrun. rewrite Hb. unfold browserTypeName. mrun. rewrite Hname. mrun.
  rewrite Hengine. cbn [fmap option_fmap option_map]. mrun.
  rewrite decide_True by (intros ?%engineName_inj; done). mrun.
  match goal with
  | |- bind closeAll ?k1 ?st = bind closeAll ?k2 ?st =>
      destruct (closeAll st) as [[[]|e] s1] eqn:Hca;
      [rewrite !(bind_ok _ _ _ _ _ Hca)|by rewrite !(bind_throw _ _ _ _ _ Hca)]
  end.
  mrun. unfold initializeBrowser, PlaywrightManager.initializeBrowser. mrun. mgr_fields.
  by mrun.
Qed.

(** What a successful [initializeBrowser] leaves behind. *)
Lemma mgr_initializeBrowser_ok s b s' :
  initializeBrowser s = (Ok b, s') ->
  browser (this s') = Some b /\
  isInitialized (this s') = true /\
  browserEngine (world s') b = Some (selectedBrowserOption (this s)) /\
  selectedBrowserOption (this s') = selectedBrowserOption (this s) /\
  shouldUseHeadless (this s') = shouldUseHeadless (this s).
Proof.
  assert (Hnew : forall (s0 : State This) b0 s0',
            isInitialized (this s0) = false ->
            initializeBrowser s0 = (Ok b0, s0') ->
            browser (this s0') = Some b0 /\ isInitialized (this s0') = true /\
            browserEngine (world s0') b0 = Some (selectedBrowserOption (this s0)) /\
            selectedBrowserOption (this s0') = selectedBrowserOption (this s0) /\
            shouldUseHeadless (this s0') = shouldUseHeadless (this s0)).
  { intros s0 b0 s0' Hinit0. rewrite (mgr_initializeBrowser_first s0 Hinit0).
    case_rejects; [done|]. cbn zeta. intros [= <- <-]. cbn.
    unfold browserEngine. cbn. by rewrite lookup_app_r, Nat.sub_diag by lia. }
  destruct (isInitialized (this s)) eqn:Hinit; [|by apply Hnew].
  destruct (browser (this s)) as [b0|] eqn:Hb.
  2:{ unfold initializeBrowser, PlaywrightManager.initializeBrowser. mrun.
      rewrite Hinit. mrun. rewrite Hb. by mrun. }
  destruct (rejects env (trace (world s)) (BrowserTypeName b0)) as [msg|] eqn:Hname.
  { unfold initializeBrowser, PlaywrightManager.initializeBrowser. mrun.
    rewrite Hinit. mrun. rewrite Hb. unfold browserTypeName. mrun.
    rewrite Hname. by mrun. }
  destruct (browserEngine (world s) b0) as [running|] eqn:Hengine.
  2:{ unfold initializeBrowser, PlaywrightManager.initializeBrowser. mrun.
      rewrite Hinit. mrun. rewrite Hb. unfold browserTypeName. mrun.
      rewrite Hname. mrun. rewrite Hengine. cbn [fmap option_fmap option_map].
      by mrun. }
  destruct (decide (running = selectedBrowserOption (this s))) as [->|Hne].
  - unfold initializeBrowser, PlaywrightManager.initializeBrowser. mrun.
    rewrite Hinit. mrun. rewrite Hb. unfold browserTypeName. mrun.
    rewrite Hname. mrun. rewrite Hengine. cbn [fmap option_fmap option_map]. mrun.
    rewrite decide_False by (intros H; by apply H). mrun.
    intros [= <- <-]. cbn [this world]. by rewrite browserEngine_logEvent.
  - rewrite (mgr_initializeBrowser_switch_eq s b0 running Hinit Hb Hname Hengine Hne).
    intros ([] & s1 & Hca & H)%bind_Ok_inv.
    revert H. mrun. intros H.
    destruct (mgr_closeAll_cases
                (mkState (this s)
                   (logEvent (BrowserTypeName b0, Ok (VString (engineName running)))
                      (world s)))) as (w1 & _ & Hcases).
    rewrite Hca in Hcases. cbn [this browser] in Hcases. rewrite Hb in Hcases.
    destruct (rejects env (trace w1) (BrowserClose b0)); [done|].
    injection Hcases as ->.
    apply Hnew in H; [|done]. revert H. cbn [this world]. mgr_fields. done.
Qed.

(** [init] is [setConfig] followed by [initializeBrowser]. *)
Lemma mgr_init_ok headless browserOption s b s' :
  init headless browserOption s = (Ok b, s') ->
  browser (this s') = Some b /\
  isInitialized (this s') = true /\
  browserEngine (world s') b = Some browserOption /\
  selectedBrowserOption (this s') = browserOption /\
  shouldUseHeadless (this s') = headless.
Proof.
  unfold init, PlaywrightManager.init, setConfig. mrun.
  by intros H%mgr_initializeBrowser_ok.
Qed.

End Facts.
End ManagerMore.

(** ** Contexts and pages of [PlaywrightManager] *)

Module ManagerPages.
Import PlaywrightManager ManagerFacts ManagerMore.

Section Facts.
Variable env : Environment.

Local Abbreviation initializeBrowser := (initializeBrowser env).
Local Abbreviation getOrCreateContext := (getOrCreateContext env).
Local Abbreviation createPage := (createPage env).

(** *** [getOrCreateContext] *)

Lemma mgr_getOrCreateContext_initialized s contextId :
  isInitialized (this s) = true ->
  getOrCreateContext contextId s
  = match JsMap.get contextId (contextPool (this s)) with
    | Some context => (Ok context, s)
    | None =>
        match browser (this s) with
        | None => (Throw (TypeError "Cannot read properties of undefined"), s)
        | Some b =>
            let call := NewContext b viewportWidth viewportHeight userAgent in
            match rejects env (trace (world s)) call with
            | Some msg =>
                (Throw (ExternalError msg),
                 mkState (this s) (logEvent (call, Throw (ExternalError msg)) (world s)))
            | None =>
                let context := length (contexts (world s)) in
                let w1 :=
                  logEvent (call, Ok (VObject context))
                    (mkWorld (browsers (world s))
                       (contexts (world s) ++ [mkContextObj b false])
                       (pages (world s)) (trace (world s))) in
                match rejects env (trace w1) (AddInitScript context) with
                | Some msg =>
                    (Throw (ExternalError msg),
                     mkState (this s)
                       (logEvent (AddInitScript context, Throw (ExternalError msg)) w1))
                | None =>
                    (Ok context,
                     mkState (setContextPool (JsMap.set contextId context) (this s))
                       (logEvent (AddInitScript context, Ok VUndefined) w1))
                end
            end
        end
    end.
Proof.
  intros Hinit. unfold getOrCreateContext, PlaywrightManager.getOrCreateContext.
  mrun. rewrite Hinit. cbn [negb]. mrun. unfold JsMap.has.
  destruct (JsMap.get contextId (contextPool (this s))) as [c|] eqn:Hc; cbn [negb].
  { mrun. rewrite Hc. by destruct s. }
  mrun. destruct (browser (this s)) as [b|]; [|done]. mrun.
  unfold newContext, addInitScript. mrun. cbn zeta.
  case_rejects; [done|]. mrun. case_rejects; [done|]. mrun. mgr_fields.
  by rewrite get_set_eq.
Qed.

Lemma mgr_getOrCreateContext_uninitialized s contextId :
  isInitialized (this s) = false ->
  getOrCreateContext contextId s
  = (initializeBrowser ;; getOrCreateContext contextId) s.
Proof.
  intros Hinit. unfold getOrCreateContext at 1, PlaywrightManager.getOrCreateContext.
  mrun. rewrite Hinit. cbn [negb]. mrun.
  destruct (initializeBrowser s) as [[b|e] s1] eqn:Hib.
  2:{ by rewrite !(bind_throw _ _ _ _ _ Hib). }
  rewrite !(bind_ok _ _ _ _ _ Hib).
  destruct (mgr_initializeBrowser_ok env _ _ _ Hib) as (_ & Hinit1 & _).
  unfold getOrCreateContext, PlaywrightManager.getOrCreateContext.
  mrun. rewrite Hinit1. cbn [negb]. by mrun.
Qed.

(** What [getOrCreateContext] leaves alone, however it ends. *)
Lemma mgr_getOrCreateContext_frame s contextId :
  pagePool (this (getOrCreateContext contextId s).2) = pagePool (this s) /\
  pages (world (getOrCreateContext contextId s).2) = pages (world s) /\
  contexts (world s) `prefix_of` contexts (world (getOrCreateContext contextId s).2) /\
  (forall other, other <> contextId ->
     JsMap.get other (contextPool (this (getOrCreateContext contextId s).2))
     = JsMap.get other (contextPool (this s))) /\
  (is_ok (getOrCreateContext contextId s).1 = false ->
   contextPool (this (getOrCreateContext contextId s).2) = contextPool (this s)).
Proof.
  assert (Hinitialized : forall s0 : State This,
            isInitialized (this s0) = true ->
            pagePool (this (getOrCreateContext contextId s0).2) = pagePool (this s0) /\
            pages (world (getOrCreateContext contextId s0).2) = pages (world s0) /\
            contexts (world s0)
              `prefix_of` contexts (world (getOrCreateContext contextId s0).2) /\
            (forall other, other <> contextId ->
               JsMap.get other (contextPool (this (getOrCreateContext contextId s0).2))
               = JsMap.get other (contextPool (this s0))) /\
            (is_ok (getOrCreateContext contextId s0).1 = false ->
             contextPool (this (getOrCreateContext contextId s0).2)
             = contextPool (this s0))).
  { intros s0 Hinit. rewrite (mgr_getOrCreateContext_initialized s0 contextId Hinit).
    destruct (JsMap.get contextId (contextPool (this s0))) as [c|]; [done|].
    destruct (browser (this s0)) as [b|]; [|done]. cbn zeta.
    case_rejects; [done|]. case_rejects; cbn; mgr_fields.
    - repeat split; try done. by apply prefix_app_r.
    - repeat split; try done; [by apply prefix_app_r|].
      intros other Hne. by rewrite get_set_ne. }
  destruct (isInitialized (this s)) eqn:Hinit; [by apply Hinitialized|].
  rewrite (mgr_getOrCreateContext_uninitialized s contextId Hinit). unfold bind.
  rewrite (mgr_initializeBrowser_first env s Hinit).
  case_rejects; [done|]. cbv beta iota zeta.
  match goal with
  | |- context [getOrCreateContext contextId ?st] =>
      destruct (Hinitialized st eq_refl) as (-> & -> & Hctx & Hother & Hfail)
  end.
  done.
Qed.

(** *** [createPage] *)

Lemma mgr_createPage_cases s contextId pageId :
  createPage contextId pageId s
  = match getOrCreateContext contextId s with
    | (Throw e, s1) => (Throw e, s1)
    | (Ok context, s1) =>
        match rejects env (trace (world s1)) (ContextNewPage context) with
        | Some msg =>
            (Throw (ExternalError msg),
             mkState (this s1)
               (logEvent (ContextNewPage context, Throw (ExternalError msg)) (world s1)))
        | None =>
            let page := length (pages (world s1)) in
            let w2 :=
              logEvent (ContextNewPage context, Ok (VObject page))
                (mkWorld (browsers (world s1)) (contexts (world s1))
                   (pages (world s1) ++ [mkPageObj context false]) (trace (world s1))) in
            let t2 := setPagePool (JsMap.set pageId page) (this s1) in
            match rejects env (trace w2) (PageRoute page "**/*" 1) with
            | Some msg =>
                (Throw (ExternalError msg),
                 mkState t2 (logEvent (PageRoute page "**/*" 1, Throw (ExternalError msg)) w2))
            | None =>
                (Ok page,
                 mkState t2 (logEvent (PageRoute page "**/*" 1, Ok VUndefined) w2))
            end
        end
    end.
Proof.
  unfold createPage, PlaywrightManager.createPage.
  destruct (getOrCreateContext contextId s) as [[c|e] s1] eqn:Hc.
  2:{ by rewrite (bind_throw _ _ _ _ _ Hc). }
  rewrite (bind_ok _ _ _ _ _ Hc). unfold contextNewPage, pageRoute. mrun.
  case_rejects; [done|]. mrun. cbn zeta. case_rejects; [done|]. by mrun.
Qed.

Lemma mgr_createPage_facts s contextId pageId :
  match createPage contextId pageId s with
  | (Ok page, s') =>
      page = length (pages (world s)) /\
      (exists context,
         JsMap.get contextId (contextPool (this s')) = Some context /\
         pages (world s') = pages (world s) ++ [mkPageObj context false]) /\
      pagePool (this s')
      = JsMap.set pageId page (pagePool (this s))
  | (Throw e, s') =>
      libraryError e /\
      (pagePool (this s') = pagePool (this s) /\ pages (world s') = pages (world s) \/
       exists context msg,
         last (trace (world s'))
         = Some (PageRoute (length (pages (world s))) "**/*" 1,
                 Throw (ExternalError msg)) /\
         pagePool (this s')
         = JsMap.set pageId (length (pages (world s)))
             (pagePool (this s)) /\
         pages (world s') = pages (world s) ++ [mkPageObj context false])
  end.
Proof.
  rewrite mgr_createPage_cases.
  pose proof (mgr_getOrCreateContext_frame s contextId) as (Hpool & Hpages & _).
  pose proof (mgr_getOrCreateContext_run env contextId s) as Hrun.
  destruct (getOrCreateContext contextId s) as [[c|e] s1] eqn:Hc;
    specialize (Hrun _ _ eq_refl); cbn [fst snd] in *.
  2:{ split; [done|]. by left. }
  case_rejects.
  { split; [done|]. left. by rewrite <- Hpool, <- Hpages. }
  cbn zeta. case_rejects; cbn [this world]; mgr_fields.
  - split; [done|]. right. exists c. eexists. cbn [trace logEvent].
    rewrite last_snoc, Hpages, Hpool. done.
  - rewrite Hpages, Hpool. split; [done|]. split; [|done]. by exists c.
Qed.

End Facts.
End ManagerPages.

Module ManagerRelease.
Import PlaywrightManager ManagerFacts ManagerTeardown ManagerMore Quietly.

Section Facts.
Variable env : Environment.

Local Abbreviation releasePage := (releasePage env).
Local Abbreviation releaseContext := (releaseContext env).

(** *** [releasePage] *)

Lemma mgr_releasePage_quiet pageId :
  keeps (lift Released Quiet) (fun _ => False) (releasePage pageId).
Proof.
  unfold releasePage, PlaywrightManager.releasePage. quiet_auto.
  intros t. split; try done. apply submap_delete.
Qed.

Lemma mgr_releasePage_cases pageId s :
  releasePage pageId s
  = (Ok tt,
     match JsMap.get pageId (pagePool (this s)) with
     | None => s
     | Some page =>
         mkState (setPagePool (JsMap.delete pageId) (this s))
           match rejects env (trace (world s)) (PageClose page) with
           | Some msg =>
               logEvent (PageClose page, Throw (ExternalError msg)) (world s)
           | None =>
               logEvent (PageClose page, Ok VUndefined)
                 (closePage page (world s))
           end
     end).
Proof.
  unfold releasePage, PlaywrightManager.releasePage. mrun.
  destruct (JsMap.get pageId (pagePool (this s))) as [page|]; [|by destruct s].
  unfold bind, tryCatch, pageClose. rewrite run_perform_last.
  by case_rejects.
Qed.

Lemma mgr_releasePage_contextPool pageId s :
  contextPool (this (releasePage pageId s).2) = contextPool (this s).
Proof. rewrite mgr_releasePage_cases. cbn. by destruct (JsMap.get _ _). Qed.

(** *** [releaseContext] *)

Lemma mgr_releaseContext_quiet contextId :
  keeps (lift Released Quiet) (fun _ => False) (releaseContext contextId).
Proof.
  unfold releaseContext, PlaywrightManager.releaseContext. quiet_auto.
  - eapply keeps_weaken; [| |apply mgr_releasePage_quiet]; [done|by intros].
  - apply mgr_releasePage_quiet.
  - intros t. split; try done. apply submap_delete.
Qed.

Lemma mgr_releaseContext_absent contextId s :
  JsMap.get contextId (contextPool (this s)) = None ->
  releaseContext contextId s = (Ok tt, s).
Proof.
  intros Hc. unfold releaseContext, PlaywrightManager.releaseContext. mrun.
  rewrite Hc. by destruct s.
Qed.

(** One round of the loop of [releaseContext] for the context object
    [context]. *)
Local Abbreviation round context entry :=
  (tryCatch
     (pageContext <- pageGetContext env (snd entry) ;;
      if decide (pageContext = context) then releasePage (fst entry) else ret tt)
     (fun error =>
        consoleLog "Error comparing browser contexts for page" ;;
        releasePage (fst entry))).

Lemma mgr_round_quiet context entry :
  keeps (lift Released Quiet) (fun _ => False) (round context entry).
Proof.
  quiet_auto.
  - eapply keeps_weaken; [| |apply mgr_releasePage_quiet]; [done|by intros].
  - apply mgr_releasePage_quiet.
Qed.

Lemma mgr_round_releases context entry s :
  pageContext (world (round context entry s).2) entry.2 = Some context ->
  JsMap.get entry.1 (pagePool (this (round context entry s).2)) = None.
Proof.
  unfold tryCatch, pageGetContext. mrun. case_rejects.
  { mrun. intros _. apply mgr_releasePage_removes. }
  mrun. destruct (pageContext (world s) entry.2) as [c|] eqn:Hc.
  2:{ mrun. intros _. apply mgr_releasePage_removes. }
  mrun. destruct (decide (c = context)) as [->|Hne].
  - intros _.
    match goal with
    | |- context [releasePage ?k ?st] =>
        pose proof (mgr_releasePage_removes env k st) as Hrem;
        pose proof (mgr_releasePage_cases k st) as Hcases
    end.
    by rewrite Hcases in Hrem |- *.
  - cbn. unfold pageContext in *. cbn. rewrite Hc. by intros [= ->].
Qed.

Lemma mgr_releaseContext_pages contextId context s pageId page :
  JsMap.get contextId (contextPool (this s)) = Some context ->
  JsMap.get pageId (pagePool (this s)) = Some page ->
  pageContext (world s) page = Some context ->
  JsMap.get pageId (pagePool (this (releaseContext contextId s).2)) = None.
Proof.
  intros Hc Hinfo Hctx. unfold releaseContext, PlaywrightManager.releaseContext.
  mrun. rewrite Hc. mrun.
  destruct (forEach_establishes (lift Released Quiet)
              (fun entry st =>
                 pageContext (world st) entry.2 = Some context ->
                 JsMap.get entry.1 (pagePool (this st)) = None)
              (JsMap.entries (pagePool (this s))) (fun entry => round context entry)
              (mgr_round_quiet context) (mgr_round_releases context)) with (s := s)
    as (Hok & [Hrel [_ Hsame]] & Hall).
  { intros entry s1 s2 [[_ _ _ _ _ Hsub _] [_ Hsame]] HP Hctx2.
    rewrite Hsame in Hctx2. specialize (HP Hctx2).
    destruct (JsMap.get entry.1 (pagePool (this s2))) as [v|] eqn:Hv; [|done].
    apply Hsub in Hv. congruence. }
  destruct (forEach _ (fun entry => round context entry) s) as [r1 s1] eqn:Hloop.
  cbn [fst snd] in *. subst r1.
  rewrite (bind_ok _ _ _ _ _ Hloop).
  specialize (Hall (pageId, page) (get_elem_of _ _ _ Hinfo)). cbn [fst snd] in Hall.
  rewrite Hsame in Hall. specialize (Hall Hctx).
  unfold tryCatch, contextClose, bind. rewrite run_perform_last.
  case_rejects; cbn; mgr_fields; done.
Qed.

(** The mgr_fields other than the pools, and the entries of other contexts,
    are left alone. *)
Lemma mgr_releaseContext_others contextId s :
  (releaseContext contextId s).1 = Ok tt /\
  Released (this s) (this (releaseContext contextId s).2) /\
  Teardown (world s) (world (releaseContext contextId s).2) /\
  JsMap.get contextId (contextPool (this (releaseContext contextId s).2)) = None /\
  (forall other, other <> contextId ->
     JsMap.get other (contextPool (this (releaseContext contextId s).2))
     = JsMap.get other (contextPool (this s))).
Proof.
  destruct (mgr_releaseContext_quiet contextId s) as [[Hrel [Htd _]] Hthrow].
  split.
  { destruct (releaseContext contextId s) as [[[]|e] s'] eqn:Hrun; [done|].
    by destruct (Hthrow e). }
  split; [done|]. split; [done|]. split; [apply mgr_releaseContext_removes|].
  intros other Hne.
  destruct (JsMap.get contextId (contextPool (this s))) as [c|] eqn:Hc.
  2:{ by rewrite (mgr_releaseContext_absent _ _ Hc). }
  unfold releaseContext, PlaywrightManager.releaseContext. mrun. rewrite Hc. mrun.
  assert (Hpool : forall es (st : State This),
            contextPool (this (forEach es (fun entry => round c entry) st).2)
            = contextPool (this st)).
  { induction es as [|entry es IH]; intros st; [done|]. cbn [forEach].
    assert (Hround : contextPool (this (round c entry st).2) = contextPool (this st)).
    { unfold tryCatch, pageGetContext. mrun. case_rejects; mrun.
      - by rewrite mgr_releasePage_contextPool.
      - destruct (pageContext (world st) entry.2) as [c'|]; mrun.
        + destruct (decide (c' = c)); cbv beta iota; [|done].
          match goal with
          | |- context [releasePage ?k ?st'] =>
              pose proof (mgr_releasePage_contextPool k st') as Hp;
              pose proof (f_equal fst (mgr_releasePage_cases k st')) as Hr;
              destruct (releasePage k st') as [r s2]; cbn in Hr, Hp; subst r;
              exact Hp
          end.
        + by rewrite mgr_releasePage_contextPool. }
    destruct (round c entry st) as [[[]|e] st1] eqn:Hr; cbn [fst snd] in Hround.
    - rewrite (bind_ok _ _ _ _ _ Hr). by rewrite IH.
    - by rewrite (bind_throw _ _ _ _ _ Hr). }
  specialize (Hpool (JsMap.entries (pagePool (this s))) s).
  destruct (forEach_establishes (lift Released Quiet)
              (fun (entry : string * Page) (st : State This) => True)
              (JsMap.entries (pagePool (this s))) (fun entry => round c entry)
              (mgr_round_quiet c) ltac:(done) ltac:(done) s)
    as (Hok & _ & _).
  destruct (forEach _ (fun entry => round c entry) s) as [r1 s1] eqn:Hloop.
  cbn [fst snd] in *. subst r1.
  rewrite (bind_ok _ _ _ _ _ Hloop).
  unfold tryCatch, contextClose, bind. rewrite run_perform_last.
  case_rejects; cbn; mgr_fields; rewrite Hpool; by apply get_delete_ne.
Qed.

End Facts.
End ManagerRelease.

Module ManagerLogin.
Import PlaywrightManager ManagerFacts ManagerTeardown ManagerMore ManagerPages.

Section Facts.
Variable env : Environment.

Local Abbreviation ensureBrowser := (ensureBrowser env).
Local Abbreviation existingOrNewPage := (existingOrNewPage env).
Local Abbreviation loginToOnchSite := (loginToOnchSite env).
Local Abbreviation loginToCoupangSite := (loginToCoupangSite env).

Lemma mgr_loginPrefix_any browserOption contextId pageId :
  keeps (lift anyThis (Evolves anyCall)) libraryError
    (ensureBrowser browserOption ;; existingOrNewPage contextId pageId).
Proof.
  keeps_step.
  - eapply keeps_weaken; [| |apply mgr_ensureBrowser_any]; [apply setup_any|done].
  - eapply keeps_weaken; [| |apply mgr_existingOrNewPage_keeps]; [apply setup_any|done].
Qed.

(** What the login methods throw. *)
Lemma mgr_loginToOnchSite_throws store contextId pageId browserOption s e s' :
  loginToOnchSite store contextId pageId browserOption s = (Throw e, s') ->
  exists cause, libraryError cause /\ e = OnchLoginError (message cause).
Proof.
  unfold loginToOnchSite, PlaywrightManager.loginToOnchSite.
  intros [(a & _ & [=])|(cause & s1 & Hbody & Hcatch)]%tryCatch_inv.
  exists cause. split; [|revert Hcatch; mrun; by intros [= <- _]].
  rewrite <- run_assoc in Hbody.
  match type of Hbody with
  | ?m s = _ => assert (Hk : keeps (lift anyThis (Evolves anyCall)) libraryError m)
  end.
  { keeps_step; [apply mgr_loginPrefix_any|]. keeps_auto. }
  by apply (keeps_run _ _ _ _ _ _ Hk Hbody).
Qed.

Lemma mgr_loginToCoupangSite_throws contextId pageId browserOption s e s' :
  loginToCoupangSite contextId pageId browserOption s = (Throw e, s') ->
  exists cause, libraryError cause /\ e = CoupangLoginError (message cause).
Proof.
  unfold loginToCoupangSite, PlaywrightManager.loginToCoupangSite.
  intros [(a & _ & [=])|(cause & s1 & Hbody & Hcatch)]%tryCatch_inv.
  exists cause. split; [|revert Hcatch; mrun; by intros [= <- _]].
  rewrite <- run_assoc in Hbody.
  match type of Hbody with
  | ?m s = _ => assert (Hk : keeps (lift anyThis (Evolves anyCall)) libraryError m)
  end.
  { keeps_step; [apply mgr_loginPrefix_any|]. keeps_auto. }
  by apply (keeps_run _ _ _ _ _ _ Hk Hbody).
Qed.

(** The calls of a login that succeeds. *)
Lemma mgr_loginToCoupangSite_trace contextId pageId browserOption s page s' :
  loginToCoupangSite contextId pageId browserOption s = (Ok page, s') ->
  exists d present,
    Forall (fun ev : Event => setupCall ev.1 = true) d /\
    callsBetween (world s) (world s')
    = d ++ [(PageGoto page coupangLoginUrl 60000%N (Some "networkidle"), Ok VUndefined);
            (PageEvaluate page coupangLoginForm, Ok (VBool present))]
        ++ (if present
            then [(PageFill page "#username" (config env "L_COUPANG_EMAIL"),
                   Ok VUndefined);
                  (PageFill page "#password" (config env "L_COUPANG_PASSWORD"),
                   Ok VUndefined);
                  (KeyboardPress page "Enter", Ok VUndefined)]
            else []).
Proof.
  unfold loginToCoupangSite, PlaywrightManager.loginToCoupangSite, tryCatch.
  rewrite <- run_assoc.
  destruct ((ensureBrowser browserOption ;; existingOrNewPage contextId pageId) s)
    as [[pg|e] s2] eqn:Hpre;
    pose proof (mgr_loginPrefix_run _ _ _ _ _ _ _ Hpre) as [[(d & Hd & Hsetup) _ _] _].
  2:{ rewrite (bind_throw _ _ _ _ _ Hpre). by mrun. }
  rewrite (bind_ok _ _ _ _ _ Hpre).
  unfold pageGoto, pageHasElement, pageFill, keyboardPress, pageWaitForLoadState.
  mrun. case_rejects; [by mrun|]. mrun. case_rejects; [by mrun|]. mrun.
  destruct (elementPresent env _ pg coupangLoginForm) eqn:Hform; cbn [negb].
  - login_steps. intros [= <- <-]. exists d, true. split; [done|].
    between. rewrite Hd. between. done.
  - mrun. intros [= <- <-]. exists d, false. split; [done|].
    between. rewrite Hd. between. done.
Qed.

Lemma mgr_loginToOnchSite_trace store contextId pageId browserOption s page s' :
  loginToOnchSite store contextId pageId browserOption s = (Ok page, s') ->
  exists d,
    Forall (fun ev : Event => setupCall ev.1 = true) d /\
    callsBetween (world s) (world s')
    = d ++ [(PageGoto page onchLoginUrl 60000%N None, Ok VUndefined);
            (PageFill page onchEmailField
               (config env (if decide (store = "linkedout") then "L_ON_CHANNEL_EMAIL"
                            else "R_ON_CHANNEL_EMAIL")), Ok VUndefined);
            (PageFill page onchPasswordField
               (config env (if decide (store = "linkedout") then "L_ON_CHANNEL_PASSWORD"
                            else "R_ON_CHANNEL_PASSWORD")), Ok VUndefined);
            (PageClick page onchLoginButton, Ok VUndefined)].
Proof.
  unfold loginToOnchSite, PlaywrightManager.loginToOnchSite, tryCatch.
  rewrite <- run_assoc.
  destruct ((ensureBrowser browserOption ;; existingOrNewPage contextId pageId) s)
    as [[pg|e] s2] eqn:Hpre;
    pose proof (mgr_loginPrefix_run _ _ _ _ _ _ _ Hpre) as [[(d & Hd & Hsetup) _ _] _].
  2:{ rewrite (bind_throw _ _ _ _ _ Hpre). by mrun. }
  rewrite (bind_ok _ _ _ _ _ Hpre).
  unfold pageGoto, pageFill, pageClick, pageWaitForLoadState.
  destruct (decide (store = "linkedout")); login_steps;
    intros [= <- <-]; exists d; (split; [done|]);
    between; rewrite Hd; between; done.
Qed.

(** *** Logging in with another engine than the one running *)

Lemma mgr_initializeBrowser_switch_ok s b running b' s' :
  isInitialized (this s) = true ->
  browser (this s) = Some b ->
  browserEngine (world s) b = Some running ->
  running <> selectedBrowserOption (this s) ->
  initializeBrowser env s = (Ok b', s') ->
  pagePool (this s') = [] /\ contextPool (this s') = [] /\
  isInitialized (this s') = true /\
  browserConnected (world s') b = false.
Proof.
  intros Hinit Hb Hengine Hne.
  destruct (rejects env (trace (world s)) (BrowserTypeName b)) as [msg|] eqn:Hname.
  { unfold initializeBrowser. mrun. rewrite Hinit. mrun. rewrite Hb.
    unfold browserTypeName. mrun. rewrite Hname. by mrun. }
  rewrite (mgr_initializeBrowser_switch_eq env s b running Hinit Hb Hname Hengine Hne).
  intros ([] & s1 & Hca & H)%bind_Ok_inv. revert H. mrun.
  destruct (mgr_closeAll_cases env
              (mkState (this s)
                 (logEvent (BrowserTypeName b, Ok (VString (engineName running)))
                    (world s)))) as (w1 & [_ Hbrowsers] & Hcases).
  rewrite Hca in Hcases. cbn [this browser world] in Hcases, Hbrowsers.
  rewrite Hb in Hcases.
  destruct (rejects env (trace w1) (BrowserClose b)); [done|].
  injection Hcases as ->.
  rewrite mgr_initializeBrowser_first by done. cbn [this world]. mgr_fields.
  case_rejects; [done|]. cbn zeta. intros [= <- <-]. cbn [this world]. mgr_fields.
  do 3 (split; [done|]).
  assert (Hlt : b < length (browsers (world s))).
  { unfold browserEngine in Hengine.
    destruct (browsers (world s) !! b) eqn:Ho; [|done]. by eapply lookup_lt_Some. }
  unfold browserConnected, closeBrowser. cbn.
  rewrite lookup_app_l by (by rewrite length_alter, Hbrowsers).
  rewrite list_lookup_alter_eq. by destruct (browsers w1 !! b).
Qed.

Lemma mgr_loginPrefix_switch browserOption contextId pageId s page s2 b running :
  isInitialized (this s) = true ->
  browser (this s) = Some b ->
  browserEngine (world s) b = Some running ->
  running <> browserOption ->
  (ensureBrowser browserOption ;; existingOrNewPage contextId pageId) s = (Ok page, s2) ->
  pagePool (this s2) = [(pageId, page)] /\
  (exists context, contextPool (this s2) = [(contextId, context)]) /\
  browserConnected (world s2) b = false /\
  selectedBrowserOption (this s2) = browserOption /\
  shouldUseHeadless (this s2) = true.
Proof.
  intros Hinit Hb Hengine Hne ([] & s1 & Hensure & Hpage)%bind_Ok_inv.
  assert (Hs1 : pagePool (this s1) = [] /\ contextPool (this s1) = [] /\
                isInitialized (this s1) = true /\
                browserConnected (world s1) b = false /\
                selectedBrowserOption (this s1) = browserOption /\
                shouldUseHeadless (this s1) = true /\
                is_Some (browser (this s1))).
  { revert Hensure. unfold ensureBrowser, PlaywrightManager.ensureBrowser. mrun.
    rewrite Hinit. cbn [negb]. mrun. rewrite Hb. unfold browserTypeName. mrun.
    case_rejects; [done|]. mrun. rewrite Hengine.
    cbn [fmap option_fmap option_map]. mrun.
    rewrite bool_decide_eq_true_2 by (intros ?%engineName_inj; done).
    unfold init, setConfig. mrun.
    intros (b' & s1' & Hib & [= <-])%bind_Ok_inv.
    destruct (mgr_initializeBrowser_ok env _ _ _ Hib) as (Hb' & _ & _ & Hsel & Hhl).
    apply mgr_initializeBrowser_switch_ok with (b := b) (running := running) in Hib
      as (Hp & Hc & Hi & Hconn); try done. }
  destruct Hs1 as (Hp & Hc & Hi & Hconn & Hsel & Hhl & [b1 Hb1]).
  revert Hpage. unfold existingOrNewPage, PlaywrightManager.existingOrNewPage.
  rewrite (bind_ok _ _ _ _ _ (mgr_getPage_run pageId s1)). rewrite Hp. cbn.
  mrun. rewrite mgr_createPage_cases, mgr_getOrCreateContext_initialized by done.
  rewrite Hc. cbn [JsMap.get]. rewrite Hb1. cbn zeta.
  case_rejects; [done|]. case_rejects; [done|]. case_rejects; [done|].
  case_rejects; [done|]. intros [= <- <-]. cbn [this world]. mgr_fields.
  rewrite Hp, Hc, Hsel, Hhl. cbn.
  split; [done|]. split; [by eexists|]. split; [|done].
  unfold browserConnected in *. cbn. done.
Qed.

(** After the page is in hand a login changes neither the mgr_fields nor the
    objects of the library. *)
Lemma mgr_loginToCoupangSite_state contextId pageId browserOption s page s' :
  loginToCoupangSite contextId pageId browserOption s = (Ok page, s') ->
  exists s2,
    (ensureBrowser browserOption ;; existingOrNewPage contextId pageId) s = (Ok page, s2) /\
    this s' = this s2 /\ browsers (world s') = browsers (world s2) /\
    contexts (world s') = contexts (world s2) /\ pages (world s') = pages (world s2).
Proof.
  unfold loginToCoupangSite, PlaywrightManager.loginToCoupangSite, tryCatch.
  rewrite <- run_assoc.
  destruct ((ensureBrowser browserOption ;; existingOrNewPage contextId pageId) s)
    as [[pg|e] s2] eqn:Hpre.
  2:{ rewrite (bind_throw _ _ _ _ _ Hpre). by mrun. }
  rewrite (bind_ok _ _ _ _ _ Hpre).
  unfold pageGoto, pageHasElement, pageFill, keyboardPress, pageWaitForLoadState.
  mrun. case_rejects; [by mrun|]. mrun. case_rejects; [by mrun|]. mrun.
  destruct (elementPresent env _ pg coupangLoginForm); cbn [negb].
  - login_steps. intros [= <- <-]. by exists s2.
  - mrun. intros [= <- <-]. by exists s2.
Qed.

Lemma mgr_loginToOnchSite_state store contextId pageId browserOption s page s' :
  loginToOnchSite store contextId pageId browserOption s = (Ok page, s') ->
  exists s2,
    (ensureBrowser browserOption ;; existingOrNewPage contextId pageId) s = (Ok page, s2) /\
    this s' = this s2 /\ browsers (world s') = browsers (world s2) /\
    contexts (world s') = contexts (world s2) /\ pages (world s') = pages (world s2).
Proof.
  unfold loginToOnchSite, PlaywrightManager.loginToOnchSite, tryCatch.
  rewrite <- run_assoc.
  destruct ((ensureBrowser browserOption ;; existingOrNewPage contextId pageId) s)
    as [[pg|e] s2] eqn:Hpre.
  2:{ rewrite (bind_throw _ _ _ _ _ Hpre). by mrun. }
  rewrite (bind_ok _ _ _ _ _ Hpre).
  unfold pageGoto, pageFill, pageClick, pageWaitForLoadState.
  destruct (decide (store = "linkedout")); login_steps;
    intros [= <- <-]; by exists s2.
Qed.

End Facts.
End ManagerLogin.

(** ** Further properties of [PlaywrightManager] *)

Module ManagerProperties.
Import PlaywrightManager.

(** X12.  [PlaywrightManager] ([unnamed/part_001]).
    [releasePage] never throws, also when [page.close()] does.  If
    the pool holds a page under [pageId], [close()] is called on it, once,
    and the entry is removed whether or not the call threw; the other
    entries and the context pool stay as they are.  If the pool holds
    nothing under [pageId], nothing happens at all. *)
Theorem mgr_releasePage_removes_entry :
  forall (env : Environment) (pageId : string) (s : State This),
    (releasePage env pageId s).1 = Ok tt /\
    JsMap.get pageId (pagePool (this (releasePage env pageId s).2)) = None /\
    (forall other, other <> pageId ->
       JsMap.get other (pagePool (this (releasePage env pageId s).2))
       = JsMap.get other (pagePool (this s))) /\
    contextPool (this (releasePage env pageId s).2) = contextPool (this s) /\
    match JsMap.get pageId (pagePool (this s)) with
    | None => (releasePage env pageId s).2 = s
    | Some page =>
        match rejects env (trace (world s)) (PageClose page) with
        | Some msg =>
            world (releasePage env pageId s).2
            = logEvent (PageClose page, Throw (ExternalError msg)) (world s)
        | None =>
            world (releasePage env pageId s).2
            = logEvent (PageClose page, Ok VUndefined)
                (closePage page (world s))
        end
    end.
Proof.
  intros env pageId s. rewrite ManagerRelease.mgr_releasePage_cases. cbn [fst snd].
  split; [done|].
  destruct (JsMap.get pageId (pagePool (this s))) as [page|] eqn:Hinfo.
  - cbn [this world]. mgr_fields. split; [apply get_delete_eq|].
    split; [intros other Hne; by apply get_delete_ne|]. split; [done|].
    by case_rejects.
  - done.
Qed.

(** X13.  [PlaywrightManager] ([unnamed/part_001]).
    [releaseContext] never throws, also when calls into the
    library do.  If the pool holds a context under [contextId]: every
    pooled page whose [page.context()] is that context is released, the
    entry of the context is removed, the other context entries stay, no
    entry is added to either pool, and no other field changes; the calls
    made are [page.context()], [page.close()] and [context.close()] only.
    If the pool holds nothing under [contextId], nothing happens at all. *)
Theorem mgr_releaseContext_releases_its_pages :
  forall (env : Environment) (contextId : string) (s : State This),
    (releaseContext env contextId s).1 = Ok tt /\
    Released (this s) (this (releaseContext env contextId s).2) /\
    Teardown (world s) (world (releaseContext env contextId s).2) /\
    JsMap.get contextId (contextPool (this (releaseContext env contextId s).2)) = None /\
    (forall other, other <> contextId ->
       JsMap.get other (contextPool (this (releaseContext env contextId s).2))
       = JsMap.get other (contextPool (this s))) /\
    match JsMap.get contextId (contextPool (this s)) with
    | None => (releaseContext env contextId s).2 = s
    | Some context =>
        forall pageId page,
          JsMap.get pageId (pagePool (this s)) = Some page ->
          pageContext (world s) page = Some context ->
          JsMap.get pageId (pagePool (this (releaseContext env contextId s).2)) = None
    end.
Proof.
  intros env contextId s.
  destruct (ManagerRelease.mgr_releaseContext_others env contextId s)
    as (Hok & Hrel & Htd & Hgone & Hother).
  do 5 (split; [done|]).
  destruct (JsMap.get contextId (contextPool (this s))) as [context|] eqn:Hc.
  - intros pageId page Hinfo Hctx.
    by apply (ManagerRelease.mgr_releaseContext_pages env contextId context s pageId page).
  - by rewrite ManagerRelease.mgr_releaseContext_absent.
Qed.

Lemma mgr_releaseContext_releases_its_pages_witness :
  JsMap.get "p"
    (pagePool (this (releaseContext Scenario.calm "ctx" ManagerScenario.pooledPage).2))
  = None /\
  contextPool (this (releaseContext Scenario.calm "ctx" ManagerScenario.pooledPage).2) = [].
Proof.
  destruct (mgr_releaseContext_releases_its_pages Scenario.calm "ctx"
              ManagerScenario.pooledPage) as (_ & _ & _ & _ & _ & Hpages).
  split; [|vm_compute; reflexivity].
  apply (Hpages "p" 0); vm_compute; reflexivity.
Defined.

(** X14.  [PlaywrightManager] ([unnamed/part_001]).
    [closeAll] first releases every pooled page and every pooled
    context, which cannot throw, so that both pools are empty afterwards
    in every case.  If the manager has a browser, [browser.close()] is
    called then: if it throws, [closeAll] throws that error and the
    [isInitialized] flag stays as it was; if it returns, the flag is
    cleared and the browser is disconnected.  Without a browser nothing
    more is done. *)
Theorem mgr_closeAll_empties_pools :
  forall (env : Environment) (s : State This),
  exists w1,
    Teardown (world s) w1 /\
    closeAll env s
    = match browser (this s) with
      | None =>
          (Ok tt,
           mkState (mkThis None (browserType (this s)) (isInitialized (this s)) [] []
                      (shouldUseHeadless (this s)) (selectedBrowserOption (this s)))
             w1)
      | Some b =>
          match rejects env (trace w1) (BrowserClose b) with
          | Some msg =>
              (Throw (ExternalError msg),
               mkState (mkThis (Some b) (browserType (this s)) (isInitialized (this s))
                          [] [] (shouldUseHeadless (this s))
                          (selectedBrowserOption (this s)))
                 (logEvent (BrowserClose b, Throw (ExternalError msg)) w1))
          | None =>
              (Ok tt,
               mkState (mkThis (Some b) (browserType (this s)) false [] []
                          (shouldUseHeadless (this s)) (selectedBrowserOption (this s)))
                 (logEvent (BrowserClose b, Ok VUndefined) (closeBrowser b w1)))
          end
      end.
Proof. intros env s. apply ManagerMore.mgr_closeAll_cases. Qed.

(** X15.  [PlaywrightManager] ([unnamed/part_001]).
    [initializeBrowser] on a manager that is not initialised makes
    one call into the library, the launch of the selected engine with the
    stored headless flag and the fixed arguments.  If the launch throws,
    the error is thrown on and [isInitialized] stays unset (only
    [browserType] has been assigned), so that the next call launches
    again.  Otherwise the new browser is stored and returned, the flag is
    set, and the pools are as before. *)
Theorem mgr_first_initializeBrowser_launches :
  forall (env : Environment) (s : State This),
    isInitialized (this s) = false ->
    initializeBrowser env s
    = match rejects env (trace (world s))
              (Launch (selectedBrowserOption (this s)) (shouldUseHeadless (this s))
                 launchArgs) with
      | Some msg =>
          (Throw (ExternalError msg),
           mkState (setBrowserType (selectedBrowserOption (this s)) (this s))
             (logEvent
                (Launch (selectedBrowserOption (this s)) (shouldUseHeadless (this s))
                   launchArgs, Throw (ExternalError msg))
                (world s)))
      | None =>
          let launched :=
            (Launch (selectedBrowserOption (this s)) (shouldUseHeadless (this s))
               launchArgs, Ok (VObject (length (browsers (world s))))) in
          (Ok (length (browsers (world s))),
           mkState
             (mkThis (Some (length (browsers (world s))))
                (Some (selectedBrowserOption (this s))) true
                (pagePool (this s)) (contextPool (this s))
                (shouldUseHeadless (this s)) (selectedBrowserOption (this s)))
             (mkWorld
                (browsers (world s)
                 ++ [mkBrowserObj (selectedBrowserOption (this s))
                       (shouldUseHeadless (this s)) true
                       (Some (pretty (now env (trace (world s) ++ [launched]))))])
                (contexts (world s)) (pages (world s))
                (trace (world s) ++ [launched])))
      end.
Proof. intros env s. apply ManagerMore.mgr_initializeBrowser_first. Qed.

Lemma mgr_first_initializeBrowser_launches_witness :
  (initializeBrowser Scenario.calm newState).1 = Ok 0 /\
  trace (world (initializeBrowser Scenario.calm newState).2)
  = [(Launch chromium true launchArgs, Ok (VObject 0))].
Proof.
  rewrite (mgr_first_initializeBrowser_launches Scenario.calm newState eq_refl).
  split; reflexivity.
Defined.

(** X16.  [PlaywrightManager] ([unnamed/part_001]).
    Whenever [init(headless, browserOption)] returns, the browser
    it returns is the one stored in the manager, its engine is
    [browserOption], the manager is initialised, and the two settings
    are stored, whatever the state before: not initialised, running the
    same engine, or running another one. *)
Theorem mgr_init_runs_requested_engine :
  forall (env : Environment) (headless : bool) (browserOption : BrowserOption)
    (s : State This) (b : Browser) (s' : State This),
    init env headless browserOption s = (Ok b, s') ->
    browser (this s') = Some b /\
    isInitialized (this s') = true /\
    browserEngine (world s') b = Some browserOption /\
    selectedBrowserOption (this s') = browserOption /\
    shouldUseHeadless (this s') = headless.
Proof. intros env headless browserOption s b s'. apply ManagerMore.mgr_init_ok. Qed.

Lemma mgr_init_runs_requested_engine_witness :
  browserEngine (world (init Scenario.calm false webkit ManagerScenario.pooledPage).2) 1
  = Some webkit /\
  browser (this (init Scenario.calm false webkit ManagerScenario.pooledPage).2) = Some 1.
Proof.
  destruct (mgr_init_runs_requested_engine Scenario.calm false webkit
              ManagerScenario.pooledPage 1
              (init Scenario.calm false webkit ManagerScenario.pooledPage).2)
    as (Hb & _ & Hengine & _).
  - vm_compute. reflexivity.
  - split; [exact Hengine|exact Hb].
Defined.

(** X17.  [PlaywrightManager] ([unnamed/part_001]).
    [getOrCreateContext] looks at the pool before anything else
    (once the manager is initialised): a context pooled under [contextId]
    is returned as it is, without any call into the library, so also when
    it has been closed in the meantime.  In every case the page pool, the
    pages of the library, the contexts that exist already and the entries
    of the other context ids are left as they are; and when the method
    throws, the context pool is as before, so that a context that was
    created before the failure of [addInitScript] is not pooled. *)
Theorem mgr_getOrCreateContext_reuses_pooled :
  forall (env : Environment) (contextId : string) (s : State This),
    (forall context,
       isInitialized (this s) = true ->
       JsMap.get contextId (contextPool (this s)) = Some context ->
       getOrCreateContext env contextId s = (Ok context, s)) /\
    pagePool (this (getOrCreateContext env contextId s).2) = pagePool (this s) /\
    pages (world (getOrCreateContext env contextId s).2) = pages (world s) /\
    contexts (world s)
      `prefix_of` contexts (world (getOrCreateContext env contextId s).2) /\
    (forall other, other <> contextId ->
       JsMap.get other (contextPool (this (getOrCreateContext env contextId s).2))
       = JsMap.get other (contextPool (this s))) /\
    (is_ok (getOrCreateContext env contextId s).1 = false ->
     contextPool (this (getOrCreateContext env contextId s).2) = contextPool (this s)).
Proof.
  intros env contextId s. split; [|apply ManagerPages.mgr_getOrCreateContext_frame].
  intros context Hinit Hc.
  by rewrite ManagerPages.mgr_getOrCreateContext_initialized, Hc.
Qed.

Lemma mgr_getOrCreateContext_reuses_pooled_witness :
  getOrCreateContext Scenario.calm "ctx"
    (contextClose Scenario.calm 0 ManagerScenario.pooledPage).2
  = (Ok 0, (contextClose Scenario.calm 0 ManagerScenario.pooledPage).2) /\
  contextClosed (world (contextClose Scenario.calm 0 ManagerScenario.pooledPage).2) 0
  = true.
Proof.
  split; [|vm_compute; reflexivity].
  apply (proj1 (mgr_getOrCreateContext_reuses_pooled Scenario.calm "ctx"
                  (contextClose Scenario.calm 0 ManagerScenario.pooledPage).2));
    vm_compute; reflexivity.
Defined.

(** X18.  [PlaywrightManager] ([unnamed/part_001]).
    A page returned by [createPage] is a new object of the
    library, made in the context pooled under [contextId], and the pool
    holds it under [pageId] afterwards: an entry that was there before is
    replaced, and the page it held is neither closed nor released (the
    pages that existed are as they were).  The page is pooled before
    [page.route] is called: if that call throws, [createPage] throws
    while the pool holds the new page already.  If an earlier call throws,
    the page pool and the pages are as before. *)
Theorem mgr_createPage_replaces_entry :
  forall (env : Environment) (contextId pageId : string) (s : State This),
    match createPage env contextId pageId s with
    | (Ok page, s') =>
        page = length (pages (world s)) /\
        (exists context,
           JsMap.get contextId (contextPool (this s')) = Some context /\
           pages (world s') = pages (world s) ++ [mkPageObj context false]) /\
        pagePool (this s')
        = JsMap.set pageId page (pagePool (this s))
    | (Throw e, s') =>
        libraryError e /\
        (pagePool (this s') = pagePool (this s) /\ pages (world s') = pages (world s) \/
         exists context msg,
           last (trace (world s'))
           = Some (PageRoute (length (pages (world s))) "**/*" 1,
                   Throw (ExternalError msg)) /\
           pagePool (this s')
           = JsMap.set pageId (length (pages (world s)))
               (pagePool (this s)) /\
           pages (world s') = pages (world s) ++ [mkPageObj context false])
    end.
Proof. intros env contextId pageId s. apply ManagerPages.mgr_createPage_facts. Qed.

(** X19.  [PlaywrightManager] ([unnamed/part_001]).
    The two login methods throw errors of their own only:
    whatever goes wrong inside (launching, creating the context or the
    page, navigating, typing), the error that comes out is the login
    error of the method, and its text ends with the message of the error
    that was caught, which came from the library or from a call on an
    undefined browser. *)
Theorem mgr_login_errors_are_wrapped :
  forall (env : Environment) (store contextId pageId : string)
    (browserOption : BrowserOption) (s : State This) (e : JsError) (s' : State This),
    (loginToOnchSite env store contextId pageId browserOption s = (Throw e, s') ->
     exists cause,
       libraryError cause /\ e = OnchLoginError (message cause) /\
       message e = "온채널 로그인 중 오류 발생: " +:+ message cause) /\
    (loginToCoupangSite env contextId pageId browserOption s = (Throw e, s') ->
     exists cause,
       libraryError cause /\ e = CoupangLoginError (message cause) /\
       message e = "쿠팡 로그인 중 오류 발생: " +:+ message cause).
Proof.
  intros env store contextId pageId browserOption s e s'. split.
  - intros (cause & Hlib & ->)%ManagerLogin.mgr_loginToOnchSite_throws. by exists cause.
  - intros (cause & Hlib & ->)%ManagerLogin.mgr_loginToCoupangSite_throws. by exists cause.
Qed.

Lemma mgr_login_errors_are_wrapped_witness :
  exists cause,
    libraryError cause /\
    CoupangLoginError "Timeout 60000ms exceeded" = CoupangLoginError (message cause) /\
    message (CoupangLoginError "Timeout 60000ms exceeded")
    = "쿠팡 로그인 중 오류 발생: " +:+ message cause.
Proof.
  apply (proj2 (mgr_login_errors_are_wrapped
                  (mkEnvironment (fun _ _ => Some "Timeout 60000ms exceeded")
                     (fun _ _ _ => false) (fun _ => 1700) (fun key => Some key))
                  "linkedout" "ctx" "p" chromium newState
                  (CoupangLoginError "Timeout 60000ms exceeded")
                  (loginToCoupangSite
                     (mkEnvironment (fun _ _ => Some "Timeout 60000ms exceeded")
                        (fun _ _ _ => false) (fun _ => 1700) (fun key => Some key))
                     "ctx" "p" chromium newState).2)).
  vm_compute. reflexivity.
Defined.

(** X20.  [PlaywrightManager] ([unnamed/part_001]).
    The calls of a login of the manager that returns.  After
    the calls that prepare the browser, the context and the page,
    [loginToCoupangSite] navigates to the login address and asks whether
    the page shows the login form; if it does, it fills [#username] with
    the configured [L_COUPANG_EMAIL] and [#password] with
    [L_COUPANG_PASSWORD] and presses Enter, and it makes no other call:
    it does not wait for the page to settle.  [loginToOnchSite] navigates
    without a [waitUntil] option, fills the two fields with the configured
    [L_ON_CHANNEL_EMAIL] and [L_ON_CHANNEL_PASSWORD] when the store is
    [linkedout] and with [R_ON_CHANNEL_EMAIL] and [R_ON_CHANNEL_PASSWORD]
    for any other store, and clicks the login button. *)
Theorem mgr_login_call_sequence :
  forall (env : Environment) (store contextId pageId : string)
    (browserOption : BrowserOption) (s : State This) (page : Page) (s' : State This),
    (loginToCoupangSite env contextId pageId browserOption s = (Ok page, s') ->
     exists d present,
       Forall (fun ev : Event => setupCall ev.1 = true) d /\
       callsBetween (world s) (world s')
       = d ++ [(PageGoto page coupangLoginUrl 60000%N (Some "networkidle"),
                Ok VUndefined);
               (PageEvaluate page coupangLoginForm, Ok (VBool present))]
           ++ (if present
               then [(PageFill page "#username" (config env "L_COUPANG_EMAIL"),
                      Ok VUndefined);
                     (PageFill page "#password" (config env "L_COUPANG_PASSWORD"),
                      Ok VUndefined);
                     (KeyboardPress page "Enter", Ok VUndefined)]
               else [])) /\
    (loginToOnchSite env store contextId pageId browserOption s = (Ok page, s') ->
     exists d,
       Forall (fun ev : Event => setupCall ev.1 = true) d /\
       callsBetween (world s) (world s')
       = d ++ [(PageGoto page onchLoginUrl 60000%N None, Ok VUndefined);
               (PageFill page onchEmailField
                  (config env (if decide (store = "linkedout")
                               then "L_ON_CHANNEL_EMAIL" else "R_ON_CHANNEL_EMAIL")),
                Ok VUndefined);
               (PageFill page onchPasswordField
                  (config env (if decide (store = "linkedout")
                               then "L_ON_CHANNEL_PASSWORD"
                               else "R_ON_CHANNEL_PASSWORD")),
                Ok VUndefined);
               (PageClick page onchLoginButton, Ok VUndefined)]).
Proof.
  intros env store contextId pageId browserOption s page s'. split.
  - apply ManagerLogin.mgr_loginToCoupangSite_trace.
  - apply ManagerLogin.mgr_loginToOnchSite_trace.
Qed.

Lemma mgr_login_call_sequence_witness :
  exists d,
    Forall (fun ev : Event => setupCall ev.1 = true) d /\
    callsBetween (world ManagerScenario.pooledPage)
      (world (loginToOnchSite Scenario.calm "retail" "ctx" "p" chromium
                ManagerScenario.pooledPage).2)
    = d ++ [(PageGoto 0 onchLoginUrl 60000%N None, Ok VUndefined);
            (PageFill 0 onchEmailField (Some "R_ON_CHANNEL_EMAIL"), Ok VUndefined);
            (PageFill 0 onchPasswordField (Some "R_ON_CHANNEL_PASSWORD"),
             Ok VUndefined);
            (PageClick 0 onchLoginButton, Ok VUndefined)].
Proof.
  apply (proj2 (mgr_login_call_sequence Scenario.calm "retail" "ctx" "p" chromium
                  ManagerScenario.pooledPage 0
                  (loginToOnchSite Scenario.calm "retail" "ctx" "p" chromium
                     ManagerScenario.pooledPage).2)).
  vm_compute. reflexivity.
Defined.

(** X21.  [PlaywrightManager] ([unnamed/part_001]).
    A login that is asked for another engine than the one running
    tears everything down first: when it returns, the browser that was
    running is disconnected, the page pool holds the page of the login
    and nothing else, the context pool holds its context and nothing
    else, and the requested engine is stored in headless mode.  All other
    pooled pages and contexts are gone. *)
Theorem mgr_login_with_other_engine_drops_sessions :
  forall (env : Environment) (store contextId pageId : string)
    (browserOption running : BrowserOption) (s : State This) (b : Browser)
    (page : Page) (s' : State This),
    isInitialized (this s) = true ->
    browser (this s) = Some b ->
    browserEngine (world s) b = Some running ->
    running <> browserOption ->
    loginToCoupangSite env contextId pageId browserOption s = (Ok page, s') \/
    loginToOnchSite env store contextId pageId browserOption s = (Ok page, s') ->
    pagePool (this s') = [(pageId, page)] /\
    (exists context, contextPool (this s') = [(contextId, context)]) /\
    browserConnected (world s') b = false /\
    selectedBrowserOption (this s') = browserOption /\
    shouldUseHeadless (this s') = true.
Proof.
  intros env store contextId pageId browserOption running s b page s'
    Hinit Hb Hengine Hne Hlogin.
  assert (Hpre : exists s2,
            (ensureBrowser env browserOption ;;
             existingOrNewPage env contextId pageId) s = (Ok page, s2) /\
            this s' = this s2 /\ browsers (world s') = browsers (world s2)).
  { destruct Hlogin as [H|H].
    - apply ManagerLogin.mgr_loginToCoupangSite_state in H as (s2 & ? & ? & ? & _).
      by exists s2.
    - apply ManagerLogin.mgr_loginToOnchSite_state in H as (s2 & ? & ? & ? & _).
      by exists s2. }
  destruct Hpre as (s2 & Hpre & Hthis & Hbrowsers).
  destruct (ManagerLogin.mgr_loginPrefix_switch env browserOption contextId pageId s page s2
              b running Hinit Hb Hengine Hne Hpre) as (Hp & Hc & Hconn & Hsel & Hhl).
  rewrite Hthis. do 2 (split; [done|]). split; [|done].
  unfold browserConnected in *. by rewrite Hbrowsers.
Qed.

Lemma mgr_login_with_other_engine_drops_sessions_witness :
  pagePool (this (loginToCoupangSite Scenario.calm "other" "q" firefox
                    ManagerScenario.pooledPage).2)
  = [("q", 1)] /\
  JsMap.get "p" (pagePool (this ManagerScenario.pooledPage)) = Some 0.
Proof.
  split; [|vm_compute; reflexivity].
  apply (mgr_login_with_other_engine_drops_sessions Scenario.calm "linkedout" "other" "q"
           firefox chromium ManagerScenario.pooledPage 0 1
           (loginToCoupangSite Scenario.calm "other" "q" firefox
              ManagerScenario.pooledPage).2);
    try (vm_compute; reflexivity).
  - discriminate.
  - left. vm_compute. reflexivity.
Defined.

End ManagerProperties.

(** ** Both managers *)

Module EngineProperties.

(** X22.  [initializeBrowser] launches once.  In [PlaywrightService] and
    in [PlaywrightManager]: after a call that returned, from whatever
    state, the next call asks the browser for the name of its engine and,
    if that call does not throw, returns the same browser; it launches
    nothing, closes nothing and changes no field. *)
Theorem initializeBrowser_twice_launches_once :
  forall (env : Environment),
    (forall (s : State PlaywrightService.This) (b : Browser) s',
       PlaywrightService.initializeBrowser env s = (Ok b, s') ->
       rejects env (trace (world s')) (BrowserTypeName b) = None ->
       PlaywrightService.initializeBrowser env s'
       = (Ok b,
          mkState (this s')
            (logEvent
               (BrowserTypeName b,
                Ok (VString
                      (engineName (PlaywrightService.selectedBrowserOption (this s')))))
               (world s')))) /\
    (forall (s : State PlaywrightManager.This) (b : Browser) s',
       PlaywrightManager.initializeBrowser env s = (Ok b, s') ->
       rejects env (trace (world s')) (BrowserTypeName b) = None ->
       PlaywrightManager.initializeBrowser env s'
       = (Ok b,
          mkState (this s')
            (logEvent
               (BrowserTypeName b,
                Ok (VString
                      (engineName (PlaywrightManager.selectedBrowserOption (this s')))))
               (world s')))).
Proof.
  intros env. split; intros s b s' Hrun Hname.
  - destruct (ServiceMore.initializeBrowser_ok env s b s' Hrun)
      as (Hb & Hinit & Hengine & Hsel & _).
    apply ServiceFacts.initializeBrowser_reuse; try done. by rewrite Hsel.
  - destruct (ManagerMore.mgr_initializeBrowser_ok env s b s' Hrun)
      as (Hb & Hinit & Hengine & Hsel & _).
    apply ManagerTeardown.mgr_initializeBrowser_reuse; try done. by rewrite Hsel.
Qed.

Lemma initializeBrowser_twice_launches_once_witness :
  trace (world (PlaywrightManager.initializeBrowser Scenario.calm
                  (PlaywrightManager.initializeBrowser Scenario.calm
                     PlaywrightManager.newState).2).2)
  = [(Launch chromium true launchArgs, Ok (VObject 0));
     (BrowserTypeName 0, Ok (VString "chromium"))] /\
  (PlaywrightManager.initializeBrowser Scenario.calm
     (PlaywrightManager.initializeBrowser Scenario.calm PlaywrightManager.newState).2).1
  = Ok 0.
Proof.
  rewrite (proj2 (initializeBrowser_twice_launches_once Scenario.calm)
             PlaywrightManager.newState 0
             (PlaywrightManager.initializeBrowser Scenario.calm
                PlaywrightManager.newState).2);
    [split| |]; vm_compute; reflexivity.
Defined.

End EngineProperties.

(** ** [navigateSafely] *)

Module NavigationFacts.
Import Navigation.

Lemma tryCatch_run {S A} (m : M S A) (handler : JsError -> M S A) (s : S) :
  tryCatch m handler s
  = match m s with
    | (Ok a, s') => (Ok a, s')
    | (Throw e, s') => handler e s'
    end.
Proof. done. Qed.

(** A wait whose failure is caught: it is attempted, and never throws. *)
Lemma late_wait_run {Response} (env : NavEnvironment (Response := Response))
    (call : NavCall) (line : string) (trace : list NavEvent) :
  tryCatch (navPerform env call (fun _ => tt)) (fun _ => consoleLog line) trace
  = (Ok tt, trace ++ [(call, navRejects env trace call)]).
Proof.
  unfold tryCatch, navPerform, consoleLog, ret.
  by destruct (navRejects env trace call).
Qed.

(** X23.  [navigateSafely] first waits, then navigates, then waits for
    the network to be idle and for the document to be complete, in this
    order.  It throws exactly when the first wait or [page.goto] throws,
    and then with that very error and without making the calls that
    follow; otherwise it makes all four calls and returns what
    [page.goto] resolved with, whether or not the two waits after the
    navigation throw. *)
Theorem navigateSafely_ignores_late_waits :
  forall (Response : Type) (env : NavEnvironment (Response := Response))
    (page : Page) (url : string) (trace : list NavEvent),
    match navRejects env trace (delayCall page) with
    | Some msg =>
        navigateSafely env page url trace
        = (Throw (ExternalError msg), trace ++ [(delayCall page, Some msg)])
    | None =>
        match navRejects env (trace ++ [(delayCall page, None)]) (gotoCall page url) with
        | Some msg =>
            navigateSafely env page url trace
            = (Throw (ExternalError msg),
               trace ++ [(delayCall page, None); (gotoCall page url, Some msg)])
        | None =>
            exists idled completed,
              navigateSafely env page url trace
              = (Ok (gotoResponse env (trace ++ [(delayCall page, None)]) page url),
                 trace ++ [(delayCall page, None); (gotoCall page url, None);
                           (idleCall page, idled); (completeCall page, completed)]) /\
              idled
              = navRejects env
                  (trace ++ [(delayCall page, None); (gotoCall page url, None)])
                  (idleCall page) /\
              completed
              = navRejects env
                  (trace ++ [(delayCall page, None); (gotoCall page url, None);
                             (idleCall page, idled)])
                  (completeCall page)
        end
    end.
Proof.
  intros Response env page url trace. unfold navigateSafely.
  fold (delayCall page) (gotoCall page url) (idleCall page) (completeCall page).
  destruct (navRejects env trace (delayCall page)) as [msg|] eqn:Hdelay.
  { rewrite (MonadFacts.bind_throw _ _ trace (ExternalError msg)
               (trace ++ [(delayCall page, Some msg)])); [done|].
    unfold navPerform. by rewrite Hdelay. }
  rewrite (MonadFacts.bind_ok _ _ trace tt (trace ++ [(delayCall page, None)]));
    [|unfold navPerform; by rewrite Hdelay].
  rewrite tryCatch_run.
  destruct (navRejects env (trace ++ [(delayCall page, None)]) (gotoCall page url))
    as [msg|] eqn:Hgoto.
  { rewrite (MonadFacts.bind_throw _ _ _ (ExternalError msg)
               (trace ++ [(delayCall page, None); (gotoCall page url, Some msg)])).
    - done.
    - unfold navPerform. rewrite Hgoto. by rewrite <- app_assoc. }
  assert (Hnav :
    navPerform env (gotoCall page url) (fun t => gotoResponse env t page url)
      (trace ++ [(delayCall page, None)])
    = (Ok (gotoResponse env (trace ++ [(delayCall page, None)]) page url),
       trace ++ [(delayCall page, None); (gotoCall page url, None)])).
  { unfold navPerform. rewrite Hgoto. by rewrite <- app_assoc. }
  rewrite (MonadFacts.bind_ok _ _ _ _ _ Hnav).
  erewrite MonadFacts.bind_ok; [|apply late_wait_run].
  erewrite MonadFacts.bind_ok; [|apply late_wait_run].
  eexists _, _. split; [|split; reflexivity].
  unfold ret. by rewrite <- !app_assoc.
Qed.

End NavigationFacts.

(** ** More about [processItemsInParallel] *)

Module ParallelMore.
Import Parallel ParallelLog ParallelFacts.

Section Progress.
Context {T R : Type}.
Variable pages : list Page.
Variable processItemFn : option Page -> T -> Res R.
Variable batchSize : nat.
Variable onBatchComplete : option (list R -> Res unit).
Variable onProgress : option (nat -> nat -> Res unit).
Variable totalItems : nat.

Local Abbreviation resume :=
  (resume processItemFn batchSize onBatchComplete onProgress totalItems).
Local Abbreviation step :=
  (step processItemFn batchSize onBatchComplete onProgress totalItems).
Local Abbreviation enterLoop := (enterLoop onBatchComplete).
Local Abbreviation countSuccess := (countSuccess onBatchComplete onProgress totalItems).
Local Abbreviation catchBlock := (catchBlock onBatchComplete onProgress totalItems).
Local Abbreviation reportProgress := (reportProgress onProgress totalItems).

(** The reports expected once [n] items have been counted. *)
Local Abbreviation expected n :=
  (match onProgress with
   | Some _ => countingUp totalItems n
   | None => []
   end).

(** Every count so far has been reported, in order. *)
Local Abbreviation Reported sh :=
  (progressCalls (callbackLog sh) = expected (successCount sh + failCount sh)).

Lemma progressCalls_app (l1 l2 : list (CallbackCall R)) :
  progressCalls (l1 ++ l2) = progressCalls l1 ++ progressCalls l2.
Proof. apply omap_app. Qed.

Lemma countingUp_S total n :
  countingUp total (S n) = countingUp total n ++ [(S n, total)].
Proof. unfold countingUp. by rewrite seq_S, fmap_app. Qed.

Lemma reportProgress_reported (sh : Shared R) n :
  successCount sh + failCount sh = S n ->
  progressCalls (callbackLog sh) = expected n ->
  Reported (reportProgress sh).2 /\
  successCount (reportProgress sh).2 = successCount sh /\
  failCount (reportProgress sh).2 = failCount sh.
Proof.
  intros Hn Hlog. unfold reportProgress, Parallel.reportProgress.
  destruct onProgress as [h|]; cbn [snd callbackLog successCount failCount].
  - rewrite progressCalls_app, Hlog, Hn, countingUp_S. done.
  - by rewrite Hlog.
Qed.

Lemma enterLoop_reported rest (t : Task T R) sh :
  Reported sh -> Reported (enterLoop rest t sh).2.
Proof.
  intros H. unfold enterLoop, Parallel.enterLoop. destruct rest as [|item rest]; [|done].
  destruct onBatchComplete as [g|]; [|done].
  destruct (0 <? length (localBatch t)); [|done].
  cbn [snd callbackLog successCount failCount]. rewrite progressCalls_app. cbn.
           by rewrite app_nil_r.
Qed.

Lemma catchBlock_reported rest (t : Task T R) sh :
  Reported sh -> Reported (catchBlock rest t sh).2.
Proof.
  intros H. unfold catchBlock, Parallel.catchBlock.
  destruct (reportProgress_reported
              (mkShared (successCount sh) (S (failCount sh)) (allResults sh)
                 (callbackLog sh)) (successCount sh + failCount sh))
    as (Hrep & _ & _); [cbn; lia|done|].
  destruct (reportProgress _) as [[[]|e] sh2]; cbn in Hrep |- *; [|done].
  by apply enterLoop_reported.
Qed.

Lemma countSuccess_reported rest (t : Task T R) sh :
  Reported sh -> Reported (countSuccess rest t sh).2.
Proof.
  intros H. unfold countSuccess, Parallel.countSuccess.
  destruct (reportProgress_reported
              (mkShared (S (successCount sh)) (failCount sh) (allResults sh)
                 (callbackLog sh)) (successCount sh + failCount sh))
    as (Hrep & _ & _); [cbn; lia|done|].
  destruct (reportProgress _) as [[[]|e] sh2]; cbn in Hrep |- *.
  - by apply enterLoop_reported.
  - by apply catchBlock_reported.
Qed.

Lemma resume_reported (t : Task T R) sh :
  Reported sh -> Reported (resume t sh).2.
Proof.
  intros H. unfold resume, Parallel.resume.
  destruct (pc t) as [item rest|[[]|e] rest|[[]|e]| |e]; try done.
  - destruct (processItemFn (page t) item) as [result|e].
    + destruct onBatchComplete as [g|] eqn:Eg.
      * destruct (batchSize <=? _).
        -- cbn [snd callbackLog successCount failCount]. rewrite progressCalls_app. cbn.
           by rewrite app_nil_r.
        -- rewrite <- Eg. by apply countSuccess_reported.
      * rewrite <- Eg. by apply countSuccess_reported.
    + by apply catchBlock_reported.
  - by apply countSuccess_reported.
  - by apply catchBlock_reported.
Qed.

Lemma step_reported (r : Run (T := T) (R := R)) c :
  Reported (shared r) -> Reported (shared (step r c)).
Proof.
  intros H. unfold step, Parallel.step. destruct (tasks r !! c) as [t|]; [|done].
  pose proof (resume_reported t (shared r) H) as H'.
  by destruct (resume t (shared r)).
Qed.

Lemma run_reported schedule (r : Run (T := T) (R := R)) :
  Reported (shared r) -> Reported (shared (foldl step r schedule)).
Proof.
  revert r. induction schedule as [|c schedule IH]; intros r H; [done|].
  simpl. by apply IH, step_reported.
Qed.

Lemma startTasks_reported chunks i (r : Run (T := T) (R := R)) :
  Reported (shared r) -> Reported (shared (startTasks pages onBatchComplete i chunks r)).
Proof.
  revert i r. induction chunks as [|chunk chunks IH]; intros i r H; [done|].
  cbn [startTasks].
  pose proof (enterLoop_reported chunk (mkTask (pages !! i) i [] Finished) (shared r) H)
    as H'.
  destruct (enterLoop chunk _ (shared r)) as [t sh]. by apply IH.
Qed.

End Progress.

(** A run with a single task keeps its results in order. *)
Section Single.
Context {T R : Type}.
Variable processItemFn : option Page -> T -> Res R.
Variable batchSize : nat.
Variable onBatchComplete : option (list R -> Res unit).
Variable onProgress : option (nat -> nat -> Res unit).
Variable totalItems : nat.
Hypothesis batch_returns : batchCallbackReturns onBatchComplete.
Hypothesis progress_returns : progressCallbackReturns onProgress.

Local Abbreviation step :=
  (step processItemFn batchSize onBatchComplete onProgress totalItems).

Lemma step_single (r : Run (T := T) (R := R)) c t :
  Sound r -> tasks r = [t] ->
  exists t', tasks (step r c) = [t'] /\
    resultPotential processItemFn (step r c) = resultPotential processItemFn r.
Proof.
  intros HS Ht. destruct c as [|c].
  - destruct (step_inside processItemFn batchSize onBatchComplete onProgress
                totalItems batch_returns progress_returns r 0 t HS)
      as (t' & sh' & E & Hs & _ & ->); [by rewrite Ht|].
    destruct (resume_stretch processItemFn batchSize onBatchComplete onProgress
                totalItems batch_returns progress_returns _ _ _ _ Hs E)
      as (_ & _ & _ & _ & _ & Hres & _).
    exists t'. unfold resultPotential. cbn [tasks shared]. rewrite Ht. cbn.
    split; [done|]. by rewrite !app_nil_r.
  - exists t. rewrite step_outside; [done|]. by rewrite Ht.
Qed.

Lemma run_single schedule (r : Run (T := T) (R := R)) t :
  Sound r -> tasks r = [t] ->
  resultPotential processItemFn (foldl step r schedule)
  = resultPotential processItemFn r.
Proof.
  revert r t. induction schedule as [|c schedule IH]; intros r t HS Ht; [done|].
  simpl. destruct (step_single r c t HS Ht) as (t' & Ht' & <-).
  apply (IH _ t'); [|done].
  by apply (step_sound processItemFn batchSize onBatchComplete onProgress
              totalItems batch_returns progress_returns).
Qed.

End Single.

(** The chunks of at most one page: everything in one chunk. *)
Lemma splitIntoChunks_one {T} (items : list T) k :
  k <= 1 ->
  exists chunks,
    splitIntoChunks items k = Some chunks /\
    (chunks = [] /\ items = [] \/ chunks = [items]).
Proof.
  intros Hk. destruct k as [|[|k]]; [| |lia].
  - eexists. split; [done|]. destruct items; [by left|by right].
  - destruct (splitIntoChunks_defined items 1) as (chunks & E & Hcat & Hlen); [lia|].
    exists chunks. split; [done|].
    destruct chunks as [|chunk [|? ?]]; simpl in *; [|right|lia].
    + left. by rewrite <- Hcat.
    + by rewrite app_nil_r in Hcat; subst.
Qed.

(** Finished tasks have nothing pending. *)
Lemma finished_no_pending {T R} (f : option Page -> T -> Res R) (ts : list (Task T R)) :
  Forall (fun t => isFinished t) ts ->
  concat ((fun t => oks (pendingOutcomes f t)) <$> ts) = [].
Proof.
  induction 1 as [|t ts Ht _ IH]; [done|].
  cbn [fmap list_fmap concat]. change (list_fmap _ _ ?g ts) with (g <$> ts).
  rewrite IH, app_nil_r. unfold pendingOutcomes, pendingItems.
  unfold isFinished in Ht. by destruct (pc t).
Qed.

(** X24.  With an empty [items] array nothing is processed: whatever the
    pages, the callbacks and the order of resumption, no task is started,
    no callback is called, and the call resolves with zero counts and no
    results. *)
Theorem no_items_no_work :
  forall (T R : Type) (pages : list Page)
    (processItemFn : option Page -> T -> Res R) (batchSize : nat)
    (onBatchComplete : option (list R -> Res unit))
    (onProgress : option (nat -> nat -> Res unit)) (schedule : list nat),
    parallelRun pages [] processItemFn batchSize onBatchComplete onProgress schedule
    = Some (mkRun (mkShared 0 0 [] []) [] None) /\
    processItemsInParallel pages [] processItemFn batchSize onBatchComplete
      onProgress schedule
    = Some (Ok (mkSummary 0 0 [])).
Proof.
  intros T R pages f b ob op schedule.
  assert (Hchunks : splitIntoChunks (@nil T) (length pages) = Some []).
  { by destruct (length pages). }
  assert (Hrun : parallelRun pages [] f b ob op schedule
                 = Some (mkRun (mkShared 0 0 [] []) [] None)).
  { unfold parallelRun. rewrite Hchunks. cbn [mbind option_bind startTasks].
    f_equal. induction schedule as [|c schedule IH]; [done|]. simpl. exact IH. }
  split; [done|]. unfold processItemsInParallel. by rewrite Hrun.
Qed.

(** X25.  With at most one page the items are processed one after the
    other, on [pages[0]] ([undefined] when there is no page): with
    callbacks that return, once the task has been resumed to its end, the
    call resolves with the outputs of the successful items in the order
    of the items as [results], and their number and the number of
    failures as counts. *)
Theorem single_page_is_sequential :
  forall (T R : Type) (pages : list Page) (items : list T)
    (processItemFn : option Page -> T -> Res R) (batchSize : nat)
    (onBatchComplete : option (list R -> Res unit))
    (onProgress : option (nat -> nat -> Res unit)) (schedule : list nat),
    length pages <= 1 ->
    batchCallbackReturns onBatchComplete ->
    progressCallbackReturns onProgress ->
    2 * length items + 1 <= resumptions 0 schedule ->
    processItemsInParallel pages items processItemFn batchSize onBatchComplete
      onProgress schedule
    = Some (Ok (mkSummary
                  (count_ok (processItemFn (pages !! 0) <$> items))
                  (count_throw (processItemFn (pages !! 0) <$> items))
                  (oks (processItemFn (pages !! 0) <$> items)))).
Proof.
  intros T R pages items f b ob op schedule Hpages HB HP Hsched.
  destruct (splitIntoChunks_one items (length pages) Hpages)
    as (chunks & Hchunks & Hcases).
  destruct (parallelRun_spec pages items f b ob op chunks schedule HB HP Hchunks)
    as (r & Hrun & _ & Hdone).
  unfold processItemsInParallel. rewrite Hrun. cbn [mbind option_bind].
  destruct Hcases as [[-> ->]| ->].
  { destruct Hdone as (-> & Hperm & _); [intros c chunk; by rewrite lookup_nil|].
    cbn in Hperm |- *. by apply Permutation_nil_r in Hperm as ->. }
  destruct Hdone as (Hsettle & _).
  { intros [|c] chunk; simpl; [by intros [= <-]|by rewrite lookup_nil]. }
  cbn [chunkOutcomes] in Hsettle. rewrite app_nil_r in Hsettle.
  rewrite Hsettle. do 3 f_equal.
  (* the results, in order *)
  unfold parallelRun in Hrun. rewrite Hchunks in Hrun. cbn [mbind option_bind] in Hrun.
  injection Hrun as <-.
  assert (HS0 : Sound (T := T) (R := R) (mkRun (mkShared 0 0 [] []) [] None))
    by (split; simpl; by try constructor).
  destruct (startTasks_spec pages f b ob HB [items] 0 _ HS0 eq_refl) as (HS1 & _).
  cbn [startTasks shared tasks rejection app] in *.
  destruct (enterLoop ob items _ _) as [t sh] eqn:E.
  destruct (enterLoop_shared ob HB _ _ _ _ _ E) as (_ & _ & Har & _ & Hpi).
  destruct (enterLoop_stretch f b ob HB _ _ _ _ _ E) as [Hp _ _ _ _ _ _ _ _].
  cbn [allResults page] in Har, Hp.
  pose proof (run_single f b ob op (length items) HB HP schedule _ t HS1 eq_refl) as Hord.
  unfold settle in Hsettle.
  destruct (rejection _); [done|].
  destruct (forallb isFinished _) eqn:Hfin; [|done]. clear Hsettle.
  unfold resultPotential in Hord. cbn [shared tasks] in Hord.
  rewrite Har in Hord. cbn [app fmap list_fmap concat] in Hord.
  unfold pendingOutcomes at 2 in Hord. rewrite Hpi, Hp, app_nil_r in Hord.
  rewrite <- Hord.
  rewrite finished_no_pending, app_nil_r; [done|].
  by apply Is_true_true_2, forallb_True in Hfin.
Qed.

Lemma single_page_is_sequential_witness :
  processItemsInParallel [0] [1; 2; 3; 4]
    (fun _ item => if bool_decide (item = 2)
                   then Throw (ExternalError "designed to fail") else Ok (10 * item))
    2 None None [0; 0; 0; 0; 0; 0; 0; 0; 0]
  = Some (Ok (mkSummary 3 1 [10; 30; 40])).
Proof.
  refine (eq_trans
            (single_page_is_sequential nat nat [0] [1; 2; 3; 4]
               (fun _ item => if bool_decide (item = 2)
                              then Throw (ExternalError "designed to fail")
                              else Ok (10 * item))
               2 None None [0; 0; 0; 0; 0; 0; 0; 0; 0] _ _ _ _) _).
  - simpl. lia.
  - by intros g batch [=].
  - by intros h completed total [=].
  - vm_compute. lia.
  - vm_compute. reflexivity.
Defined.

(** X26.  Whatever the pages, the callbacks (throwing ones included) and
    the order of resumption, and at every moment of a call: the
    [onProgress] calls made so far are [(1, n)], [(2, n)], ... up to
    [successCount + failCount], in this order, where [n] is
    [items.length]; no number is reported twice or left out.  With
    callbacks that return, a call that has resolved has reported exactly
    [(1, n)], ..., [(n, n)]. *)
Theorem progress_counts_up :
  forall (T R : Type) (pages : list Page) (items : list T)
    (processItemFn : option Page -> T -> Res R) (batchSize : nat)
    (onBatchComplete : option (list R -> Res unit))
    (h : nat -> nat -> Res unit) (schedule : list nat),
  exists r,
    parallelRun pages items processItemFn batchSize onBatchComplete (Some h) schedule
    = Some r /\
    progressCalls (callbackLog (shared r))
    = countingUp (length items) (successCount (shared r) + failCount (shared r)) /\
    (batchCallbackReturns onBatchComplete ->
     progressCallbackReturns (Some h) ->
     forall summary,
       settle r = Some (Ok summary) ->
       progressCalls (callbackLog (shared r))
       = countingUp (length items) (length items)).
Proof.
  intros T R pages items f b ob h schedule.
  assert (Hchunks : exists chunks, splitIntoChunks items (length pages) = Some chunks).
  { destruct (length pages) as [|k] eqn:Hk; [by eexists|].
    destruct (splitIntoChunks_defined items (S k)) as (chunks & E & _); [lia|].
    by exists chunks. }
  destruct Hchunks as [chunks Hchunks].
  unfold parallelRun. rewrite Hchunks. cbn [mbind option_bind].
  eexists. split; [done|].
  set (r0 := mkRun (T := T) (mkShared (R := R) 0 0 [] []) [] None).
  assert (Hrep : progressCalls (callbackLog (shared
                   (foldl (step f b ob (Some h) (length items))
                      (startTasks pages ob 0 chunks r0) schedule)))
                 = countingUp (length items)
                     (successCount (shared
                        (foldl (step f b ob (Some h) (length items))
                           (startTasks pages ob 0 chunks r0) schedule))
                      + failCount (shared
                          (foldl (step f b ob (Some h) (length items))
                             (startTasks pages ob 0 chunks r0) schedule)))).
  { apply (run_reported f b ob (Some h) (length items)).
    by apply (startTasks_reported pages ob (Some h) (length items)). }
  split; [done|].
  intros HB HP summary Hsettle. rewrite Hrep. f_equal.
  (* the counts of a resolved call *)
  assert (HS0 : Sound (T := T) (R := R) r0) by (split; simpl; by try constructor).
  destruct (startTasks_spec pages f b ob HB chunks 0 r0 HS0 eq_refl)
    as (HS1 & Hs1 & Hf1 & _).
  set (r1 := startTasks pages ob 0 chunks r0) in *.
  pose proof (run_sound f b ob (Some h) (length items) HB HP schedule r1 HS1) as HS2.
  destruct (run_conserves f b ob (Some h) (length items) HB HP schedule r1 HS1)
    as (Hs2 & Hf2 & _).
  set (r2 := foldl (step f b ob (Some h) (length items)) r1 schedule) in *.
  assert (Hfin : Forall (fun t => stepsLeft t = 0) (tasks r2)).
  { unfold settle in Hsettle. destruct (rejection r2); [done|].
    destruct (forallb isFinished (tasks r2)) eqn:Hfin; [|done].
    apply Is_true_true_2, forallb_True in Hfin. eapply Forall_impl; [exact Hfin|].
    intros t Ht. unfold isFinished in Ht. unfold stepsLeft. by destruct (pc t). }
  destruct (finished_run f b r2 HS2 Hfin) as (_ & Hs3 & Hf3 & _).
  rewrite <- Hs3, <- Hf3, Hs2, Hf2, Hs1, Hf1.
  unfold successPotential, failPotential. cbn.
  pose proof (count_ok_throw (chunkOutcomes pages f 0 chunks)) as Hsum.
  rewrite chunkOutcomes_length in Hsum.
  assert (Hcat : concat chunks = items).
  { destruct (length pages) as [|k] eqn:Hk.
    - cbn in Hchunks. injection Hchunks as <-. destruct items; [done|].
      cbn. by rewrite app_nil_r.
    - destruct (splitIntoChunks_defined items (S k)) as (chunks' & E & Hcat & _); [lia|].
      congruence. }
  rewrite Hcat in Hsum. lia.
Qed.

Lemma progress_counts_up_witness :
  exists r,
    parallelRun [0; 1] [1; 2; 3] (fun _ item => Ok item) 50 None
      (Some (fun _ _ => Ok tt)) [1; 0; 0; 1; 0; 0; 0; 1; 1]
    = Some r /\
    progressCalls (callbackLog (shared r)) = [(1, 3); (2, 3); (3, 3)].
Proof.
  destruct (progress_counts_up nat nat [0; 1] [1; 2; 3] (fun _ item => Ok item) 50
              None (fun _ _ => Ok tt) [1; 0; 0; 1; 0; 0; 0; 1; 1])
    as (r & Hrun & _ & Hdone).
  exists r. split; [exact Hrun|].
  refine (eq_trans (Hdone _ _ (mkSummary 3 0 [3; 1; 2]) _) _).
  - by intros g batch [=].
  - by intros h c t [= <-].
  - vm_compute in Hrun. injection Hrun as <-. vm_compute. reflexivity.
  - reflexivity.
Defined.

End ParallelMore.

(** ** More about the messaging service *)

Module BrokerFacts.
Import RabbitMQ JsMapFacts RabbitMQFacts.

Section Facts.
Context {Payload : Type}.
Variable env : Environment (Payload := Payload).

Local Abbreviation State := (State (Payload := Payload)).

(** Every cached client is marked connected and no reconnect was ever
    attempted. *)
Local Abbreviation AllConnected s :=
  ((forall q info, JsMap.get q (clients s) = Some info -> connected info = true) /\
   (forall c, ClientConnect c ∉ calls s)).

Lemma serve_all_connected (s : State) q req :
  AllConnected s -> AllConnected (serve env q req s).
Proof.
  intros [Hflags Hcalls].
  destruct (serve_calls env s q req) as (c & s1 & d & Hcreate & -> & _ & -> & Hd).
  destruct (createClient_cases env s q) as (c' & s1' & Hcreate' & Hq & Hother & Hlog & _).
  rewrite Hcreate in Hcreate'. injection Hcreate' as <- <-.
  split.
  - intros q' info. destruct (decide (q' = q)) as [->|Hne].
    + rewrite Hq. intros [= <-]. simpl.
      destruct (JsMap.get q (clients s)) as [info|] eqn:Hget; [|done].
      by rewrite (Hflags _ _ Hget).
    + rewrite (Hother _ Hne). apply Hflags.
  - intros c0. rewrite Hlog, !elem_of_app, list_elem_of_singleton.
    intros [[Hin|Hin]|Heq].
    + by apply (Hcalls c0).
    + destruct (JsMap.get q (clients s)) as [info|] eqn:Hget.
      * rewrite (Hflags _ _ Hget) in Hin. by apply elem_of_nil in Hin.
      * by apply list_elem_of_singleton in Hin.
    + rewrite Hd in Heq. by destruct req.
Qed.

Lemma serveAll_all_connected requests (s : State) :
  AllConnected s -> AllConnected (serveAll env requests s).
Proof.
  revert s. induction requests as [|[q req] requests IH]; intros s Hs; [done|].
  apply IH. by apply serve_all_connected.
Qed.

(** What [emit] and [send] give back and leave behind, in terms of the
    client [createClient] hands out. *)
Lemma emit_run (s : State) q pattern payload :
  exists c s1,
    createClient env q s = (Ok c, s1) /\
    emit env q pattern payload s
    = (emitSettles env (calls s1) c q (mkEnvelope pattern payload),
       mkState (clients s1) (created s1)
         (calls s1 ++ [ClientEmit c q (mkEnvelope pattern payload)])).
Proof.
  destruct (createClient_cases env s q) as (c & s1 & E & _).
  exists c, s1. split; [done|].
  unfold emit, tryCatch, bind. rewrite E.
  unfold clientEmit, settleWith, bind, gets, record, modify. simpl.
  by destruct (emitSettles env (calls s1) c q _).
Qed.

Lemma send_run (s : State) q pattern payload :
  exists c s1,
    createClient env q s = (Ok c, s1) /\
    send env q pattern payload s
    = (sendSettles env (calls s1) c q (mkEnvelope pattern payload),
       mkState (clients s1) (created s1)
         (calls s1 ++ [ClientSend c q (mkEnvelope pattern payload)])).
Proof.
  destruct (createClient_cases env s q) as (c & s1 & E & _).
  exists c, s1. split; [done|].
  unfold send, tryCatch, bind. rewrite E.
  unfold clientSend, settleWith, bind, gets, record, modify. simpl.
  by destruct (sendSettles env (calls s1) c q _).
Qed.

(** The loop of [onApplicationShutdown] over the entries [es]. *)
Lemma shutdown_loop (es : list (string * ClientInfo)) (s : State) :
  forEach es (fun entry =>
    tryCatch
      (clientClose env (client entry.2) ;;
       consoleLog "대기열의 클라이언트가 닫혔습니다.")
      (fun error => consoleLog "클라이언트를 닫는 동안 오류가 발생했습니다") ;;
    setClients (JsMap.delete entry.1)) s
  = (Ok tt,
     mkState (foldl (fun m entry => JsMap.delete entry.1 m) (clients s) es)
       (created s)
       (calls s ++ ((fun entry => ClientClose (client entry.2)) <$> es))).
Proof.
  revert s. induction es as [|entry es IH]; intros s.
  - simpl. rewrite app_nil_r. by destruct s.
  - cbn [forEach]. unfold bind at 1.
    assert (Hbody :
      (tryCatch
         (clientClose env (client entry.2) ;;
          consoleLog "대기열의 클라이언트가 닫혔습니다.")
         (fun error => consoleLog "클라이언트를 닫는 동안 오류가 발생했습니다") ;;
       setClients (JsMap.delete entry.1)) s
      = (Ok tt,
         mkState (JsMap.delete entry.1 (clients s)) (created s)
           (calls s ++ [ClientClose (client entry.2)]))).
    { unfold tryCatch, clientClose, settleWith, bind, gets, record, modify,
        setClients, consoleLog, ret, throw. simpl.
      by destruct (closeSettles env (calls s) (client entry.2)). }
    rewrite Hbody, IH. simpl. by rewrite <- app_assoc.
Qed.

Lemma delete_all {V} (es : list (string * V)) (m : JsMap.t V) :
  (forall k, k ∈ JsMap.keys m -> k ∈ es.*1) ->
  foldl (fun m entry => JsMap.delete entry.1 m) m es = [].
Proof.
  revert m. induction es as [|[k0 v0] es IH]; intros m Hsub; simpl.
  - destruct m as [|[k v] m]; [done|].
    specialize (Hsub k). simpl in Hsub.
    exfalso. eapply not_elem_of_nil, Hsub. apply list_elem_of_here.
  - apply IH. intros k [Hne Hin]%keys_delete.
    apply Hsub in Hin. simpl in Hin. apply elem_of_cons in Hin as [->|Hin]; done.
Qed.

End Facts.

(** X27.  On a service as constructed, whatever requests are served, on
    whatever queues and however the broker answers (failed dispatches
    included): every cached client stays marked as connected, and
    [client.connect()] is never called.  The service writes the flag with
    [true] only, so that its reconnect branch is never taken. *)
Theorem connected_flag_never_cleared :
  forall (Payload : Type) (env : Environment (Payload := Payload))
    (requests : list (string * Request)),
    (forall q info,
       JsMap.get q (clients (serveAll env requests newService)) = Some info ->
       connected info = true) /\
    (forall c, ClientConnect c ∉ calls (serveAll env requests newService)).
Proof.
  intros Payload env requests. apply serveAll_all_connected. split.
  - by intros q info [=].
  - intros c. apply not_elem_of_nil.
Qed.

(** X28.  [emit] and [send] first obtain the client of the queue from
    [createClient] and then dispatch through it exactly once; they resolve
    or reject exactly as that dispatch does: [send] resolves with the
    reply of the broker, and an error is rethrown as it is.  Whether the
    dispatch fails or not, the client stays cached with the flag it had
    after [createClient]. *)
Theorem dispatch_outcome_is_passed_on :
  forall (Payload : Type) (env : Environment (Payload := Payload))
    (s : State (Payload := Payload)) (q pattern : string) (payload : Payload),
  exists c s1,
    createClient env q s = (Ok c, s1) /\
    emit env q pattern payload s
    = (emitSettles env (calls s1) c q (mkEnvelope pattern payload),
       mkState (clients s1) (created s1)
         (calls s1 ++ [ClientEmit c q (mkEnvelope pattern payload)])) /\
    send env q pattern payload s
    = (sendSettles env (calls s1) c q (mkEnvelope pattern payload),
       mkState (clients s1) (created s1)
         (calls s1 ++ [ClientSend c q (mkEnvelope pattern payload)])) /\
    JsMap.get q (clients s1) = Some (mkClientInfo c
      (match JsMap.get q (clients s) with
       | Some info => connected info || is_ok (connectSettles env (calls s) c)
       | None => true
       end)).
Proof.
  intros Payload env s q pattern payload.
  destruct (emit_run env s q pattern payload) as (c & s1 & Hcreate & Hemit).
  destruct (send_run env s q pattern payload) as (c' & s1' & Hcreate' & Hsend).
  rewrite Hcreate in Hcreate'. injection Hcreate' as <- <-.
  destruct (createClient_cases env s q) as (c' & s1' & Hcreate' & Hq & _).
  rewrite Hcreate in Hcreate'. injection Hcreate' as <- <-.
  by exists c, s1.
Qed.

(** X29.  [onApplicationShutdown] never throws.  It calls [close()]
    once on the client of every entry, in the order of the map, goes on
    when a [close()] throws, and leaves the map empty. *)
Theorem shutdown_closes_every_client :
  forall (Payload : Type) (env : Environment (Payload := Payload))
    (s : State (Payload := Payload)),
    onApplicationShutdown env s
    = (Ok tt,
       mkState [] (created s)
         (calls s ++ ((fun entry => ClientClose (client entry.2)) <$> clients s))).
Proof.
  intros Payload env s. unfold onApplicationShutdown.
  rewrite (MonadFacts.bind_ok (gets clients) _ s (clients s) s eq_refl).
  rewrite (MonadFacts.bind_ok _ _ _ _ _ (shutdown_loop env (JsMap.entries (clients s)) s)).
  unfold consoleLog, ret, JsMap.entries.
  rewrite delete_all; [done|]. by intros k.
Qed.

End BrokerFacts.
